(** * tcpdumpw: capture-task orchestration of the Cloud Run tcpdump sidecar

    A shallow embedding of [tcpdumpw/main.go]: the interface selector and
    its regular expression, the task factory [createTasks], the execution
    context manager [start], the scheduled function [tcpdump] with its
    listeners, the structured logger [jlog] and the lifecycle controller
    [main], followed by the properties proved about them. *)

From Stdlib Require Import ZArith NArith List String Ascii Bool Lia.
From Stdlib Require Import DecimalString DecimalZ DecimalPos.
From stdpp Require Import base option list gmap strings.
Import ListNotations.

Local Open Scope string_scope.
Local Open Scope list_scope.

(* ===================================================================== *)
(** * Go's [unicode/utf8]: texts as sequences of runes *)
(* ===================================================================== *)

Module utf8.

(** A rune is a code point. *)
Definition rune : Type := N.

(** U+FFFD, which also stands for every byte that starts no valid
    encoding. *)
Definition RuneError : rune := 65533%N.

Definition byte (c : ascii) : N := N_of_ascii c.

Definition between (lo hi : N) (c : ascii) : bool :=
  ((lo <=? byte c) && (byte c <=? hi))%N.

(** [utf8.DecodeRuneInString]: the first rune of a text and its width in
    bytes. The lead byte gives the width and the range of the second
    byte (which excludes over-long forms, surrogates and code points
    beyond U+10FFFF); the bytes after it lie in 80..BF. Anything else,
    a truncated encoding included, is [(RuneError, 1)]; the empty text is
    [(RuneError, 0)]. The rune is assembled from the payload bits of
    each byte. *)
Definition DecodeRune (s : list ascii) : rune * nat :=
  match s with
  | [] => (RuneError, 0%nat)
  | c0 :: s1 =>
      let b0 := byte c0 in
      if (b0 <? 128)%N then (b0, 1%nat)
      else if ((b0 <? 194) || (244 <? b0))%N then (RuneError, 1%nat)
      else if (b0 <? 224)%N then
        match s1 with
        | c1 :: _ =>
            if between 128 191 c1
            then (((b0 - 192) * 64 + (byte c1 - 128))%N, 2%nat)
            else (RuneError, 1%nat)
        | _ => (RuneError, 1%nat)
        end
      else if (b0 <? 240)%N then
        match s1 with
        | c1 :: c2 :: _ =>
            if between (if (b0 =? 224)%N then 160 else 128)
                       (if (b0 =? 237)%N then 159 else 191) c1
               && between 128 191 c2
            then (((b0 - 224) * 4096 + (byte c1 - 128) * 64
                   + (byte c2 - 128))%N, 3%nat)
            else (RuneError, 1%nat)
        | _ => (RuneError, 1%nat)
        end
      else
        match s1 with
        | c1 :: c2 :: c3 :: _ =>
            if between (if (b0 =? 240)%N then 144 else 128)
                       (if (b0 =? 244)%N then 143 else 191) c1
               && between 128 191 c2 && between 128 191 c3
            then (((b0 - 240) * 262144 + (byte c1 - 128) * 4096
                   + (byte c2 - 128) * 64 + (byte c3 - 128))%N, 4%nat)
            else (RuneError, 1%nat)
        | _ => (RuneError, 1%nat)
        end
  end.

(** The runes of a text with their widths, as the loop
    [for len(s) > 0 { r, size := DecodeRuneInString(s); s = s[size:] }]
    meets them; [skip] counts the bytes still to pass over. *)
Fixpoint decode_from (skip : nat) (s : list ascii) : list (rune * nat) :=
  match s with
  | [] => []
  | _ :: s' =>
      match skip with
      | S k => decode_from k s'
      | O => DecodeRune s :: decode_from (snd (DecodeRune s) - 1) s'
      end
  end.

Definition decode (s : list ascii) : list (rune * nat) := decode_from 0 s.

(** What the matcher reads: every invalid byte counts as U+FFFD. *)
Definition runes (s : string) : list rune :=
  map fst (decode (list_ascii_of_string s)).

Definition is_invalid (d : rune * nat) : bool :=
  (fst d =? RuneError)%N && (snd d =? 1)%nat.

(** [utf8.ValidString]. *)
Definition Valid (s : list ascii) : bool :=
  forallb (fun d => negb (is_invalid d)) (decode s).

Definition ValidString (s : string) : bool := Valid (list_ascii_of_string s).

End utf8.

(* ===================================================================== *)
(** * Go's [regexp], for the syntax the interface pattern is modelled in *)
(* ===================================================================== *)

Module Regexp.
Import utf8.

(** Syntax trees, named after the operators of [regexp/syntax]. *)
Inductive regex : Type :=
| NoMatch
| EmptyMatch
| BeginText
| Literal (r : rune)
| AnyCharNotNL
| DigitClass
| Concat (r1 r2 : regex)
| Alternate (r1 r2 : regex)
| Star (r : regex)
| Plus (r : regex)
| Quest (r : regex).

Definition newline : rune := 10%N.

(** The class [\d]: the digits of ASCII. *)
Definition digit (r : rune) : bool := ((48 <=? r) && (r <=? 57))%N.

Definition is_digit (c : ascii) : bool :=
  (48 <=? nat_of_ascii c)%nat && (nat_of_ascii c <=? 57)%nat.

(** The characters with a meaning of their own in an expression:
    [\ . + * ? ( ) | [ ] { } ^ $]. *)
Definition is_meta (c : ascii) : bool :=
  existsb (Ascii.eqb c) (list_ascii_of_string "\.+*?()|[]{}^$").

(** ** Matching, by derivatives

    A text is matched rune by rune. [b] tells whether the position is the
    beginning of the text, which is where [^] matches (the expression is
    compiled with the OneLine flag). *)
Fixpoint nullable (b : bool) (r : regex) : bool :=
  match r with
  | NoMatch => false
  | EmptyMatch => true
  | BeginText => b
  | Literal _ | AnyCharNotNL | DigitClass => false
  | Concat r1 r2 => nullable b r1 && nullable b r2
  | Alternate r1 r2 => nullable b r1 || nullable b r2
  | Star _ => true
  | Plus r1 => nullable b r1
  | Quest _ => true
  end.

Fixpoint deriv (b : bool) (c : rune) (r : regex) : regex :=
  match r with
  | NoMatch | EmptyMatch | BeginText => NoMatch
  | Literal a => if (a =? c)%N then EmptyMatch else NoMatch
  | AnyCharNotNL => if (c =? newline)%N then NoMatch else EmptyMatch
  | DigitClass => if digit c then EmptyMatch else NoMatch
  | Concat r1 r2 =>
      Alternate (Concat (deriv b c r1) r2)
                (if nullable b r1 then deriv b c r2 else NoMatch)
  | Alternate r1 r2 => Alternate (deriv b c r1) (deriv b c r2)
  | Star r1 => Concat (deriv b c r1) (Star r1)
  | Plus r1 => Concat (deriv b c r1) (Star r1)
  | Quest r1 => deriv b c r1
  end.

(** Some prefix of [s] is matched by [r]. *)
Fixpoint prefix_match (b : bool) (r : regex) (s : list rune) : bool :=
  nullable b r ||
  match s with
  | [] => false
  | c :: s' => prefix_match false (deriv b c r) s'
  end.

(** Some substring of [s] is matched by [r]. *)
Fixpoint find_match (b : bool) (r : regex) (s : list rune) : bool :=
  prefix_match b r s ||
  match s with
  | [] => false
  | _ :: s' => find_match false r s'
  end.

(** ** Parsing

    The parser reads the expression rune by rune; an invalid byte where
    a character is expected is an error. *)
Inductive token : Type :=
| TChar (c : ascii)     (* a character of ASCII *)
| TRune (r : rune)      (* a character beyond ASCII *)
| TInvalid.             (* a byte that starts no valid encoding *)

Definition classify (d : rune * nat) : token :=
  if is_invalid d then TInvalid
  else if (fst d <? 128)%N then TChar (ascii_of_N (fst d))
  else TRune (fst d).

Definition tokens (s : string) : list token :=
  map classify (decode (list_ascii_of_string s)).

(** The parser of [regexp/syntax] keeps a stack of operands and
    pseudo-operators; here a frame holds what lies between an opening
    parenthesis and the current position. *)
Record frame : Type := mkFrame {
  f_alts : list regex;   (* finished alternatives, in order *)
  f_cur : list regex     (* operands of the current concatenation, last first *)
}.

Definition empty_frame : frame := mkFrame [] [].

Fixpoint mk_concat (l : list regex) : regex :=
  match l with
  | [] => EmptyMatch
  | [r] => r
  | r :: l' => Concat r (mk_concat l')
  end.

Fixpoint mk_alternate (l : list regex) : regex :=
  match l with
  | [] => NoMatch
  | [r] => r
  | r :: l' => Alternate r (mk_alternate l')
  end.

Definition close_frame (f : frame) : regex :=
  mk_alternate (f_alts f ++ [mk_concat (rev (f_cur f))]).

Definition push (r : regex) (f : frame) : frame :=
  mkFrame (f_alts f) (r :: f_cur f).

Inductive repeat_op : Type := OpStar | OpPlus | OpQuest.

Definition apply_repeat (op : repeat_op) (r : regex) : regex :=
  match op with
  | OpStar => Star r
  | OpPlus => Plus r
  | OpQuest => Quest r
  end.

(** What is known of an expression: the tree it compiles to; that it
    does not compile; or nothing, because it uses syntax that is not
    modelled here (classes in brackets, counted repetition, [$], flags,
    named groups, escapes other than [\d]) or has more operators than
    [max_operators]. *)
Inductive parsed : Type :=
| Compiles (re : regex)
| Fails
| Unmodelled.

(** Newer versions of the parser refuse an expression whose tree is
    higher than 1000. The tree has no more levels than it has nodes, and
    that many only with as many operators: an expression with no more
    operators than this stays clear of that limit, whatever its length.
    Their limit on the size of an expression (2^25 runes) is beyond what
    an environment variable can hold and is not modelled. *)
Definition max_operators : nat := 100.

Definition is_operator (t : token) : bool :=
  match t with
  | TChar c => existsb (Ascii.eqb c) (list_ascii_of_string "(|*+?")
  | _ => false
  end.

Definition operators (t : list token) : nat :=
  length (List.filter is_operator t).

(** One pass over the expression. [lastRepeat] is set when the previous
    token was a repetition operator: a second one in a row is an error
    (a [?] directly after an operator only makes it non-greedy, which
    does not change what matches). The errors are: an invalid byte, a
    parenthesis without its partner, a repetition operator with nothing
    to repeat or directly after another. *)
Fixpoint parse (t : list token) (lastRepeat : bool)
    (stack : list frame) (top : frame) {struct t} : parsed :=
  match t with
  | [] =>
      match stack with
      | [] => Compiles (close_frame top)
      | _ :: _ => Fails
      end
  | TInvalid :: _ => Fails
  | TRune r :: t' => parse t' false stack (push (Literal r) top)
  | TChar c :: t' =>
      match c with
      | "("%char =>
          match t' with
          | TChar "?"%char :: TChar ":"%char :: t'' =>
              parse t'' false (top :: stack) empty_frame
          | TChar "?"%char :: _ => Unmodelled
          | _ => parse t' false (top :: stack) empty_frame
          end
      | ")"%char =>
          match stack with
          | [] => Fails
          | parent :: stack' => parse t' false stack' (push (close_frame top) parent)
          end
      | "|"%char =>
          parse t' false stack
            (mkFrame (f_alts top ++ [mk_concat (rev (f_cur top))]) [])
      | "^"%char => parse t' false stack (push BeginText top)
      | "."%char => parse t' false stack (push AnyCharNotNL top)
      | "\"%char =>
          match t' with
          | TChar "d"%char :: t'' => parse t'' false stack (push DigitClass top)
          | _ => Unmodelled
          end
      | "*"%char | "+"%char | "?"%char =>
          let op := match c with
                    | "*"%char => OpStar
                    | "+"%char => OpPlus
                    | _ => OpQuest
                    end in
          if lastRepeat then Fails
          else match f_cur top with
               | [] => Fails
               | r :: cur' =>
                   let top' := mkFrame (f_alts top) (apply_repeat op r :: cur') in
                   match t' with
                   | TChar "?"%char :: t'' => parse t'' true stack top'
                   | _ => parse t' true stack top'
                   end
               end
      | "$"%char | "["%char | "]"%char | "{"%char | "}"%char => Unmodelled
      | _ => parse t' false stack (push (Literal (byte c)) top)
      end
  end.

(** A compiled expression: one whose tree is known, or one outside the
    modelled syntax, known only by what [MatchString] answers. *)
Inductive Regexp : Type :=
| Modelled (re : regex)
| External (matcher : string -> bool).

(** [Regexp.MatchString]: the text contains a match of the expression. *)
Definition MatchString (re : Regexp) (s : string) : bool :=
  match re with
  | Modelled r => find_match true r (runes s)
  | External matcher => matcher s
  end.

(** [regexp.MustCompile], which panics where this returns [None].
    [external] is what [regexp.Compile] does with an expression outside
    the modelled syntax: it gives the matcher of the compiled expression,
    or nothing when the expression does not compile. *)
Definition MustCompile (external : string -> option (string -> bool))
    (src : string) : option Regexp :=
  match (if (operators (tokens src) <=? max_operators)%nat
         then parse (tokens src) false [] empty_frame
         else Unmodelled) with
  | Compiles re => Some (Modelled re)
  | Fails => None
  | Unmodelled =>
      match external src with
      | Some matcher => Some (External matcher)
      | None => None
      end
  end.

(** ** What an expression denotes

    [matches b r s]: the expression [r] matches exactly the runes [s]
    when [s] starts at a position that is the beginning of the text iff
    [b]. *)
Definition is_nil (s : list rune) : bool :=
  match s with [] => true | _ :: _ => false end.

Inductive matches : bool -> regex -> list rune -> Prop :=
| MEmpty b : matches b EmptyMatch []
| MBeginText : matches true BeginText []
| MLiteral b c : matches b (Literal c) [c]
| MAnyCharNotNL b c : c <> newline -> matches b AnyCharNotNL [c]
| MDigitClass b c : digit c = true -> matches b DigitClass [c]
| MConcat b r1 r2 s1 s2 :
    matches b r1 s1 -> matches (b && is_nil s1) r2 s2 ->
    matches b (Concat r1 r2) (s1 ++ s2)
| MAlternateL b r1 r2 s : matches b r1 s -> matches b (Alternate r1 r2) s
| MAlternateR b r1 r2 s : matches b r2 s -> matches b (Alternate r1 r2) s
| MStarNil b r : matches b (Star r) []
| MStarCons b r s1 s2 :
    matches b r s1 -> matches (b && is_nil s1) (Star r) s2 ->
    matches b (Star r) (s1 ++ s2)
| MPlus b r s1 s2 :
    matches b r s1 -> matches (b && is_nil s1) (Star r) s2 ->
    matches b (Plus r) (s1 ++ s2)
| MQuestNone b r : matches b (Quest r) []
| MQuestSome b r s : matches b r s -> matches b (Quest r) s.

End Regexp.

(* ===================================================================== *)
(** * The libraries [main.go] is written against *)
(* ===================================================================== *)

(** An [error] is modelled by the text of its [Error()]. *)
Definition error : Type := string.

(** The [%d] and [%t] verbs of [fmt]. *)
Definition fmt_d (z : Z) : string := NilZero.string_of_int (Z.to_int z).
Definition fmt_t (b : bool) : string := if b then "true" else "false".

(** [github.com/google/uuid]: 128 bits, printed as 8-4-4-4-12 hex digits. *)
Module uuid.

Definition UUID : Type := N.

Definition Nil : UUID := 0%N.

Definition hex_digit (n : N) : ascii :=
  nth (N.to_nat n) (list_ascii_of_string "0123456789abcdef") "0"%char.

Definition nibble (u : UUID) (i : nat) : N :=
  N.land (N.shiftr u (4 * N.of_nat (31 - i))) 15.

Definition hex (u : UUID) (from len : nat) : string :=
  string_of_list_ascii (map (fun i => hex_digit (nibble u i)) (seq from len)).

Definition String (u : UUID) : string :=
  hex u 0 8 +:+ "-" +:+ hex u 8 4 +:+ "-" +:+ hex u 12 4 +:+ "-" +:+
  hex u 16 4 +:+ "-" +:+ hex u 20 12.

End uuid.

(** [context]: a scope is described by how it was derived; whether it has
    ended is run-time state, kept by the machine that runs [start]. *)
Inductive Context : Type :=
| NilContext
| Background
| WithCancel (parent : Context)
| WithTimeout (parent : Context) (timeout : Z)
| WithValue (parent : Context) (key val : string).

Module net.
Record Interface : Type := { Index : Z; Name : string }.
End net.

Module time.
Record Location : Type := { LocationName : string }.
Definition UTC : Location := {| LocationName := "UTC" |}.
Definition Second : Z := 1000000000.
(** A [Duration] is an int64 count of nanoseconds; products wrap around. *)
Definition wrap64 (z : Z) : Z := (z + 2 ^ 63) mod 2 ^ 64 - 2 ^ 63.
End time.

(** [github.com/gchux/pcap-cli/pkg/pcap]. An engine or a writer is known
    to this program only by the call that built it. *)
Module pcap.

Record PcapConfig : Type := {
  Promisc : bool;
  Iface : string;
  Snaplen : Z;
  TsType : string;
  Format : string;
  Output : string;
  Extension : string;
  Filter : string;
  Interval : Z;
  Ordered : bool
}.

Definition set_Ordered (cfg : PcapConfig) (o : bool) : PcapConfig :=
  {| Promisc := Promisc cfg; Iface := Iface cfg; Snaplen := Snaplen cfg;
     TsType := TsType cfg; Format := Format cfg; Output := Output cfg;
     Extension := Extension cfg; Filter := Filter cfg;
     Interval := Interval cfg; Ordered := o |}.

Inductive PcapEngine : Type :=
| NilEngine
| Tcpdump (cfg : PcapConfig)    (* built by NewTcpdump *)
| Pcap (cfg : PcapConfig).      (* built by NewPcap *)

(** The file writer keeps the pointers it was given: its time zone is the
    cell of the [timezone] flag, not a copy of its value. *)
Inductive PcapWriter : Type :=
| NilWriter
| FileWriter (output extension : string) (interval : Z)  (* NewPcapWriter *)
| StdoutWriter.                                           (* NewStdoutPcapWriter *)

Definition engine_config (e : PcapEngine) : option PcapConfig :=
  match e with
  | NilEngine => None
  | Tcpdump cfg | Pcap cfg => Some cfg
  end.

End pcap.

Module gocron.

Inductive LimitMode : Type := LimitModeReschedule | LimitModeWait.

(** What the program reads off a scheduled job. *)
Record Job : Type := { ID : uuid.UUID; Name : string; Tags : list string }.

Record SchedulerOptions : Type := {
  WithLimitConcurrentJobs : option (Z * LimitMode);
  WithLocation : time.Location;
  WithGlobalTags : list string
}.

(** The job definition handed to [NewJob]; the task is [tcpdump] and the
    listeners are [afterTcpdump] and [beforeTcpdump]. *)
Record JobDefinition : Type := {
  CronJob : string * bool;      (* crontab, with seconds *)
  TaskParameter : Z;            (* the timeout passed to the task *)
  WithName : string;
  WithSingletonMode : option LimitMode
}.

End gocron.

(** The [flag] package: the command line, after [flag.Parse]. *)
Module flags.
Record t : Type := {
  use_cron : bool;
  cron_exp : string;
  timezone : string;
  duration : Z;
  interval : Z;
  snaplen : Z;
  filter : string;
  extension : string;
  directory : string;
  tcp_dump : bool;
  json_dump : bool;
  json_log : bool;
  ordered : bool
}.
End flags.

(* ===================================================================== *)
(** * Types of [main.go] *)
(* ===================================================================== *)

Record pcapTask : Type := {
  engine : pcap.PcapEngine;
  writers : list pcap.PcapWriter
}.

Record tcpdumpJob : Type := {
  job_j : option gocron.Job;
  Xid : string;
  Jid : string;
  Name : string;
  Tags : list string;
  job_tasks : list pcapTask;
  job_ctx : Context
}.

Inductive jLogLevel : Type := INFO | ERROR | FATAL.

Definition jLogLevel_string (l : jLogLevel) : string :=
  match l with INFO => "INFO" | ERROR => "ERROR" | FATAL => "FATAL" end.

Record jLogEntry : Type := {
  Severity : jLogLevel;
  Message : string;
  Sidecar : string;
  LogModule : string;
  Job : tcpdumpJob;
  LogTags : list string
}.

Definition emptyTcpdumpJob : tcpdumpJob :=
  {| job_j := None; Xid := EmptyString; Jid := uuid.String uuid.Nil; Name := EmptyString;
     Tags := []; job_tasks := []; job_ctx := NilContext |}.

(** ** [encoding/json] on a log entry

    Fields tagged ["-"] are left out, fields tagged [omitempty] are left
    out when empty; the others come in the order of the struct. *)
#[warnings="-register-all"] Inductive json : Type :=
| JString (s : string)
| JArray (l : list json)
| JObject (fields : list (string * json)).

Definition omitempty (key val : string) : list (string * json) :=
  if String.eqb val EmptyString then [] else [(key, JString val)].

Definition Marshal_job (job : tcpdumpJob) : json :=
  JObject (omitempty "xid" (Xid job) ++ omitempty "jid" (Jid job) ++
           omitempty "name" (Name job)).

Definition Marshal (e : jLogEntry) : json :=
  JObject ([("severity", JString (jLogLevel_string (Severity e)));
            ("message", JString (Message e));
            ("sidecar", JString (Sidecar e));
            ("module", JString (LogModule e));
            ("job", Marshal_job (Job e))] ++
           match LogTags e with
           | [] => []
           | _ :: _ => [("tags", JArray (map JString (LogTags e)))]
           end).

Definition field (key : string) (v : json) : option json :=
  match v with
  | JObject fields =>
      match List.find (fun kv => String.eqb (fst kv) key) fields with
      | Some kv => Some (snd kv)
      | None => None
      end
  | _ => None
  end.

(* ===================================================================== *)
(** * The world outside the process *)
(* ===================================================================== *)

(** Calls on the scheduler and on the top-level scope, in program order. *)
Inductive Call : Type :=
| CallNewScheduler (opts : gocron.SchedulerOptions)
| CallNewJob (def : gocron.JobDefinition)
| CallSchedulerStart
| CallStopJobs
| CallRemoveJob (id : uuid.UUID)
| CallShutdown
| CallCancel.

(** What the operating system and the libraries answer. The stdout writer
    constructor takes no argument in Go; here it is given the interface
    being configured, so that its answer may differ from call to call.
    [regexp_Compile] is [regexp.Compile] on the expressions that are
    outside the modelled syntax. *)
Record World : Type := {
  Getenv : string -> string;
  regexp_Compile : string -> option (string -> bool);
  FindAllDevs : list string + error;
  InterfaceByName : string -> net.Interface + error;
  NewTcpdump : pcap.PcapConfig -> option error;
  NewPcap : pcap.PcapConfig -> option error;
  NewPcapWriter : string -> string -> Z -> option error;
  NewStdoutPcapWriter : string -> option error;
  LoadLocation : string -> time.Location + error;
  NewScheduler : gocron.SchedulerOptions -> option error;
  NewJob : gocron.JobDefinition -> gocron.Job + error;
  NextRun : gocron.Job -> string;     (* as printed by %v *)
  LastRun : gocron.Job -> string;
  Duration_String : Z -> string;
  uuid_New : nat -> uuid.UUID;        (* the n-th random identifier *)
  signal : option string              (* the termination signal, if one comes *)
}.

Definition ifacePattern (w : World) : string := Getenv w "PCAP_IFACE".
Definition sidecar (w : World) : string := Getenv w "APP_SIDECAR".
Definition module (w : World) : string := Getenv w "PROC_NAME".

(* ===================================================================== *)
(** * Process state and the monad of the sequential code *)
(* ===================================================================== *)

(** [jid] and [xid] are the atomic values, [jobs] the concurrent map,
    [timezone] the cell behind the [timezone] flag (the one flag the
    program assigns to), [stdout] the entries printed so far. Both atomic
    values are stored by [main] before anything loads them. *)
Record State : Type := {
  jid : uuid.UUID;
  xid : uuid.UUID;
  jobs : gmap N tcpdumpJob;
  timezone : string;
  stdout : list jLogEntry;
  calls : list Call;
  entropy : nat
}.

Definition set_jid (v : uuid.UUID) (s : State) : State :=
  {| jid := v; xid := xid s; jobs := jobs s; timezone := timezone s;
     stdout := stdout s; calls := calls s; entropy := entropy s |}.
Definition set_xid (v : uuid.UUID) (s : State) : State :=
  {| jid := jid s; xid := v; jobs := jobs s; timezone := timezone s;
     stdout := stdout s; calls := calls s; entropy := entropy s |}.
Definition set_jobs (v : gmap N tcpdumpJob) (s : State) : State :=
  {| jid := jid s; xid := xid s; jobs := v; timezone := timezone s;
     stdout := stdout s; calls := calls s; entropy := entropy s |}.
Definition set_timezone (v : string) (s : State) : State :=
  {| jid := jid s; xid := xid s; jobs := jobs s; timezone := v;
     stdout := stdout s; calls := calls s; entropy := entropy s |}.
Definition set_stdout (v : list jLogEntry) (s : State) : State :=
  {| jid := jid s; xid := xid s; jobs := jobs s; timezone := timezone s;
     stdout := v; calls := calls s; entropy := entropy s |}.
Definition set_calls (v : list Call) (s : State) : State :=
  {| jid := jid s; xid := xid s; jobs := jobs s; timezone := timezone s;
     stdout := stdout s; calls := v; entropy := entropy s |}.
Definition set_entropy (v : nat) (s : State) : State :=
  {| jid := jid s; xid := xid s; jobs := jobs s; timezone := timezone s;
     stdout := stdout s; calls := calls s; entropy := v |}.

(** How a piece of sequential code ends: it returns, the process exits
    with a code, it panics, or it waits for ever. *)
Inductive Res (A : Type) : Type :=
| Ok (a : A) (s : State)
| Exit (code : Z) (s : State)
| Panic (s : State)
| Blocked (s : State).
Arguments Ok {A} a s.
Arguments Exit {A} code s.
Arguments Panic {A} s.
Arguments Blocked {A} s.

Definition M (A : Type) : Type := State -> Res A.

Definition ret {A : Type} (a : A) : M A := fun s => Ok a s.

Definition bind {A B : Type} (m : M A) (k : A -> M B) : M B :=
  fun s =>
    match m s with
    | Ok a s' => k a s'
    | Exit code s' => Exit code s'
    | Panic s' => Panic s'
    | Blocked s' => Blocked s'
    end.

#[global] Instance M_ret : MRet M := @ret.
#[global] Instance M_bind : MBind M := fun A B k m => bind m k.

Definition get {A : Type} (f : State -> A) : M A := fun s => Ok (f s) s.
Definition modify (f : State -> State) : M unit := fun s => Ok tt (f s).
Definition os_Exit {A : Type} (code : Z) : M A := fun s => Exit code s.
Definition panic {A : Type} : M A := fun s => Panic s.
Definition block {A : Type} : M A := fun s => Blocked s.
Definition call (c : Call) : M unit :=
  modify (fun s => set_calls (calls s ++ [c]) s).

Definition final_state {A : Type} (r : Res A) : State :=
  match r with
  | Ok _ s | Exit _ s | Panic s | Blocked s => s
  end.

(** The exit status of the process: [os.Exit]'s argument, or 0 when
    [main] returns. *)
Definition exit_code (r : Res unit) : option Z :=
  match r with
  | Ok _ _ => Some 0%Z
  | Exit code _ => Some code
  | Panic _ | Blocked _ => None
  end.

(* ===================================================================== *)
(** * [jlog] and the listeners *)
(* ===================================================================== *)

Definition with_Xid (job : tcpdumpJob) (x : string) : tcpdumpJob :=
  {| job_j := job_j job; Xid := x; Jid := Jid job; Name := Name job;
     Tags := Tags job; job_tasks := job_tasks job; job_ctx := job_ctx job |}.

(** [json.Marshal] does not fail on a [jLogEntry] (strings and a slice of
    strings), so the entry is always printed. The load of [xid] and the
    print are one step: the entries are in the order in which [jlog] has
    read [xid]. *)
Definition jlog (w : World) (severity : jLogLevel) (job : tcpdumpJob)
    (message : string) : M unit :=
  fun s =>
    let j := with_Xid job (uuid.String (xid s)) in
    let entry := {| Severity := severity; Message := message;
                    Sidecar := sidecar w; LogModule := module w;
                    Job := j; LogTags := Tags j |} in
    Ok tt (set_stdout (stdout s ++ [entry]) s).

Definition afterTcpdump (w : World) (id : uuid.UUID) (name : string) : M unit :=
  registered ← get (fun s => jobs s !! id);
  match registered with
  | Some job =>
      jlog w INFO job "execution complete";;
      match job_j job with
      | None => panic
      | Some j =>
          jlog w INFO job ("next execution: " +:+ NextRun w j)
      end
  | None => ret tt
  end;;
  modify (set_xid uuid.Nil).

Definition beforeTcpdump (w : World) (id : uuid.UUID) (name : string) : M unit :=
  registered ← get (fun s => jobs s !! id);
  match registered with
  | Some job =>
      match job_j job with
      | None => panic
      | Some j =>
          jlog w INFO job
            ("execution started ( last execution: " +:+ LastRun w j +:+ " )")
      end
  | None => ret tt
  end;;
  n ← get entropy;
  modify (fun s => set_entropy (S n) (set_xid (uuid_New w n) s)).

(* ===================================================================== *)
(** * [start]: one execution *)
(* ===================================================================== *)

(** While [start] runs, four kinds of things happen: the scope it was
    given ends, time passes, the engine of a task returns (which runs the
    deferred [wg.Done]), and the goroutine of [start] itself moves on when
    it can. *)
Inductive label : Type :=
| Cancel
| Elapse (d : Z)
| EngineReturns (i : nat)
| Main.

Inductive pc : Type :=
| AwaitDone     (* at <-ctx.Done() *)
| AwaitWg       (* at wg.Wait() *)
| Returned.

Record StartState : Type := {
  s_ctx : Context;            (* the scope handed to every engine *)
  s_timeout : Z;
  s_base_done : bool;         (* the scope given to start has ended *)
  s_elapsed : Z;              (* time since the call, in nanoseconds *)
  s_running : list bool;      (* per task: engine.Start has not returned *)
  s_wg : Z;                   (* the WaitGroup counter *)
  s_pc : pc
}.

(** The state when the goroutines have been launched. *)
Definition start_init (ctx : Context) (timeout : Z) (tasks : list pcapTask)
    : StartState :=
  {| s_ctx := if (0 <? timeout)%Z then WithTimeout ctx timeout else ctx;
     s_timeout := timeout;
     s_base_done := false;
     s_elapsed := 0;
     s_running := map (fun _ => true) tasks;
     s_wg := Z.of_nat (length tasks);
     s_pc := AwaitDone |}.

(** The scope of the engines has ended: the one given to [start] has, or
    the deadline derived for a positive timeout has passed. *)
Definition ctx_done (st : StartState) : bool :=
  s_base_done st ||
  ((0 <? s_timeout st)%Z && (s_timeout st <=? s_elapsed st)%Z).

Definition start_step (st : StartState) (l : label) : option StartState :=
  match l with
  | Cancel =>
      Some {| s_ctx := s_ctx st; s_timeout := s_timeout st;
              s_base_done := true; s_elapsed := s_elapsed st;
              s_running := s_running st; s_wg := s_wg st; s_pc := s_pc st |}
  | Elapse d =>
      if (0 <=? d)%Z then
        Some {| s_ctx := s_ctx st; s_timeout := s_timeout st;
                s_base_done := s_base_done st;
                s_elapsed := (s_elapsed st + d)%Z;
                s_running := s_running st; s_wg := s_wg st; s_pc := s_pc st |}
      else None
  | EngineReturns i =>
      match s_running st !! i with
      | Some true =>
          Some {| s_ctx := s_ctx st; s_timeout := s_timeout st;
                  s_base_done := s_base_done st; s_elapsed := s_elapsed st;
                  s_running := <[i := false]> (s_running st);
                  s_wg := (s_wg st - 1)%Z; s_pc := s_pc st |}
      | _ => None
      end
  | Main =>
      let goto p :=
        {| s_ctx := s_ctx st; s_timeout := s_timeout st;
           s_base_done := s_base_done st; s_elapsed := s_elapsed st;
           s_running := s_running st; s_wg := s_wg st; s_pc := p |} in
      match s_pc st with
      | AwaitDone => if ctx_done st then Some (goto AwaitWg) else None
      | AwaitWg => if (s_wg st =? 0)%Z then Some (goto Returned) else None
      | Returned => None
      end
  end.

(** A schedule is run label by label; a label that cannot happen in the
    current state is passed over. *)
Definition start_next (st : StartState) (l : label) : StartState :=
  match start_step st l with
  | Some st' => st'
  | None => st
  end.

Definition start_exec (st : StartState) (sched : list label) : StartState :=
  fold_left start_next sched st.

(** Let the goroutine of [start] go as far as it can. *)
Definition start_settle (st : StartState) : StartState :=
  start_exec st [Main; Main].

Definition returned (st : StartState) : bool :=
  match s_pc st with Returned => true | _ => false end.

(** [start], as the sequential code sees it: with the events of [sched]
    happening while it runs, it returns [nil] or is still waiting. *)
Definition start (sched : list label) (ctx : Context) (timeout : Z)
    (tasks : list pcapTask) : M (option error) :=
  if returned (start_settle (start_exec (start_init ctx timeout tasks) sched))
  then ret None
  else block.

(** What a schedule contains. *)
Definition is_cancel (l : label) : bool :=
  match l with Cancel => true | _ => false end.
Definition is_return (i : nat) (l : label) : bool :=
  match l with EngineReturns k => Nat.eqb k i | _ => false end.
Definition elapsed (sched : list label) : Z :=
  fold_right (fun l acc =>
    match l with
    | Elapse d => if (0 <=? d)%Z then (d + acc)%Z else acc
    | _ => acc
    end) 0%Z sched.
Definition scope_ended (timeout : Z) (sched : list label) : bool :=
  existsb is_cancel sched ||
  ((0 <? timeout)%Z && (timeout <=? elapsed sched)%Z).
Definition all_returned (n : nat) (sched : list label) : bool :=
  forallb (fun i => existsb (is_return i) sched) (seq 0 n).

(** A schedule in which the scope given to [start] is never cancelled. *)
Definition uncancelled (sched : list label) : list label :=
  List.filter (fun l => negb (is_cancel l)) sched.

(* ===================================================================== *)
(** * [tcpdump]: the scheduled function *)
(* ===================================================================== *)

Definition tcpdump (w : World) (sched : list label) (timeout : Z)
    : M (option error) :=
  jobID ← get jid;
  exeID ← get (fun s => uuid.String (xid s));
  registered ← get (fun s => jobs s !! jobID);
  match registered with
  | None =>
      let message := "job[id:" +:+ uuid.String jobID +:+ "] not found" in
      jlog w ERROR emptyTcpdumpJob message;;
      ret (Some message)
  | Some job =>
      let ctx := WithValue (job_ctx job) "id"
                   (uuid.String jobID +:+ "/" +:+ exeID) in
      start sched ctx timeout (job_tasks job)
  end.

(* ===================================================================== *)
(** * What the scheduler does once it is started *)
(* ===================================================================== *)

(** For every execution the scheduler calls, on a goroutine of its own,
    [beforeTcpdump], then [tcpdump], then [afterTcpdump]. Other
    goroutines may run between two statements of a listener, so each
    listener is cut into its statements: the entries it prints, one by
    one, and its store to [xid]. *)
Definition beforeTcpdump_logs (w : World) (id : uuid.UUID) (name : string)
    : M unit :=
  registered ← get (fun s => jobs s !! id);
  match registered with
  | Some job =>
      match job_j job with
      | None => panic
      | Some j =>
          jlog w INFO job
            ("execution started ( last execution: " +:+ LastRun w j +:+ " )")
      end
  | None => ret tt
  end.

Definition beforeTcpdump_stores (w : World) : M unit :=
  n ← get entropy;
  modify (fun s => set_entropy (S n) (set_xid (uuid_New w n) s)).

Definition afterTcpdump_logs_complete (w : World) (id : uuid.UUID)
    (name : string) : M unit :=
  registered ← get (fun s => jobs s !! id);
  match registered with
  | Some job => jlog w INFO job "execution complete"
  | None => ret tt
  end.

Definition afterTcpdump_logs_next (w : World) (id : uuid.UUID)
    (name : string) : M unit :=
  registered ← get (fun s => jobs s !! id);
  match registered with
  | Some job =>
      match job_j job with
      | None => panic
      | Some j => jlog w INFO job ("next execution: " +:+ NextRun w j)
      end
  | None => ret tt
  end.

Definition afterTcpdump_stores : M unit := modify (set_xid uuid.Nil).

Inductive sched_step : Type :=
| BeforeLogs                      (* beforeTcpdump, lines 120 to 124 *)
| BeforeStores                    (* beforeTcpdump, line 125 *)
| TaskRuns (sched : list label)   (* tcpdump, with what happens while start runs *)
| AfterLogsComplete               (* afterTcpdump, lines 110 and 111 *)
| AfterLogsNext                   (* afterTcpdump, lines 112 to 114 *)
| AfterStores.                    (* afterTcpdump, line 116 *)

(** A step taken for the scheduled job [j], whose task was given
    [timeout] as its parameter. *)
Definition run_step (w : World) (j : gocron.Job) (timeout : Z)
    (s : sched_step) : M unit :=
  match s with
  | BeforeLogs => beforeTcpdump_logs w (gocron.ID j) (gocron.Name j)
  | BeforeStores => beforeTcpdump_stores w
  | TaskRuns sched => tcpdump w sched timeout;; ret tt
  | AfterLogsComplete =>
      afterTcpdump_logs_complete w (gocron.ID j) (gocron.Name j)
  | AfterLogsNext => afterTcpdump_logs_next w (gocron.ID j) (gocron.Name j)
  | AfterStores => afterTcpdump_stores
  end.

(** Steps taken by the goroutines of the scheduler between two
    statements of another goroutine, in any order and number. A step
    that waits (a task whose [start] has not returned) holds nothing
    else up; a panic ends the process. *)
Fixpoint scheduler_runs (w : World) (j : gocron.Job) (timeout : Z)
    (steps : list sched_step) : M unit :=
  match steps with
  | [] => ret tt
  | s :: steps' =>
      fun st =>
        match run_step w j timeout s st with
        | Ok _ st' | Blocked st' => scheduler_runs w j timeout steps' st'
        | Exit code st' => Exit code st'
        | Panic st' => Panic st'
        end
  end.

(** What the scheduler does over a whole run: the steps it takes before
    each of the statements that follow [s.Start()] in [main]. *)
Definition activity : Type := list (list sched_step).

Definition during (acts : activity) (i : nat) : list sched_step :=
  nth i acts [].

(* ===================================================================== *)
(** * [createTasks]: the task factory *)
(* ===================================================================== *)

Definition newPcapConfig (iface format output extension filter : string)
    (snaplen interval : Z) : pcap.PcapConfig :=
  {| pcap.Promisc := true;
     pcap.Iface := iface;
     pcap.Snaplen := snaplen;
     pcap.TsType := EmptyString;
     pcap.Format := format;
     pcap.Output := output;
     pcap.Extension := extension;
     pcap.Filter := filter;
     pcap.Interval := interval;
     pcap.Ordered := false |}.

(** The source text of the interface expression,
    [fmt.Sprintf("^(?:ipvlan-)?%s\\d+.*", ifacePattern)]. *)
Definition ifaceRegexp_source (pattern : string) : string :=
  "^(?:ipvlan-)?" +:+ pattern +:+ "\d+.*".

(** Modelled from the spec: [pcap.FindDevicesByRegex] of the pcap-cli
    library, which is not part of these sources: given a compiled name
    matcher, it returns the matching interface names of the host. Its
    error is dropped by the caller, which is then left without devices. *)
Definition FindDevicesByRegex (w : World) (exp : Regexp.Regexp) : list string :=
  match FindAllDevs w with
  | inl names => List.filter (Regexp.MatchString exp) names
  | inr _ => []
  end.

(** The device selector: lines 190 and 191 of [main.go]. *)
Definition selectDevices (w : World) : M (list string) :=
  match Regexp.MustCompile (regexp_Compile w)
          (ifaceRegexp_source (ifacePattern w)) with
  | None => panic
  | Some ifaceRegexp => ret (FindDevicesByRegex w ifaceRegexp)
  end.

Definition is_nil_error (e : option error) : bool :=
  match e with None => true | Some _ => false end.

(** The body of the loop over the devices; a [continue] of the source is
    a return of the tasks collected so far. *)
Definition createTasks_iface (w : World) (directory extension filter : string)
    (snaplen interval : Z) (tcpdump jsondump jsonlog ordered : bool)
    (tasks : list pcapTask) (iface : string) : M (list pcapTask) :=
  match InterfaceByName w iface with
  | inr err =>
      jlog w ERROR emptyTcpdumpJob
        ("invalid iface: " +:+ iface +:+ " (" +:+ err +:+ ")");;
      ret tasks
  | inl netIface =>
      let iface := net.Name netIface in
      let ifaceAndIndex := fmt_d (net.Index netIface) +:+ "/" +:+ iface in
      jlog w INFO emptyTcpdumpJob
        ("configuring PCAP for iface: " +:+ ifaceAndIndex);;
      let output := directory +:+ "/part__" +:+ fmt_d (net.Index netIface)
                    +:+ "_" +:+ net.Name netIface +:+ "__%Y%m%d_%H%M%S" in
      let tcpdumpCfg :=
        newPcapConfig iface "pcap" output extension filter snaplen interval in
      let jsondumpCfg :=
        newPcapConfig iface "json" output "json" filter snaplen interval in
      let engineErr :=
        if tcpdump then NewTcpdump w tcpdumpCfg else Some "disabled" in
      tasks ← match engineErr with
              | None =>
                  let tasks := tasks ++ [{| engine := pcap.Tcpdump tcpdumpCfg;
                                            writers := [] |}] in
                  jlog w INFO emptyTcpdumpJob
                    ("configured 'tcpdump' for iface: " +:+ ifaceAndIndex);;
                  ret tasks
              | Some err =>
                  jlog w ERROR emptyTcpdumpJob
                    ("tcpdump task creation failed: " +:+ ifaceAndIndex
                     +:+ " (" +:+ err +:+ ")");;
                  ret tasks
              end;
      (* skip JSON setup if no form of JSON support is enabled *)
      if negb jsondump || negb jsonlog then ret tasks
      else
        let jsondumpCfg := pcap.set_Ordered jsondumpCfg ordered in
        match NewPcap w jsondumpCfg with
        | Some err =>
            jlog w ERROR emptyTcpdumpJob
              ("jsondump task creation failed: " +:+ ifaceAndIndex
               +:+ " (" +:+ err +:+ ")");;
            ret tasks
        | None =>
            let jsondumpEngine := pcap.Pcap jsondumpCfg in
            let pcapWriters : list pcap.PcapWriter := [] in
            let '(jsondumpWriter, writerErr) :=
              if jsondump
              then match NewPcapWriter w output (pcap.Extension jsondumpCfg)
                           interval with
                   | None =>
                       (pcap.FileWriter output (pcap.Extension jsondumpCfg)
                          interval, None)
                   | Some err => (pcap.NilWriter, Some err)
                   end
              else (pcap.NilWriter, None) in
            pcapWriters ← match writerErr with
                          | Some err =>
                              jlog w ERROR emptyTcpdumpJob
                                ("jsondump file writer creation failed: "
                                 +:+ ifaceAndIndex +:+ " (" +:+ err +:+ ")");;
                              ret pcapWriters
                          | None => ret (pcapWriters ++ [jsondumpWriter])
                          end;
            if negb jsonlog && is_nil_error writerErr
            then ret (tasks ++ [{| engine := jsondumpEngine;
                                   writers := pcapWriters |}])
            else
              (* add /dev/stdout as an additional PCAP writer *)
              match NewStdoutPcapWriter w iface with
              | Some err =>
                  jlog w ERROR emptyTcpdumpJob
                    ("jsondump stdout writer creation failed: "
                     +:+ ifaceAndIndex +:+ " (" +:+ err +:+ ")");;
                  ret tasks
              | None =>
                  let pcapWriters := pcapWriters ++ [pcap.StdoutWriter] in
                  jlog w INFO emptyTcpdumpJob
                    ("configured 'jsondump' for iface: " +:+ ifaceAndIndex);;
                  ret (tasks ++ [{| engine := jsondumpEngine;
                                    writers := pcapWriters |}])
              end
        end
  end.

(** The loop over a list of devices, from the tasks collected so far. *)
Fixpoint createTasks_loop (w : World) (directory extension filter : string)
    (snaplen interval : Z) (tcpdump jsondump jsonlog ordered : bool)
    (tasks : list pcapTask) (devices : list string) : M (list pcapTask) :=
  match devices with
  | [] => ret tasks
  | iface :: devices' =>
      tasks ← createTasks_iface w directory extension filter snaplen interval
                tcpdump jsondump jsonlog ordered tasks iface;
      createTasks_loop w directory extension filter snaplen interval
        tcpdump jsondump jsonlog ordered tasks devices'
  end.

(** The [timezone] parameter of the source is the pointer to the flag's
    cell, which is part of the state here. *)
Definition createTasks (w : World) (directory extension filter : string)
    (snaplen interval : Z) (tcpdump jsondump jsonlog ordered : bool)
    : M (list pcapTask) :=
  devices ← selectDevices w;
  createTasks_loop w directory extension filter snaplen interval
    tcpdump jsondump jsonlog ordered [] devices.

(* ===================================================================== *)
(** * [main]: the lifecycle controller *)
(* ===================================================================== *)

Definition args_message (fl : flags.t) (tz : string) : string :=
  "args[use_cron:" +:+ fmt_t (flags.use_cron fl)
  +:+ "|cron_exp:" +:+ flags.cron_exp fl
  +:+ "|timezone:" +:+ tz
  +:+ "|timeout:" +:+ fmt_d (flags.duration fl)
  +:+ "|extension:" +:+ flags.extension fl
  +:+ "|directory:" +:+ flags.directory fl
  +:+ "|snaplen:" +:+ fmt_d (flags.snaplen fl)
  +:+ "|filter:" +:+ flags.filter fl
  +:+ "|interval:" +:+ fmt_d (flags.interval fl)
  +:+ "|tcpdump:" +:+ fmt_t (flags.tcp_dump fl)
  +:+ "|jsondump:" +:+ fmt_t (flags.json_dump fl)
  +:+ "|jsonlog:" +:+ fmt_t (flags.json_log fl)
  +:+ "|ordered:" +:+ fmt_t (flags.ordered fl) +:+ "]".

Definition scheduler_options (w : World) (location : time.Location)
    : gocron.SchedulerOptions :=
  {| gocron.WithLimitConcurrentJobs := Some (1%Z, gocron.LimitModeReschedule);
     gocron.WithLocation := location;
     gocron.WithGlobalTags :=
       [Getenv w "PROJECT_ID"; Getenv w "APP_SERVICE"; Getenv w "GCP_REGION";
        Getenv w "APP_REVISION"; Getenv w "INSTANCE_ID"] |}.

Definition job_definition (tz cron_exp : string) (timeout : Z)
    : gocron.JobDefinition :=
  {| gocron.CronJob := ("TZ=" +:+ tz +:+ " " +:+ cron_exp, true);
     gocron.TaskParameter := timeout;
     gocron.WithName := "tcpdump";
     gocron.WithSingletonMode := Some gocron.LimitModeReschedule |}.

(** The state of the process when [main] is entered. *)
Definition initial_state (fl : flags.t) : State :=
  {| jid := uuid.Nil; xid := uuid.Nil; jobs := ∅;
     timezone := flags.timezone fl; stdout := []; calls := []; entropy := 0 |}.

(** [main] from [s.Start()] on, where [job] has been registered for the
    scheduled job [j]. [acts] is what the scheduler does meanwhile: its
    steps come between the statements of [main] and of the goroutine
    that waits for the signal. *)
Definition main_scheduled (w : World) (j : gocron.Job) (job : tcpdumpJob)
    (timeout : Z) (acts : activity) : M unit :=
  call CallSchedulerStart;;
  scheduler_runs w j timeout (during acts 0);;
  jlog w INFO job ("next execution: " +:+ NextRun w j);;
  scheduler_runs w j timeout (during acts 1);;
  (* Block main goroutine until the scope is cancelled. *)
  match signal w with
  | None => block
  | Some sig =>
      jlog w INFO job ("signaled: " +:+ sig);;
      scheduler_runs w j timeout (during acts 2);;
      call CallCancel;;
      scheduler_runs w j timeout (during acts 3);;
      call CallStopJobs;;
      scheduler_runs w j timeout (during acts 4);;
      call (CallRemoveJob (gocron.ID j));;
      scheduler_runs w j timeout (during acts 5);;
      call CallShutdown
  end.

(** [sched] is what happens while the unscheduled [start] runs: no
    signal handler is installed on that path and [cancel] is deferred to
    the return of [main], so that nothing ends the scope but its
    deadline. [acts] is what the scheduler does once it is started. *)
Definition main (w : World) (fl : flags.t) (sched : list label)
    (acts : activity) : M unit :=
  modify (set_jid uuid.Nil);;
  modify (set_xid uuid.Nil);;
  tz ← get timezone;
  jlog w INFO emptyTcpdumpJob (args_message fl tz);;
  tasks ← createTasks w (flags.directory fl) (flags.extension fl)
            (flags.filter fl) (flags.snaplen fl) (flags.interval fl)
            (flags.tcp_dump fl) (flags.json_dump fl) (flags.json_log fl)
            (flags.ordered fl);
  if (length tasks =? 0)%nat then
    jlog w ERROR emptyTcpdumpJob "no PCAP tasks available";;
    os_Exit 1
  else
    let timeout := time.wrap64 (flags.duration fl * time.Second) in
    jlog w INFO emptyTcpdumpJob
      ("parsed timeout: " +:+ Duration_String w timeout);;
    let ctx := WithCancel Background in
    if negb (flags.use_cron fl) then
      (* Skip scheduling, execute tcpdump *)
      start (uncancelled sched) ctx timeout tasks;;
      ret tt
    else
      tz ← get timezone;
      location ← match LoadLocation w tz with
                 | inl location => ret location
                 | inr err =>
                     modify (set_timezone "UTC");;
                     tz ← get timezone;
                     jlog w ERROR emptyTcpdumpJob
                       ("could not load timezone '" +:+ tz +:+ "': " +:+ err);;
                     ret time.UTC
                 end;
      jlog w INFO emptyTcpdumpJob
        ("parsed timezone: " +:+ time.LocationName location);;
      call (CallNewScheduler (scheduler_options w location));;
      match NewScheduler w (scheduler_options w location) with
      | Some err =>
          jlog w ERROR emptyTcpdumpJob
            ("failed to create scheduler: " +:+ err);;
          os_Exit 2
      | None =>
          tz ← get timezone;
          let def := job_definition tz (flags.cron_exp fl) timeout in
          call (CallNewJob def);;
          match NewJob w def with
          | inr err =>
              jlog w ERROR emptyTcpdumpJob
                ("failed to create scheduled job: " +:+ err);;
              call CallShutdown;;
              os_Exit 3
          | inl j =>
              modify (set_jid (gocron.ID j));;
              let job := {| job_j := Some j; Xid := EmptyString;
                            Jid := uuid.String (gocron.ID j);
                            Name := gocron.Name j; Tags := gocron.Tags j;
                            job_tasks := tasks; job_ctx := ctx |} in
              modify (fun s => set_jobs (<[gocron.ID j := job]> (jobs s)) s);;
              jlog w INFO job "scheduled job";;
              main_scheduled w j job timeout acts
          end
      end.

(* ===================================================================== *)
(** * The documented form of a selected interface name *)
(* ===================================================================== *)

(** A pattern that is valid UTF-8 and holds no character that means
    something in an expression, nor U+FFFD, which in an expression also
    matches every invalid byte of a text. *)
Definition literal_token (t : Regexp.token) : bool :=
  match t with
  | Regexp.TChar c => negb (Regexp.is_meta c)
  | Regexp.TRune r => negb (r =? utf8.RuneError)%N
  | Regexp.TInvalid => false
  end.

Definition literal_pattern (pattern : string) : bool :=
  forallb literal_token (Regexp.tokens pattern).

Fixpoint strip_prefix (p s : list ascii) : option (list ascii) :=
  match p with
  | [] => Some s
  | a :: p' =>
      match s with
      | [] => None
      | c :: s' => if Ascii.eqb a c then strip_prefix p' s' else None
      end
  end.

(** The text starts with the pattern, followed by a digit. *)
Definition pattern_then_digit (p s : list ascii) : bool :=
  match strip_prefix p s with
  | Some (d :: _) => Regexp.is_digit d
  | _ => false
  end.

(** The form the specification documents, byte for byte: an optional
    [ipvlan-] prefix, the pattern itself, then a digit. *)
Definition documented_form (pattern name : string) : bool :=
  let p := list_ascii_of_string pattern in
  let s := list_ascii_of_string name in
  pattern_then_digit p s ||
  match strip_prefix (list_ascii_of_string "ipvlan-") s with
  | Some rest => pattern_then_digit p rest
  | None => false
  end.

(** The rune that a token of a literal pattern stands for. *)
Definition token_rune (t : Regexp.token) : utf8.rune :=
  match t with
  | Regexp.TChar c => utf8.byte c
  | Regexp.TRune r => r
  | Regexp.TInvalid => utf8.RuneError
  end.

(** The bytes [ch] are the encoding of the rune [r]. *)
Definition encodes (ch : list ascii) (r : utf8.rune) : Prop :=
  match ch with
  | [c0] => (utf8.byte c0 < 128 /\ r = utf8.byte c0)%N
  | [c0; c1] =>
      (194 <= utf8.byte c0 < 224 /\ 128 <= utf8.byte c1 <= 191 /\
       r = (utf8.byte c0 - 192) * 64 + (utf8.byte c1 - 128))%N
  | [c0; c1; c2] =>
      (224 <= utf8.byte c0 < 240 /\
       (utf8.byte c0 = 224 -> 160 <= utf8.byte c1) /\
       (utf8.byte c0 = 237 -> utf8.byte c1 <= 159) /\
       128 <= utf8.byte c1 <= 191 /\ 128 <= utf8.byte c2 <= 191 /\
       r = (utf8.byte c0 - 224) * 4096 + (utf8.byte c1 - 128) * 64
           + (utf8.byte c2 - 128))%N
  | [c0; c1; c2; c3] =>
      (240 <= utf8.byte c0 <= 244 /\
       (utf8.byte c0 = 240 -> 144 <= utf8.byte c1) /\
       (utf8.byte c0 = 244 -> utf8.byte c1 <= 143) /\
       128 <= utf8.byte c1 <= 191 /\ 128 <= utf8.byte c2 <= 191 /\
       128 <= utf8.byte c3 <= 191 /\
       r = (utf8.byte c0 - 240) * 262144 + (utf8.byte c1 - 128) * 4096
           + (utf8.byte c2 - 128) * 64 + (utf8.byte c3 - 128))%N
  | _ => False
  end.

(** The expression that the source text compiles to for a literal pattern. *)
Definition ifaceRegexp_literal (pattern : string) : Regexp.regex :=
  Regexp.mk_concat
    ([Regexp.BeginText;
      Regexp.Quest
        (Regexp.mk_concat (map Regexp.Literal (utf8.runes "ipvlan-")))]
     ++ map Regexp.Literal (utf8.runes pattern)
     ++ [Regexp.Plus Regexp.DigitClass; Regexp.Star Regexp.AnyCharNotNL]).

(** The interface names of the host, as the enumeration reports them. *)
Definition host_interfaces (w : World) : list string :=
  match FindAllDevs w with
  | inl names => names
  | inr _ => []
  end.

(* ===================================================================== *)
(** * Sample worlds, used to run the program on concrete inputs *)
(* ===================================================================== *)

(** A host whose enumeration reports [hosts], on which the interfaces in
    [vanished] cannot be resolved by name, where every constructor
    succeeds and only the zone [UTC] is known. The interface pattern is
    [pattern]; an expression outside the modelled syntax compiles and
    matches no name. *)
Definition sample_world (pattern : string) (hosts vanished : list string)
    : World :=
  {| Getenv := fun k => if String.eqb k "PCAP_IFACE" then pattern else EmptyString;
     regexp_Compile := fun _ => Some (fun _ => false);
     FindAllDevs := inl hosts;
     InterfaceByName := fun name =>
       if existsb (String.eqb name) vanished
       then inr "no such network interface"
       else inl {| net.Index := Z.of_nat (String.length name);
                   net.Name := name |};
     NewTcpdump := fun _ => None;
     NewPcap := fun _ => None;
     NewPcapWriter := fun _ _ _ => None;
     NewStdoutPcapWriter := fun _ => None;
     LoadLocation := fun tz =>
       if String.eqb tz "UTC" then inl time.UTC
       else inr ("unknown time zone " +:+ tz);
     NewScheduler := fun _ => None;
     NewJob := fun _ =>
       inl {| gocron.ID := 77%N; gocron.Name := "tcpdump";
              gocron.Tags := ["project"] |};
     NextRun := fun _ => "2026-01-01 00:01:00 +0000 UTC";
     LastRun := fun _ => "0001-01-01 00:00:00 +0000 UTC";
     Duration_String := fun z => fmt_d z +:+ "ns";
     uuid_New := fun n => N.of_nat (1000 + n);
     signal := Some "terminated" |}.

Definition sample_flags (use_cron : bool) (timezone : string)
    (tcp_dump json_dump json_log : bool) : flags.t :=
  {| flags.use_cron := use_cron; flags.cron_exp := "* * * * *";
     flags.timezone := timezone; flags.duration := 0; flags.interval := 60;
     flags.snaplen := 0; flags.filter := EmptyString; flags.extension := "pcap";
     flags.directory := "/pcap"; flags.tcp_dump := tcp_dump;
     flags.json_dump := json_dump; flags.json_log := json_log;
     flags.ordered := false |}.

Definition sample_task : pcapTask :=
  {| engine := pcap.Tcpdump
       (newPcapConfig "eth0" "pcap" "/pcap/part__4_eth0__%Y%m%d_%H%M%S"
          "pcap" EmptyString 0 60);
     writers := [] |}.

(* ===================================================================== *)
(** * One interface on its own *)
(* ===================================================================== *)

(** A state with nothing printed yet, in which the current execution
    identity is [x]. *)
Definition blank_state (x : uuid.UUID) : State :=
  {| jid := uuid.Nil; xid := x; jobs := ∅; timezone := EmptyString; stdout := [];
     calls := []; entropy := 0 |}.

(** The loop body run for [iface] alone, with no task collected before. *)
Definition iface_alone (w : World) (directory extension filter : string)
    (snaplen interval : Z) (tcpdump jsondump jsonlog ordered : bool)
    (x : uuid.UUID) (iface : string) : Res (list pcapTask) :=
  createTasks_iface w directory extension filter snaplen interval
    tcpdump jsondump jsonlog ordered [] iface (blank_state x).

(** The tasks it builds and the entries it prints. *)
Definition iface_tasks (w : World) (directory extension filter : string)
    (snaplen interval : Z) (tcpdump jsondump jsonlog ordered : bool)
    (iface : string) : list pcapTask :=
  match iface_alone w directory extension filter snaplen interval
          tcpdump jsondump jsonlog ordered uuid.Nil iface with
  | Ok tasks _ => tasks
  | _ => []
  end.

Definition iface_entries (w : World) (directory extension filter : string)
    (snaplen interval : Z) (tcpdump jsondump jsonlog ordered : bool)
    (x : uuid.UUID) (iface : string) : list jLogEntry :=
  stdout (final_state
    (iface_alone w directory extension filter snaplen interval
       tcpdump jsondump jsonlog ordered x iface)).

Definition is_error_entry (e : jLogEntry) : bool :=
  match Severity e with ERROR => true | _ => false end.

(** The failures met while configuring one interface, each as the message
    it is to be reported with, in the order of detection: the interface
    cannot be resolved; or else the raw engine cannot be built (or is
    disabled), and, when decoded capture is set up, its engine, its file
    sink or its console sink cannot be built. *)
Definition detected_failures (w : World) (directory extension filter : string)
    (snaplen interval : Z) (tcpdump jsondump jsonlog ordered : bool)
    (iface : string) : list string :=
  match InterfaceByName w iface with
  | inr err => ["invalid iface: " +:+ iface +:+ " (" +:+ err +:+ ")"]
  | inl netIface =>
      let name := net.Name netIface in
      let id := fmt_d (net.Index netIface) +:+ "/" +:+ name in
      let output := directory +:+ "/part__" +:+ fmt_d (net.Index netIface)
                    +:+ "_" +:+ name +:+ "__%Y%m%d_%H%M%S" in
      let raw :=
        if tcpdump
        then NewTcpdump w (newPcapConfig name "pcap" output extension filter
                             snaplen interval)
        else Some "disabled" in
      match raw with
      | Some err =>
          ["tcpdump task creation failed: " +:+ id +:+ " (" +:+ err +:+ ")"]
      | None => []
      end ++
      if jsondump && jsonlog then
        match NewPcap w (pcap.set_Ordered
                 (newPcapConfig name "json" output "json" filter
                    snaplen interval) ordered) with
        | Some err =>
            ["jsondump task creation failed: " +:+ id +:+ " (" +:+ err +:+ ")"]
        | None =>
            match NewPcapWriter w output "json" interval with
            | Some err =>
                ["jsondump file writer creation failed: " +:+ id
                 +:+ " (" +:+ err +:+ ")"]
            | None => []
            end ++
            match NewStdoutPcapWriter w name with
            | Some err =>
                ["jsondump stdout writer creation failed: " +:+ id
                 +:+ " (" +:+ err +:+ ")"]
            | None => []
            end
        end
      else []
  end.

(** The capture configuration of a task has promiscuous mode on and no
    timestamp type. *)
Definition promiscuous_untyped (t : pcapTask) : bool :=
  match pcap.engine_config (engine t) with
  | Some cfg => pcap.Promisc cfg && String.eqb (pcap.TsType cfg) EmptyString
  | None => false
  end.

Definition is_decoded_task (t : pcapTask) : bool :=
  match engine t with pcap.Pcap _ => true | _ => false end.

(* ===================================================================== *)
(** * Notions used to state the properties of [jlog], [tcpdump] and [main] *)
(* ===================================================================== *)

(** The entry that [jlog] prints for [job] when the current execution
    identity is [x]. *)
Definition log_entry (w : World) (severity : jLogLevel) (job : tcpdumpJob)
    (x : uuid.UUID) (message : string) : jLogEntry :=
  {| Severity := severity; Message := message; Sidecar := sidecar w;
     LogModule := module w; Job := with_Xid job (uuid.String x);
     LogTags := Tags job |}.

(** An entry carries the identity, name and tags of [job] and the
    execution identity [x]. *)
Definition stamped (job : tcpdumpJob) (x : uuid.UUID) (e : jLogEntry) : Prop :=
  Jid (Job e) = Jid job /\ Name (Job e) = Name job /\
  LogTags e = Tags job /\ Xid (Job e) = uuid.String x.

Definition nil_uuid_string : string := "00000000-0000-0000-0000-000000000000".

Definition is_no_tasks_entry (e : jLogEntry) : bool :=
  is_error_entry e && String.eqb (Message e) "no PCAP tasks available".

(** The tasks that [createTasks] builds for the flags of the command
    line; [None] when the interface expression does not compile. *)
Definition built_tasks (w : World) (fl : flags.t) : option (list pcapTask) :=
  match createTasks w (flags.directory fl) (flags.extension fl)
          (flags.filter fl) (flags.snaplen fl) (flags.interval fl)
          (flags.tcp_dump fl) (flags.json_dump fl) (flags.json_log fl)
          (flags.ordered fl) (blank_state uuid.Nil) with
  | Ok tasks _ => Some tasks
  | _ => None
  end.

(** The time zone and location in force once the configured zone has
    been looked up. *)
Definition effective_timezone (w : World) (fl : flags.t) : string :=
  match LoadLocation w (flags.timezone fl) with
  | inl _ => flags.timezone fl
  | inr _ => "UTC"
  end.

Definition effective_location (w : World) (fl : flags.t) : time.Location :=
  match LoadLocation w (flags.timezone fl) with
  | inl location => location
  | inr _ => time.UTC
  end.

Definition main_timeout (fl : flags.t) : Z :=
  time.wrap64 (flags.duration fl * time.Second).

(** The deadline derived for a positive timeout has passed. *)
Definition deadline_passed (timeout : Z) (sched : list label) : bool :=
  (0 <? timeout)%Z && (timeout <=? elapsed sched)%Z.

(** An execution identity that is nil or one of the first [n] that
    [beforeTcpdump] has drawn. *)
Definition identity_drawn (w : World) (n : nat) (x : uuid.UUID) : Prop :=
  x = uuid.Nil \/ exists k, (k < n)%nat /\ x = uuid_New w k.

(** [st'] comes from [st] by statements of [main] and steps of the
    scheduler, for the registered job [job]: they make the calls [cs],
    they print entries for [job], each with an execution identity that
    is nil or has been drawn, they draw identities and they move the
    current one; nothing else changes. *)
Record progressed (w : World) (job : tcpdumpJob) (cs : list Call)
    (st st' : State) : Prop := {
  pr_jid : jid st' = jid st;
  pr_jobs : jobs st' = jobs st;
  pr_timezone : timezone st' = timezone st;
  pr_calls : calls st' = calls st ++ cs;
  pr_entropy : (entropy st <= entropy st')%nat;
  pr_xid : identity_drawn w (entropy st') (xid st');
  pr_stdout :
    exists printed,
      stdout st' = stdout st ++ printed /\
      Forall (fun e => exists x, identity_drawn w (entropy st') x /\
                                 stamped job x e) printed
}.

(** The job that the scheduler runs is [job], registered under the
    current job identity, and the current execution identity is nil or
    has been drawn. *)
Definition registered_in (w : World) (j : gocron.Job) (job : tcpdumpJob)
    (st : State) : Prop :=
  jid st = gocron.ID j /\ jobs st !! gocron.ID j = Some job /\
  identity_drawn w (entropy st) (xid st).

(* ===================================================================== *)
(** * Notions used to reason about a run of [start] *)
(* ===================================================================== *)

Definition count_running (l : list bool) : nat := length (List.filter id l).

(** What a schedule has made of the state that [start] begins in. *)
Record tracks (timeout : Z) (n : nat) (sched : list label) (st : StartState)
    : Prop := {
  tr_timeout : s_timeout st = timeout;
  tr_base : s_base_done st = existsb is_cancel sched;
  tr_elapsed : s_elapsed st = elapsed sched;
  tr_running :
    s_running st = map (fun i => negb (existsb (is_return i) sched)) (seq 0 n);
  tr_wg : s_wg st = Z.of_nat (count_running (s_running st));
  tr_pc : match s_pc st with
          | AwaitDone => True
          | AwaitWg => ctx_done st = true
          | Returned => ctx_done st = true /\ s_wg st = 0%Z
          end
}.

(** Where the goroutine of [start] is after its next move. *)
Definition main_pc (st : StartState) : pc :=
  match s_pc st with
  | AwaitDone => if ctx_done st then AwaitWg else AwaitDone
  | AwaitWg => if (s_wg st =? 0)%Z then Returned else AwaitWg
  | Returned => Returned
  end.

(* ===================================================================== *)
(** * Notions used to describe a whole run of [main] *)
(* ===================================================================== *)

(** A state in which no execution is current and no random identifier
    has been drawn, as [main] itself leaves it. *)
Definition main_state (j : uuid.UUID) (registry : gmap N tcpdumpJob)
    (tz : string) (out : list jLogEntry) (cs : list Call) : State :=
  {| jid := j; xid := uuid.Nil; jobs := registry; timezone := tz;
     stdout := out; calls := cs; entropy := 0 |}.

(** An entry printed for the placeholder job while no execution runs. *)
Definition placeholder_entry (w : World) (severity : jLogLevel)
    (message : string) : jLogEntry :=
  log_entry w severity emptyTcpdumpJob uuid.Nil message.

(** The devices that [createTasks] goes through; [None] when the
    interface expression does not compile. *)
Definition main_devices (w : World) : option (list string) :=
  match Regexp.MustCompile (regexp_Compile w)
          (ifaceRegexp_source (ifacePattern w)) with
  | Some re => Some (FindDevicesByRegex w re)
  | None => None
  end.

(** The tasks built and the entries printed for a list of devices, with
    the flags of the command line. *)
Definition devices_tasks (w : World) (fl : flags.t) (devices : list string)
    : list pcapTask :=
  flat_map (iface_tasks w (flags.directory fl) (flags.extension fl)
              (flags.filter fl) (flags.snaplen fl) (flags.interval fl)
              (flags.tcp_dump fl) (flags.json_dump fl) (flags.json_log fl)
              (flags.ordered fl)) devices.

Definition devices_entries (w : World) (fl : flags.t) (devices : list string)
    : list jLogEntry :=
  flat_map (iface_entries w (flags.directory fl) (flags.extension fl)
              (flags.filter fl) (flags.snaplen fl) (flags.interval fl)
              (flags.tcp_dump fl) (flags.json_dump fl) (flags.json_log fl)
              (flags.ordered fl) uuid.Nil) devices.

(** What [main] has printed when [createTasks] has returned. *)
Definition prologue (w : World) (fl : flags.t) (devices : list string)
    : list jLogEntry :=
  [placeholder_entry w INFO (args_message fl (flags.timezone fl))] ++
  devices_entries w fl devices.

(** The job that [main] puts in the registry for the scheduled job [j]. *)
Definition registered_job (j : gocron.Job) (tasks : list pcapTask)
    : tcpdumpJob :=
  {| job_j := Some j; Xid := EmptyString; Jid := uuid.String (gocron.ID j);
     Name := gocron.Name j; Tags := gocron.Tags j; job_tasks := tasks;
     job_ctx := WithCancel Background |}.

(** What [main] prints between [createTasks] and the creation of the
    scheduler. *)
Definition timezone_entries (w : World) (fl : flags.t) : list jLogEntry :=
  match LoadLocation w (flags.timezone fl) with
  | inl _ => []
  | inr err =>
      [placeholder_entry w ERROR
         ("could not load timezone 'UTC': " +:+ err)]
  end ++
  [placeholder_entry w INFO
     ("parsed timezone: " +:+ time.LocationName (effective_location w fl))].

(** The whole run of [main], outcome and final state, by cases; from
    [s.Start()] on it is that of [main_scheduled]. *)
Definition main_outcome (w : World) (fl : flags.t) (sched : list label)
    (acts : activity) : Res unit :=
  let tz0 := flags.timezone fl in
  match main_devices w with
  | None =>
      Panic (main_state uuid.Nil ∅ tz0
               [placeholder_entry w INFO (args_message fl tz0)] [])
  | Some devices =>
      let tasks := devices_tasks w fl devices in
      let out1 := prologue w fl devices in
      match tasks with
      | [] =>
          Exit 1 (main_state uuid.Nil ∅ tz0
                    (out1 ++ [placeholder_entry w ERROR
                                "no PCAP tasks available"]) [])
      | _ :: _ =>
          let out2 := out1 ++
            [placeholder_entry w INFO
               ("parsed timeout: " +:+ Duration_String w (main_timeout fl))] in
          if flags.use_cron fl then
            let tz := effective_timezone w fl in
            let out3 := out2 ++ timezone_entries w fl in
            let opts := scheduler_options w (effective_location w fl) in
            let def := job_definition tz (flags.cron_exp fl) (main_timeout fl) in
            match NewScheduler w opts with
            | Some err =>
                Exit 2 (main_state uuid.Nil ∅ tz
                          (out3 ++ [placeholder_entry w ERROR
                                      ("failed to create scheduler: " +:+ err)])
                          [CallNewScheduler opts])
            | None =>
                match NewJob w def with
                | inr err =>
                    Exit 3 (main_state uuid.Nil ∅ tz
                              (out3 ++
                               [placeholder_entry w ERROR
                                  ("failed to create scheduled job: " +:+ err)])
                              [CallNewScheduler opts; CallNewJob def;
                               CallShutdown])
                | inl j =>
                    let job := registered_job j tasks in
                    let registry : gmap N tcpdumpJob := {[gocron.ID j := job]} in
                    main_scheduled w j job (main_timeout fl) acts
                      (main_state (gocron.ID j) registry tz
                         (out3 ++ [log_entry w INFO job uuid.Nil "scheduled job"])
                         [CallNewScheduler opts; CallNewJob def])
                end
            end
          else
            if deadline_passed (main_timeout fl) sched &&
               all_returned (length tasks) sched
            then Ok tt (main_state uuid.Nil ∅ tz0 out2 [])
            else Blocked (main_state uuid.Nil ∅ tz0 out2 [])
      end
  end.

(** The world [w] with another result of the enumeration of the devices. *)
Definition with_FindAllDevs (devs : list string + error) (w : World) : World :=
  {| Getenv := Getenv w; regexp_Compile := regexp_Compile w;
     FindAllDevs := devs;
     InterfaceByName := InterfaceByName w; NewTcpdump := NewTcpdump w;
     NewPcap := NewPcap w; NewPcapWriter := NewPcapWriter w;
     NewStdoutPcapWriter := NewStdoutPcapWriter w;
     LoadLocation := LoadLocation w; NewScheduler := NewScheduler w;
     NewJob := NewJob w; NextRun := NextRun w; LastRun := LastRun w;
     Duration_String := Duration_String w; uuid_New := uuid_New w;
     signal := signal w |}.

(** The world [w] in which the signal is [sig]; with [None], none comes. *)
Definition with_signal (sig : option string) (w : World) : World :=
  {| Getenv := Getenv w; regexp_Compile := regexp_Compile w;
     FindAllDevs := FindAllDevs w;
     InterfaceByName := InterfaceByName w; NewTcpdump := NewTcpdump w;
     NewPcap := NewPcap w; NewPcapWriter := NewPcapWriter w;
     NewStdoutPcapWriter := NewStdoutPcapWriter w;
     LoadLocation := LoadLocation w; NewScheduler := NewScheduler w;
     NewJob := NewJob w; NextRun := NextRun w; LastRun := LastRun w;
     Duration_String := Duration_String w; uuid_New := uuid_New w;
     signal := sig |}.

(** The flags with another value of [-timeout]. *)
Definition with_duration (d : Z) (fl : flags.t) : flags.t :=
  {| flags.use_cron := flags.use_cron fl; flags.cron_exp := flags.cron_exp fl;
     flags.timezone := flags.timezone fl; flags.duration := d;
     flags.interval := flags.interval fl; flags.snaplen := flags.snaplen fl;
     flags.filter := flags.filter fl; flags.extension := flags.extension fl;
     flags.directory := flags.directory fl; flags.tcp_dump := flags.tcp_dump fl;
     flags.json_dump := flags.json_dump fl; flags.json_log := flags.json_log fl;
     flags.ordered := flags.ordered fl |}.

(** A call on the scheduler asks for what [main] is written to ask for:
    one job at a time, an overlapping trigger being rescheduled, in the
    location and time zone in force, under the name [tcpdump]. *)
Definition configured_as_written (w : World) (fl : flags.t) (c : Call) : Prop :=
  match c with
  | CallNewScheduler opts =>
      gocron.WithLimitConcurrentJobs opts =
        Some (1%Z, gocron.LimitModeReschedule) /\
      gocron.WithLocation opts = effective_location w fl
  | CallNewJob def =>
      gocron.CronJob def =
        ("TZ=" +:+ effective_timezone w fl +:+ " " +:+ flags.cron_exp fl, true) /\
      gocron.TaskParameter def = main_timeout fl /\
      gocron.WithName def = "tcpdump" /\
      gocron.WithSingletonMode def = Some gocron.LimitModeReschedule
  | _ => True
  end.

(** The calls that release the scheduler, in the order of the source. *)
Definition is_release (c : Call) : bool :=
  match c with
  | CallStopJobs | CallRemoveJob _ | CallShutdown => true
  | _ => false
  end.

(* ===================================================================== *)
(** * Notions used to describe the tasks that [createTasks] builds *)
(* ===================================================================== *)

(** The two kinds of task of the source: a raw task has the tcpdump
    engine and no sink; a decoded task has the JSON engine and the console
    sink, after the file sink when there is one. [raw] and [decoded] say
    whether each kind may occur. *)
Definition task_as_written (raw decoded : bool) (t : pcapTask) : bool :=
  match engine t, writers t with
  | pcap.Tcpdump _, [] => raw
  | pcap.Pcap _, [pcap.FileWriter _ _ _; pcap.StdoutWriter] => decoded
  | pcap.Pcap _, [pcap.StdoutWriter] => decoded
  | _, _ => false
  end.

(** The output template of the captures of an interface. *)
Definition output_template (directory : string) (index : Z) (name : string)
    : string :=
  directory +:+ "/part__" +:+ fmt_d index +:+ "_" +:+ name
  +:+ "__%Y%m%d_%H%M%S".

(** The tasks that the source builds for one interface, read off its
    branches: none when the interface cannot be resolved; the raw task
    when [tcpdump] is set and its engine could be built; the decoded task
    when [jsondump] and [jsonlog] are both set and its engine and the
    console sink could be built, with the file sink first when that one
    could be built. *)
Definition expected_tasks (w : World) (directory extension filter : string)
    (snaplen interval : Z) (tcpdump jsondump jsonlog ordered : bool)
    (iface : string) : list pcapTask :=
  match InterfaceByName w iface with
  | inr _ => []
  | inl netIface =>
      let name := net.Name netIface in
      let output := output_template directory (net.Index netIface) name in
      let raw :=
        newPcapConfig name "pcap" output extension filter snaplen interval in
      let decoded :=
        pcap.set_Ordered
          (newPcapConfig name "json" output "json" filter snaplen interval)
          ordered in
      (if tcpdump && is_nil_error (NewTcpdump w raw)
       then [{| engine := pcap.Tcpdump raw; writers := [] |}]
       else []) ++
      (if jsondump && jsonlog && is_nil_error (NewPcap w decoded)
          && is_nil_error (NewStdoutPcapWriter w name)
       then [{| engine := pcap.Pcap decoded;
                writers :=
                  (if is_nil_error (NewPcapWriter w output "json" interval)
                   then [pcap.FileWriter output "json" interval]
                   else []) ++ [pcap.StdoutWriter] |}]
       else [])
  end.

(** The settings of a task are those of the command line: filter,
    snapshot length and rotation interval as given; the raw engine with
    the format [pcap] and the given extension, the decoded engine with
    the format and extension [json] and the given ordering; a file sink
    on the output template of its engine, with the same interval. *)
Definition settings_as_given (extension filter : string)
    (snaplen interval : Z) (ordered : bool) (t : pcapTask) : Prop :=
  match pcap.engine_config (engine t) with
  | None => False
  | Some cfg =>
      pcap.Filter cfg = filter /\ pcap.Snaplen cfg = snaplen /\
      pcap.Interval cfg = interval /\
      match engine t with
      | pcap.Tcpdump _ =>
          pcap.Format cfg = "pcap" /\ pcap.Extension cfg = extension /\
          pcap.Ordered cfg = false
      | _ =>
          pcap.Format cfg = "json" /\ pcap.Extension cfg = "json" /\
          pcap.Ordered cfg = ordered
      end /\
      Forall (fun s => match s with
                       | pcap.FileWriter output ext' interval' =>
                           output = pcap.Output cfg /\ ext' = "json" /\
                           interval' = interval
                       | pcap.StdoutWriter => True
                       | pcap.NilWriter => False
                       end) (writers t)
  end.

(** The character that separates the index from the name in an output
    template. *)
Definition underscore : ascii := "_"%char.

(* ===================================================================== *)
(** * Facts about the decoding of texts *)
(* ===================================================================== *)

Module Utf8Facts.
Import utf8.

Lemma byte_bound c : (byte c < 256)%N.
Proof. apply N_ascii_bounded. Qed.

Lemma byte_inj a b : byte a = byte b -> a = b.
Proof.
  unfold byte. intros H.
  rewrite <- (ascii_N_embedding a), <- (ascii_N_embedding b), H. reflexivity.
Qed.

Ltac split_ifs :=
  repeat match goal with
         | |- context [if ?x then _ else _] => destruct x eqn:?
         | H : context [if ?x then _ else _] |- _ => destruct x eqn:?
         end.

Ltac to_arith :=
  unfold between in *;
  repeat match goal with
         | H : (_ && _) = true |- _ => apply andb_true_iff in H; destruct H
         | H : (_ || _) = false |- _ => apply orb_false_iff in H; destruct H
         | H : (_ <? _)%N = true |- _ => apply N.ltb_lt in H
         | H : (_ <? _)%N = false |- _ => apply N.ltb_ge in H
         | H : (_ <=? _)%N = true |- _ => apply N.leb_le in H
         | H : (_ <=? _)%N = false |- _ => apply N.leb_gt in H
         | H : (_ =? _)%N = true |- _ => apply N.eqb_eq in H
         | H : (_ =? _)%N = false |- _ => apply N.eqb_neq in H
         end.

Lemma DecodeRune_encodes s r n :
  s <> [] -> DecodeRune s = (r, n) -> is_invalid (r, n) = false ->
  encodes (firstn n s) r /\ (n <= length s)%nat.
Proof.
  intros Hs H Hv.
  destruct s as [|c0 [|c1 [|c2 [|c3 s]]]]; [congruence| | | |];
    cbn [DecodeRune] in H;
    split_ifs; inversion H; subst; clear H;
    try (cbv in Hv; discriminate Hv);
    cbn [firstn encodes length]; to_arith; (split; [|lia]);
    repeat split; try lia.
Qed.

Lemma encodes_DecodeRune ch r rest :
  encodes ch r -> DecodeRune (ch ++ rest) = (r, length ch).
Proof.
  intros H.
  destruct ch as [|c0 [|c1 [|c2 [|c3 [|c4 ch]]]]]; cbn [encodes] in H;
    try contradiction; cbn [app DecodeRune length].
  - destruct H as [H ->]. apply N.ltb_lt in H. rewrite H. reflexivity.
  - destruct H as (H0 & H1 & ->).
    replace (byte c0 <? 128)%N with false by (symmetry; apply N.ltb_ge; lia).
    replace (byte c0 <? 194)%N with false by (symmetry; apply N.ltb_ge; lia).
    replace (244 <? byte c0)%N with false by (symmetry; apply N.ltb_ge; lia).
    replace (byte c0 <? 224)%N with true by (symmetry; apply N.ltb_lt; lia).
    unfold between.
    replace (128 <=? byte c1)%N with true by (symmetry; apply N.leb_le; lia).
    replace (byte c1 <=? 191)%N with true by (symmetry; apply N.leb_le; lia).
    reflexivity.
  - destruct H as (H0 & Hlo & Hhi & H1 & H2 & ->).
    replace (byte c0 <? 128)%N with false by (symmetry; apply N.ltb_ge; lia).
    replace (byte c0 <? 194)%N with false by (symmetry; apply N.ltb_ge; lia).
    replace (244 <? byte c0)%N with false by (symmetry; apply N.ltb_ge; lia).
    replace (byte c0 <? 224)%N with false by (symmetry; apply N.ltb_ge; lia).
    replace (byte c0 <? 240)%N with true by (symmetry; apply N.ltb_lt; lia).
    unfold between.
    replace (128 <=? byte c2)%N with true by (symmetry; apply N.leb_le; lia).
    replace (byte c2 <=? 191)%N with true by (symmetry; apply N.leb_le; lia).
    destruct (N.eqb_spec (byte c0) 224) as [E|E];
      destruct (N.eqb_spec (byte c0) 237) as [E'|E'];
      (replace (_ <=? byte c1)%N with true by (symmetry; apply N.leb_le; lia));
      (replace (byte c1 <=? _)%N with true by (symmetry; apply N.leb_le; lia));
      reflexivity.
  - destruct H as (H0 & Hlo & Hhi & H1 & H2 & H3 & ->).
    replace (byte c0 <? 128)%N with false by (symmetry; apply N.ltb_ge; lia).
    replace (byte c0 <? 194)%N with false by (symmetry; apply N.ltb_ge; lia).
    replace (244 <? byte c0)%N with false by (symmetry; apply N.ltb_ge; lia).
    replace (byte c0 <? 224)%N with false by (symmetry; apply N.ltb_ge; lia).
    replace (byte c0 <? 240)%N with false by (symmetry; apply N.ltb_ge; lia).
    unfold between.
    replace (128 <=? byte c2)%N with true by (symmetry; apply N.leb_le; lia).
    replace (byte c2 <=? 191)%N with true by (symmetry; apply N.leb_le; lia).
    replace (128 <=? byte c3)%N with true by (symmetry; apply N.leb_le; lia).
    replace (byte c3 <=? 191)%N with true by (symmetry; apply N.leb_le; lia).
    destruct (N.eqb_spec (byte c0) 240) as [E|E];
      destruct (N.eqb_spec (byte c0) 244) as [E'|E'];
      (replace (_ <=? byte c1)%N with true by (symmetry; apply N.leb_le; lia));
      (replace (byte c1 <=? _)%N with true by (symmetry; apply N.leb_le; lia));
      reflexivity.
Qed.

Lemma encodes_length ch r : encodes ch r -> (1 <= length ch <= 4)%nat.
Proof.
  destruct ch as [|c0 [|c1 [|c2 [|c3 [|c4 ch]]]]]; cbn; intros H;
    try contradiction; lia.
Qed.

Lemma encodes_inj ch ch' r : encodes ch r -> encodes ch' r -> ch = ch'.
Proof.
  intros H H'.
  pose proof byte_bound as Hb.
  destruct ch as [|c0 [|c1 [|c2 [|c3 [|c4 ch]]]]]; cbn [encodes] in H;
    try contradiction;
    destruct ch' as [|d0 [|d1 [|d2 [|d3 [|d4 ch']]]]]; cbn [encodes] in H';
    try contradiction;
    repeat match goal with H : _ /\ _ |- _ => destruct H end; subst r;
    try (exfalso; lia);
    repeat (f_equal; try (apply byte_inj; lia)).
Qed.


Lemma DecodeRune_width s :
  s <> [] -> (1 <= snd (DecodeRune s) <= length s)%nat.
Proof.
  intros Hs.
  destruct s as [|c0 [|c1 [|c2 [|c3 s]]]]; [congruence| | | |];
    cbn [DecodeRune]; split_ifs; cbn; lia.
Qed.

Lemma decode_from_skip k : forall s, decode_from k s = decode (skipn k s).
Proof.
  induction k as [|k IH]; intros s; [reflexivity|].
  destruct s as [|c s]; [reflexivity|]. cbn [decode_from skipn]. apply IH.
Qed.

Lemma decode_unfold s :
  s <> [] ->
  decode s = DecodeRune s :: decode (skipn (snd (DecodeRune s)) s).
Proof.
  intros Hs. pose proof (DecodeRune_width s Hs) as Hw.
  destruct s as [|c s]; [congruence|].
  unfold decode at 1. cbn [decode_from]. rewrite decode_from_skip.
  f_equal. destruct (snd (DecodeRune (c :: s))) as [|n]; [lia|].
  cbn [skipn]. replace (S n - 1)%nat with n by lia. reflexivity.
Qed.

Lemma decode_nil : decode [] = [].
Proof. reflexivity. Qed.

(** Decoding a text that starts with the encoding of a rune. *)
Lemma decode_encodes ch r rest :
  encodes ch r -> decode (ch ++ rest) = (r, length ch) :: decode rest.
Proof.
  intros H. pose proof (encodes_length _ _ H) as Hl.
  rewrite decode_unfold by (destruct ch; [cbn in Hl; lia | discriminate]).
  rewrite (encodes_DecodeRune _ _ rest H). cbn [snd].
  rewrite skipn_app, skipn_all, Nat.sub_diag. reflexivity.
Qed.

(** A valid text is a sequence of encodings. *)
Lemma Valid_inv s :
  s <> [] -> Valid s = true ->
  exists ch r rest,
    s = ch ++ rest /\ encodes ch r /\ Valid rest = true /\
    (length rest < length s)%nat.
Proof.
  intros Hs Hv. unfold Valid in Hv. rewrite decode_unfold in Hv by assumption.
  cbn [forallb] in Hv. apply andb_true_iff in Hv as [Hd Hv].
  apply negb_true_iff in Hd.
  destruct (DecodeRune s) as [r n] eqn:E.
  destruct (DecodeRune_encodes s r n Hs E Hd) as [He Hn].
  pose proof (encodes_length _ _ He) as Hl.
  rewrite length_firstn in Hl.
  exists (firstn n s), r, (skipn n s).
  rewrite firstn_skipn. repeat split; try assumption.
  rewrite length_skipn. destruct s; [congruence | cbn in *; lia].
Qed.

Lemma decode_app a : forall b,
  Valid a = true -> decode (a ++ b) = decode a ++ decode b.
Proof.
  induction a as [a IH] using (induction_ltof1 _ (@length ascii)).
  intros b Hv. destruct a as [|c a']; [reflexivity|].
  destruct (Valid_inv (c :: a') ltac:(discriminate) Hv)
    as (ch & r & rest & E & He & Hr & Hlt).
  rewrite E, <- app_assoc, !(decode_encodes _ _ _ He).
  cbn [app]. f_equal. apply IH; [exact Hlt | exact Hr].
Qed.

Lemma Valid_app a b : Valid a = true -> Valid (a ++ b) = Valid b.
Proof.
  intros H. unfold Valid in *. rewrite decode_app by exact H.
  rewrite forallb_app, H. reflexivity.
Qed.

(** A text whose runes start with those of a valid text holding no
    U+FFFD starts with the bytes of that text. *)
Lemma runes_prefix_inv a : forall s rest,
  forallb (fun d => negb (fst d =? RuneError)%N) (decode a) = true ->
  map fst (decode s) = map fst (decode a) ++ rest ->
  exists s', s = a ++ s' /\ map fst (decode s') = rest.
Proof.
  induction a as [a IH] using (induction_ltof1 _ (@length ascii)).
  intros s rest Hv Hs. destruct a as [|c a'].
  - exists s. split; [reflexivity | exact Hs].
  - assert (Hva : Valid (c :: a') = true).
    { unfold Valid. apply List.forallb_forall. intros d Hin.
      rewrite List.forallb_forall in Hv. specialize (Hv d Hin).
      cbv beta in *. unfold is_invalid, rune in *.
      destruct (fst d =? RuneError)%N; [discriminate Hv | reflexivity]. }
    destruct (Valid_inv (c :: a') ltac:(discriminate) Hva)
      as (ch & r & a2 & E & He & Hr & Hlt).
    rewrite E in Hv, Hs. rewrite (decode_encodes _ _ _ He) in Hv, Hs.
    cbn [forallb map fst app] in Hv, Hs.
    apply andb_true_iff in Hv as [Hr' Hv]. apply negb_true_iff in Hr'.
    assert (Hne : s <> []) by (intros ->; discriminate Hs).
    rewrite (decode_unfold s Hne) in Hs. cbn [map] in Hs.
    destruct (DecodeRune s) as [r' n] eqn:Ed. cbn [fst snd] in Hs.
    inversion Hs as [[Hrr Hs']]. subst r'.
    assert (Hvd : is_invalid (r, n) = false).
    { unfold is_invalid. cbn [fst]. rewrite Hr'. reflexivity. }
    destruct (DecodeRune_encodes s r n Hne Ed Hvd) as [He' Hn].
    pose proof (encodes_inj _ _ _ He He') as Ech.
    assert (Hlen : n = length ch).
    { rewrite Ech, length_firstn. lia. }
    destruct (IH a2 Hlt (skipn n s) rest Hv Hs') as (s' & Es & Hd).
    exists s'. split; [|exact Hd].
    rewrite E, <- app_assoc, <- Es, Ech. symmetry. apply firstn_skipn.
Qed.

End Utf8Facts.

(* ===================================================================== *)
(** * Facts about the expression matcher *)
(* ===================================================================== *)

Module RegexpFacts.
Import Regexp.

Lemma nullable_sound b r : nullable b r = true -> matches b r [].
Proof.
  induction r; simpl; intros H; try discriminate.
  - constructor.
  - subst b. constructor.
  - apply andb_true_iff in H as [H1 H2].
    apply (MConcat b r1 r2 [] []); [auto|]. rewrite andb_true_r. auto.
  - apply orb_true_iff in H as [H|H];
      [apply MAlternateL | apply MAlternateR]; auto.
  - constructor.
  - apply (MPlus b r [] []); [auto | constructor].
  - constructor.
Qed.

Lemma nullable_complete b r s : matches b r s -> s = [] -> nullable b r = true.
Proof.
  induction 1; intros E; simpl; try discriminate; auto.
  - apply app_eq_nil in E as [-> ->]. simpl in *.
    rewrite andb_true_r in *. rewrite IHmatches1, IHmatches2; auto.
  - rewrite IHmatches; auto.
  - rewrite IHmatches; auto using orb_true_r.
  - apply app_eq_nil in E as [-> ->]. auto.
Qed.

Lemma deriv_sound b c r s : matches false (deriv b c r) s -> matches b r (c :: s).
Proof.
  revert b s. induction r; intros b s H; simpl in H.
  - inversion H.
  - inversion H.
  - inversion H.
  - destruct ((r =? c)%N) eqn:E; inversion H; subst.
    apply N.eqb_eq in E. subst. constructor.
  - destruct ((c =? newline)%N) eqn:E; inversion H; subst.
    constructor. intros ->. rewrite N.eqb_refl in E. discriminate.
  - destruct (digit c) eqn:E; inversion H; subst. constructor. exact E.
  - inversion H; subst.
    + match goal with
      | H' : matches false (Concat _ _) _ |- _ => inversion H'; subst
      end.
      apply (MConcat b r1 r2 (c :: s1) s2); [auto|].
      rewrite andb_false_r. assumption.
    + destruct (nullable b r1) eqn:E.
      * apply (MConcat b r1 r2 [] (c :: s)); [apply nullable_sound; exact E|].
        rewrite andb_true_r. auto.
      * match goal with H' : matches _ NoMatch _ |- _ => inversion H' end.
  - inversion H; subst; [apply MAlternateL | apply MAlternateR]; auto.
  - inversion H; subst.
    apply (MStarCons b r (c :: s1) s2); [auto|].
    rewrite andb_false_r. assumption.
  - inversion H; subst.
    apply (MPlus b r (c :: s1) s2); [auto|].
    rewrite andb_false_r. assumption.
  - apply MQuestSome. auto.
Qed.

Lemma deriv_complete b r w :
  matches b r w -> forall c s, w = c :: s -> matches false (deriv b c r) s.
Proof.
  induction 1; intros c' s' E; simpl; try discriminate.
  - inversion E; subst; clear E. rewrite N.eqb_refl. constructor.
  - inversion E; subst; clear E.
    destruct ((c' =? newline)%N) eqn:Ec.
    + apply N.eqb_eq in Ec. contradiction.
    + constructor.
  - inversion E; subst; clear E. rewrite H. constructor.
  - destruct s1 as [|a s1]; simpl in E.
    + subst s2. simpl in *. rewrite andb_true_r in *.
      apply MAlternateR.
      rewrite (nullable_complete _ _ _ H eq_refl). auto.
    + inversion E; subst; clear E. apply MAlternateL.
      rewrite andb_false_r in *.
      change false with (false && is_nil s1) in H0 at 1.
      constructor; auto.
  - apply MAlternateL. auto.
  - apply MAlternateR. auto.
  - destruct s1 as [|a s1]; simpl in E.
    + subst s2. simpl in *. rewrite andb_true_r in *. auto.
    + inversion E; subst; clear E. rewrite andb_false_r in *.
      apply (MConcat false _ _ s1 s2); auto.
  - destruct s1 as [|a s1]; simpl in E.
    + subst s2. simpl in *. rewrite andb_true_r in *.
      apply (IHmatches2 _ _ eq_refl).
    + inversion E; subst; clear E. rewrite andb_false_r in *.
      apply (MConcat false _ _ s1 s2); auto.
  - auto.
Qed.

Lemma deriv_matches b c r s :
  matches false (deriv b c r) s <-> matches b r (c :: s).
Proof.
  split; [apply deriv_sound | intros H; eapply deriv_complete; eauto].
Qed.

Lemma prefix_match_spec r : forall b s,
  prefix_match b r s = true <->
  exists s1 s2, s = s1 ++ s2 /\ matches b r s1.
Proof.
  intros b s. revert b r. induction s as [|c s IH]; intros b r; simpl.
  - rewrite orb_false_r. split.
    + intros H. exists [], []. split; [reflexivity | apply nullable_sound; auto].
    + intros (s1 & s2 & E & H). symmetry in E.
      apply app_eq_nil in E as [-> ->]. eapply nullable_complete; eauto.
  - rewrite orb_true_iff, IH. split.
    + intros [H | (s1 & s2 & -> & H)].
      * exists [], (c :: s). split; [reflexivity | apply nullable_sound; auto].
      * exists (c :: s1), s2. split; [reflexivity | apply deriv_sound; auto].
    + intros (s1 & s2 & E & H). destruct s1 as [|a s1]; simpl in E.
      * left. eapply nullable_complete; eauto.
      * inversion E; subst; clear E. right. exists s1, s2.
        split; [reflexivity | eapply deriv_complete; eauto].
Qed.

Lemma find_match_spec r : forall b s,
  find_match b r s = true <->
  exists s0 s1 s2, s = s0 ++ s1 ++ s2 /\ matches (b && is_nil s0) r s1.
Proof.
  intros b s. revert b. induction s as [|c s IH]; intros b; simpl.
  - rewrite !orb_false_r. split.
    + intros H. exists [], [], [].
      split; [reflexivity | simpl; rewrite andb_true_r; apply nullable_sound; auto].
    + intros (s0 & s1 & s2 & E & H). symmetry in E.
      apply app_eq_nil in E as [-> E]. apply app_eq_nil in E as [-> ->].
      simpl in H. rewrite andb_true_r in H. eapply nullable_complete; eauto.
  - rewrite orb_true_iff, IH. split.
    + intros [H | (s0 & s1 & s2 & -> & H)].
      * destruct (orb_prop _ _ H) as [Hn | Hp].
        -- exists [], [], (c :: s).
           split; [reflexivity | simpl; rewrite andb_true_r; apply nullable_sound; auto].
        -- apply prefix_match_spec in Hp as (s1 & s2 & -> & Hm).
           exists [], (c :: s1), s2.
           split; [reflexivity | simpl; rewrite andb_true_r; apply deriv_sound; auto].
      * exists (c :: s0), s1, s2. split; [reflexivity|].
        simpl. rewrite andb_false_r. exact H.
    + intros (s0 & s1 & s2 & E & H). destruct s0 as [|a s0]; simpl in E.
      * left. simpl in H. rewrite andb_true_r in H.
        change (prefix_match b r (c :: s) = true).
        apply prefix_match_spec. exists s1, s2. split; auto.
      * inversion E; subst; clear E. right. exists s0, s1, s2.
        split; [reflexivity|]. simpl in H. rewrite andb_false_r in H. exact H.
Qed.

End RegexpFacts.

(** ** The interface expression on a literal pattern *)

Module IfaceRegexp.
Import utf8 Regexp Utf8Facts RegexpFacts.

Lemma list_ascii_of_string_app s1 s2 :
  list_ascii_of_string (s1 +:+ s2) =
  list_ascii_of_string s1 ++ list_ascii_of_string s2.
Proof. induction s1 as [|c s1 IH]; simpl; [reflexivity | now rewrite IH]. Qed.

Lemma tokens_app s1 s2 :
  ValidString s1 = true -> tokens (s1 +:+ s2) = tokens s1 ++ tokens s2.
Proof.
  intros H. unfold tokens. rewrite list_ascii_of_string_app.
  rewrite decode_app by exact H. apply map_app.
Qed.


Lemma byte_ascii_of_N n : (n < 256)%N -> byte (ascii_of_N n) = n.
Proof. intros H. unfold byte. apply N_ascii_embedding. exact H. Qed.

Lemma literal_token_classify d :
  literal_token (classify d) = true ->
  is_invalid d = false /\ (fst d =? RuneError)%N = false /\
  token_rune (classify d) = fst d.
Proof.
  unfold classify. destruct (is_invalid d) eqn:Ei; [discriminate|].
  destruct (fst d <? 128)%N eqn:E; cbn [literal_token token_rune].
  - intros _. apply N.ltb_lt in E. split; [reflexivity|]. split.
    + apply N.eqb_neq. unfold RuneError. lia.
    + apply byte_ascii_of_N. lia.
  - intros H. apply negb_true_iff in H. auto.
Qed.

Lemma literal_pattern_inv pattern :
  literal_pattern pattern = true ->
  ValidString pattern = true /\
  forallb (fun d => negb (fst d =? RuneError)%N)
    (decode (list_ascii_of_string pattern)) = true /\
  map token_rune (tokens pattern) = runes pattern.
Proof.
  unfold literal_pattern, ValidString, Valid, tokens, runes.
  induction (decode (list_ascii_of_string pattern)) as [|d l IH];
    [repeat split|].
  cbn [map forallb]. intros H. apply andb_true_iff in H as [Hd Hl].
  apply literal_token_classify in Hd as (H1 & H2 & H3).
  destruct (IH Hl) as (I1 & I2 & I3).
  unfold rune in *. rewrite H1, H2, I1, I2, H3, I3. repeat split.
Qed.

(** A token of a literal pattern is pushed as a literal. *)
Lemma parse_literal tok t lr stack top :
  literal_token tok = true ->
  parse (tok :: t) lr stack top =
  parse t false stack (push (Literal (token_rune tok)) top).
Proof.
  intros H. destruct tok as [c | r |]; [| reflexivity | discriminate].
  cbn [literal_token] in H. apply negb_true_iff in H.
  destruct c as [[] [] [] [] [] [] [] []];
    cbv in H; try discriminate; reflexivity.
Qed.

Lemma parse_literals p : forall t lr stack top,
  forallb literal_token p = true ->
  p <> [] ->
  parse (p ++ t) lr stack top =
  parse t false stack
    (mkFrame (f_alts top) (rev (map Literal (map token_rune p)) ++ f_cur top)).
Proof.
  induction p as [|c p IH]; intros t lr stack top Hp Hne; [congruence|].
  simpl in Hp. apply andb_true_iff in Hp as [Hc Hp].
  simpl app. rewrite parse_literal by assumption.
  destruct p as [|c' p'].
  - destruct top; reflexivity.
  - rewrite IH by (assumption || discriminate).
    simpl. rewrite <- !app_assoc. reflexivity.
Qed.

Lemma tokens_prefix :
  tokens "^(?:ipvlan-)?" =
  map TChar (list_ascii_of_string "^(?:ipvlan-)?").
Proof. vm_compute. reflexivity. Qed.

Lemma tokens_suffix :
  tokens "\d+.*" = map TChar (list_ascii_of_string "\d+.*").
Proof. vm_compute. reflexivity. Qed.

Lemma runes_ipvlan :
  runes "ipvlan-" = map byte (list_ascii_of_string "ipvlan-").
Proof. vm_compute. reflexivity. Qed.

Lemma parse_prefix tok t :
  literal_token tok = true ->
  parse (tokens "^(?:ipvlan-)?" ++ tok :: t) false [] empty_frame =
  parse (tok :: t) true []
    (mkFrame []
       [Quest (mk_concat (map Literal (runes "ipvlan-"))); BeginText]).
Proof.
  intros H. rewrite tokens_prefix, runes_ipvlan.
  destruct tok as [c | r |]; [| reflexivity | discriminate].
  cbn [literal_token] in H. apply negb_true_iff in H.
  destruct c as [[] [] [] [] [] [] [] []];
    cbv in H; try discriminate; reflexivity.
Qed.

Lemma parse_suffix lr top :
  parse (tokens "\d+.*") lr [] top =
  Compiles (close_frame
              (mkFrame (f_alts top)
                 (Star AnyCharNotNL :: Plus DigitClass :: f_cur top))).
Proof. rewrite tokens_suffix. destruct top, lr; reflexivity. Qed.

Lemma parse_literal_source pattern :
  literal_pattern pattern = true ->
  parse (tokens (ifaceRegexp_source pattern)) false [] empty_frame =
  Compiles (ifaceRegexp_literal pattern).
Proof.
  intros Hlit. destruct (literal_pattern_inv _ Hlit) as (Hv & _ & Hr).
  unfold ifaceRegexp_source, ifaceRegexp_literal.
  rewrite tokens_app by reflexivity. rewrite tokens_app by exact Hv.
  rewrite <- Hr. unfold literal_pattern in Hlit.
  destruct (tokens pattern) as [|tok p] eqn:Ep.
  - vm_compute. reflexivity.
  - assert (Ht : literal_token tok = true).
    { simpl in Hlit. now apply andb_true_iff in Hlit as [Ht _]. }
    change ((tok :: p) ++ tokens "\d+.*")
      with (tok :: (p ++ tokens "\d+.*")).
    rewrite parse_prefix by assumption.
    change (tok :: (p ++ tokens "\d+.*"))
      with ((tok :: p) ++ tokens "\d+.*").
    rewrite parse_literals by (assumption || discriminate).
    rewrite parse_suffix. f_equal.
    unfold close_frame. cbn [f_alts f_cur app mk_alternate].
    f_equal. cbn [rev]. rewrite rev_app_distr, rev_involutive.
    rewrite <- !app_assoc. reflexivity.
Qed.

Lemma literal_not_operator tok :
  literal_token tok = true -> is_operator tok = false.
Proof.
  destruct tok as [c | r |]; [| reflexivity | reflexivity].
  cbn [literal_token]. intros H. apply negb_true_iff in H.
  destruct c as [[] [] [] [] [] [] [] []];
    cbv in H; try discriminate; reflexivity.
Qed.

Lemma operators_literal_source pattern :
  literal_pattern pattern = true ->
  operators (tokens (ifaceRegexp_source pattern)) = 5%nat.
Proof.
  intros Hlit. destruct (literal_pattern_inv _ Hlit) as (Hv & _ & _).
  unfold ifaceRegexp_source, operators.
  rewrite tokens_app by reflexivity. rewrite tokens_app by exact Hv.
  rewrite !List.filter_app, !List.length_app.
  replace (List.filter is_operator (tokens pattern)) with (@nil token).
  - reflexivity.
  - unfold literal_pattern in Hlit. symmetry.
    induction (tokens pattern) as [|tok l IH]; [reflexivity|].
    cbn [forallb] in Hlit. apply andb_true_iff in Hlit as [Ht Hl].
    cbn [List.filter]. rewrite (literal_not_operator _ Ht). auto.
Qed.

Lemma MustCompile_literal external pattern :
  literal_pattern pattern = true ->
  MustCompile external (ifaceRegexp_source pattern) =
  Some (Modelled (ifaceRegexp_literal pattern)).
Proof.
  intros Hlit. unfold MustCompile.
  rewrite operators_literal_source by exact Hlit.
  rewrite parse_literal_source by exact Hlit. reflexivity.
Qed.


Lemma mk_concat_cons r l :
  l <> [] -> mk_concat (r :: l) = Concat r (mk_concat l).
Proof. destruct l; [congruence | reflexivity]. Qed.

Lemma matches_literals_inv p : forall b s,
  matches b (mk_concat (map Literal p)) s -> s = p.
Proof.
  induction p as [|c p IH]; intros b s H.
  - inversion H. reflexivity.
  - destruct p as [|c' p'].
    + inversion H. reflexivity.
    + simpl map in H. rewrite mk_concat_cons in H by discriminate.
      inversion H; subst.
      match goal with H1 : matches _ (Literal _) _ |- _ => inversion H1; subst end.
      simpl. f_equal. eapply IH. eassumption.
Qed.

Lemma matches_literals_intro p : forall b,
  matches b (mk_concat (map Literal p)) p.
Proof.
  induction p as [|c p IH]; intros b; [constructor|].
  destruct p as [|c' p']; [constructor|].
  simpl map. rewrite mk_concat_cons by discriminate.
  apply (MConcat b (Literal c) _ [c] (c' :: p')); [constructor | apply IH].
Qed.

Lemma matches_tail_inv p : forall b s,
  matches b (mk_concat (map Literal p ++ [Plus DigitClass; Star AnyCharNotNL])) s ->
  exists d rest, s = p ++ d :: rest /\ digit d = true.
Proof.
  induction p as [|c p IH]; intros b s H.
  - simpl in H. inversion H; subst.
    match goal with H1 : matches _ (Plus _) _ |- _ => inversion H1; subst end.
    match goal with H1 : matches _ DigitClass _ |- _ => inversion H1; subst end.
    simpl. eauto.
  - simpl map in H. simpl app in H.
    rewrite mk_concat_cons in H by (destruct p; discriminate).
    inversion H; subst.
    match goal with H1 : matches _ (Literal _) _ |- _ => inversion H1; subst end.
    match goal with
    | H2 : matches _ (mk_concat _) _ |- _ =>
        apply IH in H2 as (d & rest & -> & Hd)
    end.
    exists d, rest. split; [reflexivity | assumption].
Qed.

Lemma matches_tail_intro p d : forall b,
  digit d = true ->
  matches b (mk_concat (map Literal p ++ [Plus DigitClass; Star AnyCharNotNL]))
    (p ++ [d]).
Proof.
  induction p as [|c p IH]; intros b Hd.
  - simpl.
    apply (MConcat b (Plus DigitClass) (Star AnyCharNotNL) [d] []);
      [| constructor].
    apply (MPlus b DigitClass [d] []); constructor. assumption.
  - simpl map. simpl app.
    rewrite mk_concat_cons by (destruct p; discriminate).
    apply (MConcat b (Literal c) _ [c] (p ++ [d])); [constructor | auto].
Qed.

(** What the expression of a literal pattern accepts, in runes. *)
Lemma find_match_literal q p s :
  find_match true
    (mk_concat ([BeginText; Quest (mk_concat (map Literal q))] ++
                map Literal p ++ [Plus DigitClass; Star AnyCharNotNL])) s = true
  <-> exists pre d rest,
        (pre = [] \/ pre = q) /\ s = pre ++ p ++ d :: rest /\ digit d = true.
Proof.
  rewrite find_match_spec. split.
  - intros (s0 & s1 & s2 & E & H).
    change ([BeginText; Quest (mk_concat (map Literal q))] ++ map Literal p ++
            [Plus DigitClass; Star AnyCharNotNL])
      with (BeginText :: Quest (mk_concat (map Literal q)) ::
            (map Literal p ++ [Plus DigitClass; Star AnyCharNotNL])) in H.
    rewrite mk_concat_cons in H by discriminate.
    rewrite mk_concat_cons in H by (destruct (map Literal p); discriminate).
    inversion H; subst; clear H.
    match goal with H1 : matches _ BeginText _ |- _ => inversion H1; subst; clear H1 end.
    destruct s0 as [|a s0]; [|discriminate].
    match goal with H1 : matches _ (Concat _ _) _ |- _ => inversion H1; subst; clear H1 end.
    match goal with
    | H2 : matches _ (mk_concat (_ ++ _)) _ |- _ =>
        apply matches_tail_inv in H2 as (d & rest & -> & Hd)
    end.
    match goal with H1 : matches _ (Quest _) _ |- _ => inversion H1; subst; clear H1 end.
    + exists [], d, (rest ++ s2). split; [auto|]. split; [|assumption].
      simpl. rewrite <- !app_assoc. reflexivity.
    + match goal with
      | H2 : matches _ (mk_concat (map Literal q)) _ |- _ =>
          apply (matches_literals_inv q) in H2; subst
      end.
      exists q, d, (rest ++ s2). split; [auto|]. split; [|assumption].
      cbn [app]. rewrite <- !app_assoc. reflexivity.
  - intros (pre & d & rest & Hpre & E & Hd).
    exists [], (pre ++ p ++ [d]), rest. split.
    + rewrite E. simpl. rewrite <- !app_assoc. reflexivity.
    + change ([BeginText; Quest (mk_concat (map Literal q))] ++ map Literal p ++
              [Plus DigitClass; Star AnyCharNotNL])
        with (BeginText :: Quest (mk_concat (map Literal q)) ::
              (map Literal p ++ [Plus DigitClass; Star AnyCharNotNL])).
      rewrite mk_concat_cons by discriminate.
      rewrite mk_concat_cons by (destruct (map Literal p); discriminate).
      apply (MConcat _ BeginText _ [] (pre ++ p ++ [d])); [constructor|].
      apply (MConcat _ (Quest _) _ pre (p ++ [d])).
      * destruct Hpre as [-> | ->];
          [apply MQuestNone | apply MQuestSome, matches_literals_intro].
      * apply matches_tail_intro. assumption.
Qed.

Lemma strip_prefix_app p s : strip_prefix p (p ++ s) = Some s.
Proof.
  induction p as [|a p IH]; simpl; [reflexivity|].
  rewrite Ascii.eqb_refl. exact IH.
Qed.

Lemma strip_prefix_Some p : forall s t, strip_prefix p s = Some t -> s = p ++ t.
Proof.
  induction p as [|a p IH]; intros s t H; simpl in H.
  - simpl. congruence.
  - destruct s as [|c s]; [discriminate|].
    destruct (Ascii.eqb a c) eqn:E; [|discriminate].
    apply Ascii.eqb_eq in E. subst. simpl. f_equal. auto.
Qed.

Lemma pattern_then_digit_spec p s :
  pattern_then_digit p s = true <->
  exists d rest, s = p ++ d :: rest /\ is_digit d = true.
Proof.
  unfold pattern_then_digit. split.
  - destruct (strip_prefix p s) as [[|d rest]|] eqn:E; try discriminate.
    intros Hd. apply strip_prefix_Some in E. eauto.
  - intros (d & rest & -> & Hd). rewrite strip_prefix_app. exact Hd.
Qed.

Lemma documented_form_spec pattern name :
  documented_form pattern name = true <->
  exists pre d rest,
    (pre = [] \/ pre = list_ascii_of_string "ipvlan-") /\
    list_ascii_of_string name =
      pre ++ list_ascii_of_string pattern ++ d :: rest /\
    is_digit d = true.
Proof.
  unfold documented_form.
  set (p := list_ascii_of_string pattern).
  set (s := list_ascii_of_string name).
  set (q := list_ascii_of_string "ipvlan-").
  rewrite orb_true_iff. split.
  - intros [Hf | Hf].
    + apply pattern_then_digit_spec in Hf as (d & rest & E & Hd).
      exists [], d, rest. auto.
    + destruct (strip_prefix q s) as [t|] eqn:Et; [|discriminate].
      apply strip_prefix_Some in Et.
      apply pattern_then_digit_spec in Hf as (d & rest & -> & Hd).
      exists q, d, rest. auto.
  - intros (pre & d & rest & [-> | ->] & E & Hd).
    + left. apply pattern_then_digit_spec. eauto.
    + right. rewrite E, strip_prefix_app.
      apply pattern_then_digit_spec. eauto.
Qed.

(** A digit is one byte, and its own rune. *)
Lemma is_digit_digit c : is_digit c = digit (byte c).
Proof.
  unfold is_digit, digit, byte, nat_of_ascii.
  pose proof (N_ascii_bounded c) as Hb.
  apply eq_true_iff_eq.
  rewrite !andb_true_iff, !Nat.leb_le, !N.leb_le. lia.
Qed.

Lemma encodes_ascii c : (byte c < 128)%N -> encodes [c] (byte c).
Proof. intros H. cbn. auto. Qed.

Lemma digit_ascii d : digit d = true -> (d < 128)%N.
Proof.
  unfold digit. rewrite andb_true_iff, !N.leb_le. lia.
Qed.

(** On a literal pattern the compiled expression accepts exactly the
    names of the documented form. *)
Lemma MatchString_literal pattern name :
  literal_pattern pattern = true ->
  MatchString (Modelled (ifaceRegexp_literal pattern)) name =
  documented_form pattern name.
Proof.
  intros Hlit. destruct (literal_pattern_inv _ Hlit) as (Hv & Hne & _).
  apply eq_true_iff_eq.
  unfold MatchString, ifaceRegexp_literal.
  rewrite find_match_literal, documented_form_spec.
  unfold runes, ValidString in *.
  set (p := list_ascii_of_string pattern) in *.
  set (s := list_ascii_of_string name).
  set (q := list_ascii_of_string "ipvlan-").
  assert (Hq : Valid q = true) by reflexivity.
  assert (Hqne : forallb (fun d => negb (fst d =? RuneError)%N) (decode q)
                 = true) by reflexivity.
  split.
  - intros (pre & d & rest & Hpre & E & Hd).
    assert (Hs1 : exists pre' s1,
               (pre' = [] \/ pre' = q) /\ s = pre' ++ s1 /\
               map fst (decode s1) = map fst (decode p) ++ d :: rest).
    { destruct Hpre as [-> | ->].
      - exists [], s. auto.
      - destruct (runes_prefix_inv q s _ Hqne E) as (s1 & Es & Hs1).
        exists q, s1. auto. }
    destruct Hs1 as (pre' & s1 & Hpre' & Es & Hs1).
    destruct (runes_prefix_inv p s1 _ Hne Hs1) as (s2 & Es1 & Hs2).
    pose proof (digit_ascii d Hd) as Hd128.
    assert (Hc : decode [ascii_of_N d] = [(d, 1%nat)]).
    { pose proof (decode_encodes [ascii_of_N d] d []) as H.
      rewrite app_nil_r in H. apply H. cbn.
      rewrite byte_ascii_of_N by lia. auto. }
    destruct (runes_prefix_inv [ascii_of_N d] s2 rest) as (s3 & Es2 & _).
    { rewrite Hc. cbn. apply andb_true_iff. split; [|reflexivity].
      apply negb_true_iff, N.eqb_neq. unfold RuneError. lia. }
    { rewrite Hc. exact Hs2. }
    exists pre', (ascii_of_N d), s3. split; [exact Hpre'|]. split.
    + rewrite Es, Es1, Es2. reflexivity.
    + rewrite is_digit_digit, byte_ascii_of_N by lia. exact Hd.
  - intros (pre & c & rest & Hpre & E & Hd).
    rewrite is_digit_digit in Hd. pose proof (digit_ascii _ Hd) as Hc.
    exists (map fst (decode pre)), (byte c), (map fst (decode rest)).
    split; [destruct Hpre as [-> | ->]; auto|]. split; [|exact Hd].
    fold s. rewrite E.
    rewrite decode_app by (destruct Hpre as [-> | ->]; reflexivity).
    rewrite decode_app by exact Hv.
    change (c :: rest) with ([c] ++ rest).
    rewrite (decode_encodes [c] (byte c) rest (encodes_ascii c Hc)).
    rewrite !map_app. reflexivity.
Qed.

End IfaceRegexp.

(* ===================================================================== *)
(** * Facts about a run of [start] *)
(* ===================================================================== *)

Module StartFacts.

Lemma start_exec_snoc st sched l :
  start_exec st (sched ++ [l]) =
  start_next (start_exec st sched) l.
Proof. unfold start_exec. rewrite fold_left_app. reflexivity. Qed.

Lemma elapsed_snoc sched l :
  elapsed (sched ++ [l]) =
  (elapsed sched +
   match l with Elapse d => if (0 <=? d)%Z then d else 0 | _ => 0 end)%Z.
Proof.
  induction sched as [|a sched IH]; simpl.
  - destruct l; try reflexivity. destruct (0 <=? d)%Z; lia.
  - rewrite IH. destruct a; try reflexivity. destruct (0 <=? d)%Z; lia.
Qed.

Lemma elapsed_nonneg sched : (0 <= elapsed sched)%Z.
Proof.
  induction sched as [|a sched IH]; simpl; [lia|].
  destruct a; try assumption. destruct (0 <=? d)%Z eqn:E; lia.
Qed.

Lemma lookup_map_seq {A} (f : nat -> A) n : forall a i,
  map f (seq a n) !! i = if (i <? n)%nat then Some (f (a + i)%nat) else None.
Proof.
  induction n as [|n IH]; intros a i; simpl.
  - reflexivity.
  - destruct i as [|i]; simpl.
    + rewrite Nat.add_0_r. reflexivity.
    + rewrite IH. replace (S a + i)%nat with (a + S i)%nat by lia.
      reflexivity.
Qed.

Lemma insert_map_seq {A} (f : nat -> A) v n : forall a i,
  <[i := v]> (map f (seq a n)) =
  map (fun k => if (k =? a + i)%nat then v else f k) (seq a n).
Proof.
  induction n as [|n IH]; intros a i; simpl; [reflexivity|].
  destruct i as [|i]; simpl.
  - rewrite Nat.add_0_r, Nat.eqb_refl. f_equal.
    apply map_ext_in. intros k Hk. apply in_seq in Hk.
    destruct (Nat.eqb_spec k a); [lia | reflexivity].
  - destruct (Nat.eqb_spec a (a + S i)); [lia|]. f_equal.
    rewrite IH. apply map_ext. intros k.
    replace (S a + i)%nat with (a + S i)%nat by lia. reflexivity.
Qed.

Lemma count_running_insert l : forall i,
  l !! i = Some true ->
  count_running (<[i := false]> l) = pred (count_running l) /\
  (0 < count_running l)%nat.
Proof.
  unfold count_running.
  induction l as [|b l IH]; intros i H; [destruct i; discriminate|].
  destruct i as [|i]; simpl in *.
  - inversion H; subst. simpl. split; [reflexivity | lia].
  - destruct (IH i H) as [E Hpos]. destruct b; simpl; rewrite E; split; lia.
Qed.

Lemma count_running_zero l :
  (count_running l =? 0)%nat = forallb negb l.
Proof.
  unfold count_running. induction l as [|b l IH]; [reflexivity|].
  destruct b; simpl; [reflexivity | exact IH].
Qed.

Lemma tracks_init ctx timeout tasks :
  tracks timeout (length tasks) [] (start_init ctx timeout tasks).
Proof.
  split; simpl; auto.
  - generalize 0%nat. induction tasks as [|t tasks IH]; intros a; simpl;
      [reflexivity | now rewrite (IH (S a))].
  - unfold count_running. f_equal.
    induction tasks as [|t tasks IH]; simpl; [reflexivity | now rewrite IH].
Qed.

Lemma ctx_done_mono st st' :
  s_timeout st' = s_timeout st ->
  (s_base_done st = true -> s_base_done st' = true) ->
  (s_elapsed st <= s_elapsed st')%Z ->
  ctx_done st = true -> ctx_done st' = true.
Proof.
  unfold ctx_done. intros -> Hb He H.
  apply orb_true_iff in H as [H | H].
  - rewrite Hb; auto.
  - apply andb_true_iff in H as [H1 H2]. rewrite H1.
    apply Z.leb_le in H2.
    replace (s_timeout st <=? s_elapsed st')%Z with true
      by (symmetry; apply Z.leb_le; lia).
    apply orb_true_r.
Qed.

Lemma tracks_step timeout n sched st l :
  tracks timeout n sched st ->
  tracks timeout n (sched ++ [l]) (start_next st l).
Proof.
  intros [Ht Hb He Hr Hw Hp]. unfold start_next.
  destruct l as [| d | i |]; simpl.
  - (* the scope given to start ends *)
    split; simpl; auto.
    + rewrite existsb_app. simpl. now rewrite orb_true_r.
    + rewrite elapsed_snoc. lia.
    + rewrite Hr. apply map_ext. intros k. rewrite existsb_app. simpl.
      now rewrite orb_false_r.
    + destruct (s_pc st); auto; unfold ctx_done in *; simpl; tauto.
  - (* time passes *)
    destruct (0 <=? d)%Z eqn:Ed; simpl.
    + split; simpl; auto.
      * rewrite existsb_app. simpl. now rewrite orb_false_r.
      * rewrite elapsed_snoc, Ed. lia.
      * rewrite Hr. apply map_ext. intros k. rewrite existsb_app. simpl.
        now rewrite orb_false_r.
      * apply Z.leb_le in Ed.
        destruct (s_pc st); auto;
          [| destruct Hp as [Hp Hz]; split; [|exact Hz]];
          (eapply ctx_done_mono; [| | | exact Hp]; simpl; auto; lia).
    + split; simpl; auto.
      * rewrite existsb_app. simpl. now rewrite orb_false_r.
      * rewrite elapsed_snoc, Ed. lia.
      * rewrite Hr. apply map_ext. intros k. rewrite existsb_app. simpl.
        now rewrite orb_false_r.
  - (* an engine returns *)
    pose proof (lookup_map_seq
      (fun i => negb (existsb (is_return i) sched)) n 0 i) as Hl.
    rewrite <- Hr in Hl. simpl in Hl.
    destruct (s_running st !! i) as [[|]|] eqn:Ei; simpl.
    + destruct (count_running_insert _ _ Ei) as [Ec Hpos].
      split; simpl; auto.
      * rewrite existsb_app. simpl. now rewrite orb_false_r.
      * rewrite elapsed_snoc. lia.
      * rewrite Hr, insert_map_seq. apply map_ext. intros k.
        rewrite existsb_app. simpl. rewrite orb_false_r.
        rewrite (Nat.eqb_sym i k).
        destruct (k =? i)%nat; [now rewrite orb_true_r | now rewrite orb_false_r].
      * rewrite Ec, Hw. lia.
      * destruct (s_pc st); auto.
        destruct Hp as [_ Hz]. rewrite Hw in Hz. lia.
    + split; simpl; auto.
      * rewrite existsb_app. simpl. now rewrite orb_false_r.
      * rewrite elapsed_snoc. lia.
      * rewrite Hr. apply map_ext_in. intros k Hk. apply in_seq in Hk.
        rewrite existsb_app. simpl. rewrite orb_false_r.
        destruct (Nat.eqb_spec i k) as [->|]; [|now rewrite orb_false_r].
        destruct (k <? n)%nat; [|discriminate].
        inversion Hl as [Hf]. symmetry in Hf. apply negb_false_iff in Hf.
        rewrite Hf. reflexivity.
    + split; simpl; auto.
      * rewrite existsb_app. simpl. now rewrite orb_false_r.
      * rewrite elapsed_snoc. lia.
      * rewrite Hr. apply map_ext_in. intros k Hk. apply in_seq in Hk.
        rewrite existsb_app. simpl. rewrite orb_false_r.
        destruct (Nat.eqb_spec i k) as [->|]; [|now rewrite orb_false_r].
        destruct (Nat.ltb_spec k n); [discriminate | lia].
  - (* the goroutine of start moves *)
    assert (Hsame : forall p,
      match p with
      | AwaitDone => True
      | AwaitWg => ctx_done st = true
      | Returned => ctx_done st = true /\ s_wg st = 0%Z
      end ->
      tracks timeout n (sched ++ [Main])
        {| s_ctx := s_ctx st; s_timeout := s_timeout st;
           s_base_done := s_base_done st; s_elapsed := s_elapsed st;
           s_running := s_running st; s_wg := s_wg st; s_pc := p |}).
    { intros p Hq. split; simpl; auto.
      - rewrite existsb_app. simpl. now rewrite orb_false_r.
      - rewrite elapsed_snoc. lia.
      - rewrite Hr. apply map_ext. intros k. rewrite existsb_app. simpl.
        now rewrite orb_false_r. }
    destruct st as [c t bd el run wg p]. simpl in *.
    destruct p; simpl.
    + destruct (ctx_done _) eqn:Ed; simpl; apply Hsame; simpl; auto.
    + destruct (wg =? 0)%Z eqn:Ez; simpl; apply Hsame; simpl; auto.
      apply Z.eqb_eq in Ez. auto.
    + apply Hsame. simpl. auto.
Qed.

Lemma tracks_exec ctx timeout tasks sched :
  tracks timeout (length tasks) sched
    (start_exec (start_init ctx timeout tasks) sched).
Proof.
  induction sched as [|l sched IH] using rev_ind.
  - apply tracks_init.
  - rewrite start_exec_snoc. apply tracks_step. exact IH.
Qed.


Lemma forallb_negb_map_negb {A} (g : A -> bool) l :
  forallb negb (map (fun i => negb (g i)) l) = forallb g l.
Proof.
  induction l as [|a l IH]; simpl; [reflexivity|].
  now rewrite negb_involutive, IH.
Qed.

Lemma start_next_Main st :
  s_pc (start_next st Main) = main_pc st /\
  ctx_done (start_next st Main) = ctx_done st /\
  s_wg (start_next st Main) = s_wg st.
Proof.
  unfold start_next, start_step, main_pc.
  destruct (s_pc st) eqn:Ep.
  - destruct (ctx_done st) eqn:Ed; repeat split; auto.
  - destruct (s_wg st =? 0)%Z eqn:Ez; repeat split; auto.
  - repeat split; auto.
Qed.

Lemma settle_returned st :
  match s_pc st with
  | AwaitDone => True
  | AwaitWg => ctx_done st = true
  | Returned => ctx_done st = true /\ s_wg st = 0%Z
  end ->
  returned (start_settle st) = ctx_done st && (s_wg st =? 0)%Z.
Proof.
  intros Hp. unfold start_settle, start_exec, returned. cbn [fold_left].
  destruct (start_next_Main (start_next st Main)) as (-> & _ & _).
  destruct (start_next_Main st) as (E1 & E2 & E3).
  unfold main_pc at 1. rewrite E1, E2, E3. unfold main_pc.
  destruct (s_pc st).
  - destruct (ctx_done st); [destruct (s_wg st =? 0)%Z |]; reflexivity.
  - rewrite Hp. destruct (s_wg st =? 0)%Z; reflexivity.
  - destruct Hp as [-> ->]. reflexivity.
Qed.

Lemma start_returned_iff ctx timeout tasks sched :
  returned (start_settle (start_exec (start_init ctx timeout tasks) sched))
  = scope_ended timeout sched && all_returned (length tasks) sched.
Proof.
  destruct (tracks_exec ctx timeout tasks sched) as [Ht Hb He Hr Hw Hp].
  rewrite settle_returned by exact Hp.
  f_equal.
  - unfold ctx_done, scope_ended. now rewrite Ht, Hb, He.
  - rewrite Hw.
    transitivity (count_running
      (s_running (start_exec (start_init ctx timeout tasks) sched)) =? 0)%nat.
    + destruct (count_running _); reflexivity.
    + rewrite count_running_zero, Hr. apply forallb_negb_map_negb.
Qed.

Lemma start_outcome sched ctx timeout tasks st :
  start sched ctx timeout tasks st =
  if scope_ended timeout sched && all_returned (length tasks) sched
  then Ok None st else Blocked st.
Proof.
  unfold start. rewrite start_returned_iff. destruct (_ && _); reflexivity.
Qed.

End StartFacts.

(* ===================================================================== *)
(** * Facts about [createTasks] *)
(* ===================================================================== *)

(** Unfold the monad and its primitive operations. *)
Ltac run_monad :=
  unfold mbind, M_bind, bind, mret, M_ret, ret, jlog, modify, get,
    os_Exit, panic, block, call.

Section CreateTasksFacts.
Variables (w : World) (dir ext flt : string) (snap intv : Z)
          (td jd jl ord : bool).

Lemma set_stdout_id st : set_stdout (stdout st ++ []) st = st.
Proof. destruct st. unfold set_stdout. simpl. now rewrite app_nil_r. Qed.

Lemma createTasks_iface_alone tasks iface st :
  createTasks_iface w dir ext flt snap intv td jd jl ord tasks iface st =
  Ok (tasks ++ iface_tasks w dir ext flt snap intv td jd jl ord iface)
     (set_stdout
        (stdout st ++
         iface_entries w dir ext flt snap intv td jd jl ord (xid st) iface)
        st).
Proof.
  unfold iface_tasks, iface_entries, iface_alone, createTasks_iface.
  destruct (InterfaceByName w iface) as [netIface | err].
  2:{ run_monad. cbn. rewrite app_nil_r. reflexivity. }
  destruct td;
    [destruct (NewTcpdump w _) |];
    (destruct jd, jl; cbn [negb orb andb];
     [destruct (NewPcap w _);
      [| destruct (NewPcapWriter w _ _ _);
         destruct (NewStdoutPcapWriter w _)] | | | ]);
    run_monad; cbn; rewrite ?app_nil_r, <- ?app_assoc; reflexivity.
Qed.

Lemma createTasks_loop_alone devices : forall tasks st,
  createTasks_loop w dir ext flt snap intv td jd jl ord tasks devices st =
  Ok (tasks ++ flat_map (iface_tasks w dir ext flt snap intv td jd jl ord) devices)
     (set_stdout
        (stdout st ++
         flat_map (iface_entries w dir ext flt snap intv td jd jl ord (xid st))
           devices)
        st).
Proof.
  induction devices as [|iface devices IH]; intros tasks st.
  - simpl. rewrite app_nil_r, set_stdout_id. reflexivity.
  - cbn [createTasks_loop flat_map]. unfold mbind, M_bind, bind.
    rewrite createTasks_iface_alone, IH.
    destruct st. unfold set_stdout. cbn. rewrite <- !app_assoc. reflexivity.
Qed.

Lemma iface_errors_are_failures x iface :
  map Message
    (List.filter is_error_entry
       (iface_entries w dir ext flt snap intv td jd jl ord x iface)) =
  detected_failures w dir ext flt snap intv td jd jl ord iface.
Proof.
  unfold iface_entries, iface_alone, createTasks_iface, detected_failures.
  destruct (InterfaceByName w iface) as [netIface | err]; [|reflexivity].
  destruct td;
    [destruct (NewTcpdump w _) |];
    (destruct jd, jl; cbn [negb orb andb];
     [destruct (NewPcap w _);
      [| destruct (NewPcapWriter w _ _ _);
         destruct (NewStdoutPcapWriter w _)] | | | ]);
    reflexivity.
Qed.

Lemma iface_tasks_promiscuous iface :
  forallb promiscuous_untyped
    (iface_tasks w dir ext flt snap intv td jd jl ord iface) = true.
Proof.
  unfold iface_tasks, iface_alone, createTasks_iface.
  destruct (InterfaceByName w iface) as [netIface | err]; [|reflexivity].
  destruct td;
    [destruct (NewTcpdump w _) |];
    (destruct jd, jl; cbn [negb orb andb];
     [destruct (NewPcap w _);
      [| destruct (NewPcapWriter w _ _ _);
         destruct (NewStdoutPcapWriter w _)] | | | ]);
    reflexivity.
Qed.

Lemma forallb_flat_map {A B} (p : B -> bool) (f : A -> list B) l :
  (forall a, forallb p (f a) = true) -> forallb p (flat_map f l) = true.
Proof.
  intros H. induction l as [|a l IH]; simpl; [reflexivity|].
  rewrite forallb_app, H, IH. reflexivity.
Qed.

Lemma createTasks_alone st :
  createTasks w dir ext flt snap intv td jd jl ord st =
  match Regexp.MustCompile (regexp_Compile w) (ifaceRegexp_source (ifacePattern w)) with
  | None => Panic st
  | Some re =>
      let devices := FindDevicesByRegex w re in
      Ok (flat_map (iface_tasks w dir ext flt snap intv td jd jl ord) devices)
         (set_stdout
            (stdout st ++
             flat_map (iface_entries w dir ext flt snap intv td jd jl ord (xid st))
               devices)
            st)
  end.
Proof.
  unfold createTasks, selectDevices, mbind, M_bind, bind.
  destruct (Regexp.MustCompile _ _); [|reflexivity].
  unfold ret. rewrite createTasks_loop_alone. reflexivity.
Qed.
End CreateTasksFacts.

(* ===================================================================== *)
(** * Facts about [tcpdump] and [main] *)
(* ===================================================================== *)

Lemma tcpdump_outcome w sched timeout st :
  match jobs st !! jid st with
  | None =>
      let message := "job[id:" +:+ uuid.String (jid st) +:+ "] not found" in
      tcpdump w sched timeout st =
      Ok (Some message)
         (set_stdout
            (stdout st ++
             [log_entry w ERROR emptyTcpdumpJob (xid st) message]) st)
  | Some job =>
      tcpdump w sched timeout st =
      if scope_ended timeout sched &&
         all_returned (length (job_tasks job)) sched
      then Ok None st else Blocked st
  end.
Proof.
  unfold tcpdump. run_monad.
  destruct (jobs st !! jid st) as [job|].
  - apply StartFacts.start_outcome.
  - reflexivity.
Qed.

Lemma built_tasks_alone w fl :
  built_tasks w fl =
  match Regexp.MustCompile (regexp_Compile w) (ifaceRegexp_source (ifacePattern w)) with
  | None => None
  | Some re =>
      Some (flat_map
              (iface_tasks w (flags.directory fl) (flags.extension fl)
                 (flags.filter fl) (flags.snaplen fl) (flags.interval fl)
                 (flags.tcp_dump fl) (flags.json_dump fl) (flags.json_log fl)
                 (flags.ordered fl))
              (FindDevicesByRegex w re))
  end.
Proof.
  unfold built_tasks. rewrite createTasks_alone.
  destruct (Regexp.MustCompile _ _); reflexivity.
Qed.

Lemma iface_entries_not_no_tasks w dir ext flt snap intv td jd jl ord x iface :
  forallb (fun e => negb (is_no_tasks_entry e))
    (iface_entries w dir ext flt snap intv td jd jl ord x iface) = true.
Proof.
  unfold iface_entries, iface_alone, createTasks_iface.
  destruct (InterfaceByName w iface) as [netIface | err]; [|reflexivity].
  destruct td;
    [destruct (NewTcpdump w _) |];
    (destruct jd, jl; cbn [negb orb andb];
     [destruct (NewPcap w _);
      [| destruct (NewPcapWriter w _ _ _);
         destruct (NewStdoutPcapWriter w _)] | | | ]);
    reflexivity.
Qed.

(** Symbolic execution of the sequential code. *)
Lemma bind_jlog {B} w sev job msg (k : unit -> M B) s :
  bind (jlog w sev job msg) k s =
  k tt (set_stdout (stdout s ++ [log_entry w sev job (xid s) msg]) s).
Proof. reflexivity. Qed.
Lemma bind_modify {B} f (k : unit -> M B) s : bind (modify f) k s = k tt (f s).
Proof. reflexivity. Qed.
Lemma bind_get {A B} (f : State -> A) (k : A -> M B) s :
  bind (get f) k s = k (f s) s.
Proof. reflexivity. Qed.
Lemma bind_call {B} c (k : unit -> M B) s :
  bind (call c) k s = k tt (set_calls (calls s ++ [c]) s).
Proof. reflexivity. Qed.
Lemma bind_ret {A B} (a : A) (k : A -> M B) s : bind (ret a) k s = k a s.
Proof. reflexivity. Qed.
Lemma bind_exit {A B} code (k : A -> M B) s : bind (os_Exit code) k s = Exit code s.
Proof. reflexivity. Qed.
Lemma jlog_run w sev job msg s :
  jlog w sev job msg s =
  Ok tt (set_stdout (stdout s ++ [log_entry w sev job (xid s) msg]) s).
Proof. reflexivity. Qed.
Lemma bind_createTasks {B} w dir ext flt snap intv td jd jl ord
    (k : list pcapTask -> M B) s :
  bind (createTasks w dir ext flt snap intv td jd jl ord) k s =
  match Regexp.MustCompile (regexp_Compile w) (ifaceRegexp_source (ifacePattern w)) with
  | None => Panic s
  | Some re =>
      k (flat_map (iface_tasks w dir ext flt snap intv td jd jl ord)
           (FindDevicesByRegex w re))
        (set_stdout
           (stdout s ++
            flat_map (iface_entries w dir ext flt snap intv td jd jl ord (xid s))
              (FindDevicesByRegex w re)) s)
  end.
Proof.
  unfold bind. rewrite createTasks_alone.
  destruct (Regexp.MustCompile _ _); reflexivity.
Qed.
Lemma bind_start {B} sched ctx timeout tasks (k : option error -> M B) s :
  bind (start sched ctx timeout tasks) k s =
  if scope_ended timeout sched && all_returned (length tasks) sched
  then k None s else Blocked s.
Proof.
  unfold bind. rewrite StartFacts.start_outcome. destruct (_ && _); reflexivity.
Qed.

Lemma bind_bind {A B C} (m : M A) (k1 : A -> M B) (k2 : B -> M C) s :
  bind (bind m k1) k2 s = bind m (fun a => bind (k1 a) k2) s.
Proof. unfold bind. destruct (m s); reflexivity. Qed.

Ltac exec_step :=
  first [ rewrite bind_bind | rewrite bind_jlog | rewrite bind_modify | rewrite bind_get
        | rewrite bind_call | rewrite bind_ret | rewrite bind_exit
        | rewrite bind_createTasks | rewrite bind_start ].
Ltac projs :=
  cbn [jid xid jobs timezone stdout calls entropy set_jid set_xid set_jobs
       set_timezone set_stdout set_calls set_entropy initial_state
       final_state exit_code].
Ltac exec := unfold mbind, M_bind; repeat (exec_step; cbv beta; projs).

Lemma uuid_String_nonempty u : String.eqb (uuid.String u) EmptyString = false.
Proof. reflexivity. Qed.

Lemma iface_entries_stamped w dir ext flt snap intv td jd jl ord x iface :
  Forall (stamped emptyTcpdumpJob x)
    (iface_entries w dir ext flt snap intv td jd jl ord x iface).
Proof.
  unfold iface_entries, iface_alone, createTasks_iface.
  destruct (InterfaceByName w iface) as [netIface | err];
    [| repeat constructor].
  destruct td;
    [destruct (NewTcpdump w _) |];
    (destruct jd, jl; cbn [negb orb andb];
     [destruct (NewPcap w _);
      [| destruct (NewPcapWriter w _ _ _);
         destruct (NewStdoutPcapWriter w _)] | | | ]);
    repeat constructor.
Qed.

Lemma Forall_flat_map_intro {A B} (P : B -> Prop) (f : A -> list B) l :
  (forall a, Forall P (f a)) -> Forall P (flat_map f l).
Proof.
  intros H. induction l as [|a l IH]; simpl; [constructor|].
  apply Forall_app. split; auto.
Qed.

Lemma stamped_log_entry w sev job x msg :
  stamped job x (log_entry w sev job x msg).
Proof. repeat split. Qed.

Ltac solve_stamped Hdev :=
  repeat (apply Forall_app; split);
  try (apply Hdev; intros ? ?; left; assumption);
  repeat (apply Forall_cons; split);
  try (match goal with |- Forall _ [] => constructor end);
  first [ left; apply stamped_log_entry
        | right; eexists;
          split; [apply lookup_insert_eq |];
          split; [reflexivity | apply stamped_log_entry] ].

(* ===================================================================== *)
(** * Facts about the steps of the scheduler *)
(* ===================================================================== *)

Lemma identity_drawn_mono w n m x :
  (n <= m)%nat -> identity_drawn w n x -> identity_drawn w m x.
Proof.
  intros Hle [-> | (k & Hk & ->)]; [left; reflexivity|].
  right. exists k. split; [lia | reflexivity].
Qed.

Lemma progressed_refl w job st :
  identity_drawn w (entropy st) (xid st) -> progressed w job [] st st.
Proof.
  intros H. split; [reflexivity.. | now rewrite app_nil_r | lia | exact H |].
  exists []. split; [now rewrite app_nil_r | constructor].
Qed.

Lemma progressed_trans w job cs1 cs2 s1 s2 s3 :
  progressed w job cs1 s1 s2 -> progressed w job cs2 s2 s3 ->
  progressed w job (cs1 ++ cs2) s1 s3.
Proof.
  intros [J1 R1 T1 C1 E1 X1 (p1 & O1 & F1)] [J2 R2 T2 C2 E2 X2 (p2 & O2 & F2)].
  split; [congruence.. | | lia | exact X2 |].
  - rewrite C2, C1, app_assoc. reflexivity.
  - exists (p1 ++ p2). split; [rewrite O2, O1, app_assoc; reflexivity|].
    apply Forall_app. split; [|exact F2].
    eapply List.Forall_impl; [|exact F1]. intros e (x & Hx & He).
    exists x. split; [|exact He]. eapply identity_drawn_mono; [|exact Hx]. lia.
Qed.

Lemma progressed_call w job c st :
  identity_drawn w (entropy st) (xid st) ->
  progressed w job [c] st (set_calls (calls st ++ [c]) st).
Proof.
  intros H. split; [reflexivity.. | cbn; lia | exact H |].
  exists []. split; [now rewrite app_nil_r | constructor].
Qed.

Lemma progressed_jlog w job sev msg st :
  identity_drawn w (entropy st) (xid st) ->
  progressed w job [] st
    (set_stdout (stdout st ++ [log_entry w sev job (xid st) msg]) st).
Proof.
  intros H.
  split; [reflexivity.. | cbn; now rewrite app_nil_r | cbn; lia | exact H |].
  eexists. split; [reflexivity|]. repeat constructor.
  exists (xid st). split; [exact H | apply stamped_log_entry].
Qed.

(** The listeners are their statements in sequence. *)
Lemma beforeTcpdump_steps w id name st :
  beforeTcpdump w id name st =
  (beforeTcpdump_logs w id name;; beforeTcpdump_stores w) st.
Proof.
  unfold beforeTcpdump, beforeTcpdump_logs, beforeTcpdump_stores.
  unfold mbind, M_bind. rewrite bind_bind, !bind_get. cbv beta.
  destruct (jobs st !! id) as [job|]; [|reflexivity].
  destruct (job_j job); reflexivity.
Qed.

Lemma afterTcpdump_steps w id name st :
  afterTcpdump w id name st =
  (afterTcpdump_logs_complete w id name;;
   afterTcpdump_logs_next w id name;; afterTcpdump_stores) st.
Proof.
  unfold afterTcpdump, afterTcpdump_logs_complete, afterTcpdump_logs_next,
    afterTcpdump_stores.
  exec. destruct (jobs st !! id) as [job|] eqn:E; exec; rewrite E.
  - destruct (job_j job); exec; reflexivity.
  - exec. reflexivity.
Qed.

Section SchedulerSteps.
Variables (w : World) (j j' : gocron.Job) (job : tcpdumpJob) (timeout : Z).
Hypothesis job_scheduled : job_j job = Some j'.

Lemma run_step_spec s st :
  registered_in w j job st ->
  exists st',
    (run_step w j timeout s st = Ok tt st' \/
     run_step w j timeout s st = Blocked st') /\
    progressed w job [] st st'.
Proof.
  intros (Hjid & Hjob & Hx).
  pose proof (fun sev msg => progressed_jlog w job sev msg st Hx) as Hlog.
  destruct s; cbn [run_step].
  - unfold beforeTcpdump_logs. exec. rewrite Hjob, job_scheduled.
    eexists. split; [left; apply jlog_run | apply Hlog].
  - unfold beforeTcpdump_stores. exec.
    eexists. split; [left; reflexivity|].
    split; [reflexivity.. | cbn; now rewrite app_nil_r | cbn; lia | cbn | cbn].
    + right. exists (entropy st). split; [lia | reflexivity].
    + exists []. split; [now rewrite app_nil_r | constructor].
  - pose proof (tcpdump_outcome w sched timeout st) as Ht.
    rewrite Hjid, Hjob in Ht. unfold mbind, M_bind, bind. rewrite Ht.
    exists st. split; [|apply progressed_refl; exact Hx].
    destruct (_ && _); [left | right]; reflexivity.
  - unfold afterTcpdump_logs_complete. exec. rewrite Hjob.
    eexists. split; [left; apply jlog_run | apply Hlog].
  - unfold afterTcpdump_logs_next. exec. rewrite Hjob, job_scheduled.
    eexists. split; [left; apply jlog_run | apply Hlog].
  - unfold afterTcpdump_stores.
    eexists. split; [left; reflexivity|].
    split; [reflexivity.. | cbn; now rewrite app_nil_r | cbn; lia | cbn | cbn].
    + left. reflexivity.
    + exists []. split; [now rewrite app_nil_r | constructor].
Qed.

Lemma registered_in_progressed cs st st' :
  registered_in w j job st -> progressed w job cs st st' ->
  registered_in w j job st'.
Proof.
  intros (Hjid & Hjob & Hx) [J R T C E X _].
  split; [congruence|]. split; [rewrite R; exact Hjob | exact X].
Qed.

Lemma scheduler_runs_spec steps : forall st,
  registered_in w j job st ->
  exists st',
    scheduler_runs w j timeout steps st = Ok tt st' /\
    progressed w job [] st st'.
Proof.
  induction steps as [|s steps IH]; intros st Hst.
  - exists st. split; [reflexivity|].
    apply progressed_refl. apply Hst.
  - destruct (run_step_spec s st Hst) as (s1 & Hs1 & R1).
    destruct (IH s1 (registered_in_progressed _ _ _ Hst R1)) as (s2 & Hs2 & R2).
    exists s2. split; [|apply (progressed_trans w job [] [] st s1 s2); assumption].
    cbn [scheduler_runs]. destruct Hs1 as [-> | ->]; exact Hs2.
Qed.

End SchedulerSteps.

(* ===================================================================== *)
(** * Facts about [main] *)
(* ===================================================================== *)

Lemma existsb_cancel_uncancelled sched :
  existsb is_cancel (uncancelled sched) = false.
Proof.
  unfold uncancelled. induction sched as [|l sched IH]; [reflexivity|].
  cbn [List.filter]. destruct l; cbn; assumption.
Qed.

Lemma elapsed_uncancelled sched : elapsed (uncancelled sched) = elapsed sched.
Proof.
  unfold uncancelled, elapsed.
  induction sched as [|l sched IH]; [reflexivity|].
  destruct l; cbn [List.filter is_cancel negb fold_right];
    rewrite ?IH; reflexivity.
Qed.

Lemma existsb_return_uncancelled i sched :
  existsb (is_return i) (uncancelled sched) = existsb (is_return i) sched.
Proof.
  unfold uncancelled. induction sched as [|l sched IH]; [reflexivity|].
  destruct l; cbn [List.filter is_cancel negb existsb is_return];
    rewrite ?IH; reflexivity.
Qed.

Lemma scope_ended_uncancelled timeout sched :
  scope_ended timeout (uncancelled sched) = deadline_passed timeout sched.
Proof.
  unfold scope_ended, deadline_passed.
  rewrite existsb_cancel_uncancelled, elapsed_uncancelled. reflexivity.
Qed.

Lemma all_returned_uncancelled n sched :
  all_returned n (uncancelled sched) = all_returned n sched.
Proof.
  unfold all_returned. induction (seq 0 n) as [|i l IH]; [reflexivity|].
  cbn [forallb]. rewrite existsb_return_uncancelled, IH. reflexivity.
Qed.

Lemma with_signal_same w : with_signal (signal w) w = w.
Proof. destruct w. reflexivity. Qed.

Lemma scheduler_runs_with_signal sg w j timeout steps st :
  scheduler_runs (with_signal sg w) j timeout steps st =
  scheduler_runs w j timeout steps st.
Proof.
  revert st. induction steps as [|s steps IH]; intros st; [reflexivity|].
  cbn [scheduler_runs].
  replace (run_step (with_signal sg w) j timeout s st)
    with (run_step w j timeout s st) by (destruct s; reflexivity).
  destruct (run_step w j timeout s st); auto.
Qed.

Lemma log_entry_with_signal sg w sev job x msg :
  log_entry (with_signal sg w) sev job x msg = log_entry w sev job x msg.
Proof. reflexivity. Qed.

Section MainScheduled.
Variables (w : World) (j j' : gocron.Job) (job : tcpdumpJob) (timeout : Z)
          (acts : activity).
Hypothesis job_scheduled : job_j job = Some j'.

Lemma scheduler_runs_progressed cs steps st0 st :
  registered_in w j job st0 -> progressed w job cs st0 st ->
  exists st',
    scheduler_runs w j timeout steps st = Ok tt st' /\
    progressed w job cs st0 st'.
Proof.
  intros H0 Hp.
  destruct (scheduler_runs_spec w j j' job timeout job_scheduled steps st
              (registered_in_progressed w j job cs st0 st H0 Hp))
    as (st' & E & R).
  exists st'. split; [exact E|].
  rewrite <- (app_nil_r cs). eapply progressed_trans; eassumption.
Qed.

Lemma progressed_then_call cs c st0 st :
  progressed w job cs st0 st ->
  progressed w job (cs ++ [c]) st0 (set_calls (calls st ++ [c]) st).
Proof.
  intros Hp. eapply progressed_trans; [exact Hp|].
  apply progressed_call. apply Hp.
Qed.

Lemma progressed_then_jlog cs sev msg st0 st :
  progressed w job cs st0 st ->
  progressed w job cs st0
    (set_stdout (stdout st ++ [log_entry w sev job (xid st) msg]) st).
Proof.
  intros Hp. rewrite <- (app_nil_r cs).
  eapply progressed_trans; [exact Hp|].
  apply progressed_jlog. apply Hp.
Qed.

(** The run of [main] from [s.Start()] on: it makes the calls of the
    source in their order, returns when the signal has come and waits
    otherwise. The state in which it waits is the one in which the entry
    of the signal is printed. *)
Lemma main_scheduled_spec st :
  registered_in w j job st ->
  exists s2,
    progressed w job [CallSchedulerStart] st s2 /\
    main_scheduled (with_signal None w) j job timeout acts st = Blocked s2 /\
    forall sig,
    exists s6 post,
      main_scheduled (with_signal (Some sig) w) j job timeout acts st =
        Ok tt s6 /\
      progressed w job
        [CallSchedulerStart; CallCancel; CallStopJobs;
         CallRemoveJob (gocron.ID j); CallShutdown] st s6 /\
      stdout s6 =
        stdout s2 ++
        log_entry w INFO job (xid s2) ("signaled: " +:+ sig) :: post.
Proof.
  intros Hst.
  pose proof (progressed_then_call [] CallSchedulerStart st st
                (progressed_refl w job st (proj2 (proj2 Hst)))) as P0.
  cbn [app] in P0.
  destruct (scheduler_runs_progressed _ (during acts 0) _ _ Hst P0)
    as (s1 & E1 & P1).
  pose proof (progressed_then_jlog _ INFO
                ("next execution: " +:+ NextRun w j) _ _ P1) as P1'.
  destruct (scheduler_runs_progressed _ (during acts 1) _ _ Hst P1')
    as (s2 & E2 & P2).
  assert (Hwait : forall sg (k : M unit),
             (call CallSchedulerStart;;
              scheduler_runs (with_signal sg w) j timeout (during acts 0);;
              jlog (with_signal sg w) INFO job
                ("next execution: " +:+ NextRun (with_signal sg w) j);;
              scheduler_runs (with_signal sg w) j timeout (during acts 1);;
              k) st = k s2).
  { intros sg k. unfold mbind, M_bind. rewrite bind_call. unfold bind at 1.
    rewrite scheduler_runs_with_signal, E1.
    rewrite bind_jlog, log_entry_with_signal. cbn [NextRun with_signal].
    unfold bind at 1. rewrite scheduler_runs_with_signal, E2. reflexivity. }
  exists s2. split; [exact P2|]. split.
  { unfold main_scheduled. cbn [signal with_signal]. apply Hwait. }
  intros sig.
  pose proof (progressed_then_jlog _ INFO ("signaled: " +:+ sig) _ _ P2) as P2'.
  destruct (scheduler_runs_progressed _ (during acts 2) _ _ Hst P2')
    as (s3 & E3 & P3).
  pose proof (progressed_then_call _ CallCancel _ _ P3) as P3'.
  destruct (scheduler_runs_progressed _ (during acts 3) _ _ Hst P3')
    as (s4 & E4 & P4).
  pose proof (progressed_then_call _ CallStopJobs _ _ P4) as P4'.
  destruct (scheduler_runs_progressed _ (during acts 4) _ _ Hst P4')
    as (s5 & E5 & P5).
  pose proof (progressed_then_call _ (CallRemoveJob (gocron.ID j)) _ _ P5)
    as P5'.
  destruct (scheduler_runs_progressed _ (during acts 5) _ _ Hst P5')
    as (s6 & E6 & P6).
  pose proof (progressed_then_call _ CallShutdown _ _ P6) as P6'.
  cbn [app] in P6'.
  assert (Hout : exists post,
             stdout s6 =
             stdout s2 ++
             log_entry w INFO job (xid s2) ("signaled: " +:+ sig) :: post).
  { pose proof (progressed_refl w job _
                  (pr_xid _ _ _ _ _ P2')) as Q2.
    destruct (scheduler_runs_spec w j j' job timeout job_scheduled
                (during acts 2) _
                (registered_in_progressed w j job _ _ _ Hst P2'))
      as (s3' & E3' & R3).
    rewrite E3 in E3'. inversion E3'; subst s3'.
    destruct (pr_stdout _ _ _ _ _ R3) as (p3 & O3 & _).
    assert (R46 : progressed w job
                    [CallCancel; CallStopJobs; CallRemoveJob (gocron.ID j)]
                    s3 s6).
    { pose proof (progressed_then_call [] CallCancel s3 s3
                    (progressed_refl w job s3 (pr_xid _ _ _ _ _ P3))) as A.
      cbn [app] in A.
      pose proof (registered_in_progressed w j job _ _ _ Hst P3) as H3.
      destruct (scheduler_runs_progressed _ (during acts 3) _ _ H3 A)
        as (s4' & E4' & A4).
      rewrite E4 in E4'. inversion E4'; subst s4'.
      pose proof (progressed_then_call _ CallStopJobs _ _ A4) as A4'.
      destruct (scheduler_runs_progressed _ (during acts 4) _ _ H3 A4')
        as (s5' & E5' & A5).
      rewrite E5 in E5'. inversion E5'; subst s5'.
      pose proof (progressed_then_call _ (CallRemoveJob (gocron.ID j)) _ _ A5)
        as A5'.
      destruct (scheduler_runs_progressed _ (during acts 5) _ _ H3 A5')
        as (s6' & E6' & A6).
      rewrite E6 in E6'. inversion E6'; subst s6'. exact A6. }
    destruct (pr_stdout _ _ _ _ _ R46) as (p6 & O6 & _).
    exists (p3 ++ p6). rewrite O6, O3. cbn [stdout set_stdout].
    rewrite <- !app_assoc. reflexivity. }
  destruct Hout as (post & Hout).
  exists (set_calls (calls s6 ++ [CallShutdown]) s6), post.
  split; [|split; [exact P6' | exact Hout]].
  unfold main_scheduled. cbn [signal with_signal].
  rewrite (Hwait (Some sig)).
  unfold mbind, M_bind.
  rewrite bind_jlog, log_entry_with_signal. unfold bind at 1.
  rewrite scheduler_runs_with_signal, E3. rewrite bind_call.
  unfold bind at 1. rewrite scheduler_runs_with_signal, E4.
  rewrite bind_call. unfold bind at 1.
  rewrite scheduler_runs_with_signal, E5. rewrite bind_call.
  unfold bind at 1. rewrite scheduler_runs_with_signal, E6. reflexivity.
Qed.

End MainScheduled.

(** The run of [main], as computed by [main_outcome]. *)
Lemma main_unfold w fl sched acts :
  main w fl sched acts (initial_state fl) = main_outcome w fl sched acts.
Proof.
  unfold main, main_outcome, main_devices. exec.
  destruct (Regexp.MustCompile _ _) as [re|]; [|reflexivity].
  unfold devices_tasks, prologue, devices_entries, timezone_entries,
    effective_location, effective_timezone, main_timeout, main_state,
    placeholder_entry.
  set (devices := FindDevicesByRegex w re).
  destruct (flat_map (iface_tasks w _ _ _ _ _ _ _ _ _) devices)
    as [|task tasks]; cbn [length Nat.eqb].
  - exec. reflexivity.
  - destruct (flags.use_cron fl); cbn [negb]; exec.
    + destruct (LoadLocation w (flags.timezone fl)) as [location | err];
        exec;
        (destruct (NewScheduler w _); exec;
         [rewrite <- ?app_assoc; reflexivity |]);
        (destruct (NewJob w _) as [j | err']; exec;
         [| rewrite <- ?app_assoc; reflexivity]);
        rewrite <- ?app_assoc; reflexivity.
    + rewrite scope_ended_uncancelled, all_returned_uncancelled.
      destruct (_ && _); exec; reflexivity.
Qed.

Lemma main_started_registered w j tasks tz out cs :
  registered_in w j (registered_job j tasks)
    (main_state (gocron.ID j) {[gocron.ID j := registered_job j tasks]}
       tz out cs).
Proof.
  split; [reflexivity|]. split; [apply lookup_singleton_eq | left; reflexivity].
Qed.

(** [main] from [s.Start()] on, in the state in which [main] starts the
    scheduler. *)
Lemma main_scheduled_final w j tasks timeout acts tz out cs :
  let job := registered_job j tasks in
  let st := main_state (gocron.ID j) {[gocron.ID j := job]} tz out cs in
  exists s',
    main_scheduled w j job timeout acts st =
      match signal w with Some _ => Ok tt s' | None => Blocked s' end /\
    progressed w job
      (CallSchedulerStart ::
       match signal w with
       | Some _ => [CallCancel; CallStopJobs; CallRemoveJob (gocron.ID j);
                    CallShutdown]
       | None => []
       end) st s'.
Proof.
  intros job st.
  destruct (main_scheduled_spec w j j job timeout acts eq_refl st
              (main_started_registered w j tasks tz out cs))
    as (s2 & P2 & E2 & Hsig).
  replace (main_scheduled w j job timeout acts st)
    with (main_scheduled (with_signal (signal w) w) j job timeout acts st)
    by (rewrite with_signal_same; reflexivity).
  destruct (signal w) as [sig|].
  - destruct (Hsig sig) as (s6 & post & E6 & P6 & _). eauto.
  - eauto.
Qed.

Lemma prologue_stamped w fl devices :
  Forall (stamped emptyTcpdumpJob uuid.Nil) (prologue w fl devices).
Proof.
  unfold prologue. apply Forall_app. split.
  - repeat constructor.
  - apply Forall_flat_map_intro. intros iface. apply iface_entries_stamped.
Qed.

Lemma timezone_entries_stamped w fl :
  Forall (stamped emptyTcpdumpJob uuid.Nil) (timezone_entries w fl).
Proof.
  unfold timezone_entries.
  destruct (LoadLocation w (flags.timezone fl)); repeat constructor.
Qed.

(** The entries of a run of [main] carry the placeholder job and no
    execution identity, or the job that [main] has registered and an
    execution identity that is nil or has been drawn. *)
Lemma main_entries_stamped w fl sched acts :
  let s := final_state (main w fl sched acts (initial_state fl)) in
  Forall (fun e =>
            stamped emptyTcpdumpJob uuid.Nil e \/
            exists job x,
              jobs s !! jid s = Some job /\
              Jid job = uuid.String (jid s) /\
              identity_drawn w (entropy s) x /\
              stamped job x e)
         (stdout s).
Proof.
  cbv zeta. rewrite main_unfold. unfold main_outcome.
  assert (Hl : forall (P : jLogEntry -> Prop) l,
             (forall e, stamped emptyTcpdumpJob uuid.Nil e -> P e) ->
             Forall (stamped emptyTcpdumpJob uuid.Nil) l -> Forall P l).
  { intros P l HP Hf. eapply List.Forall_impl; [exact HP | exact Hf]. }
  destruct (main_devices w) as [devices|];
    [| cbn [final_state stdout main_state]; repeat constructor; left;
       repeat split].
  pose proof (prologue_stamped w fl devices) as Hpro.
  pose proof (timezone_entries_stamped w fl) as Htz.
  destruct (devices_tasks w fl devices) as [|task tasks].
  { cbn [final_state stdout main_state]. apply Hl; [auto|]. apply Forall_app. split; [exact Hpro|].
    repeat constructor. }
  destruct (flags.use_cron fl).
  - destruct (NewScheduler w _).
    { cbn [final_state stdout main_state]. apply Hl; [auto|]. rewrite !List.Forall_app.
      repeat split; try assumption; repeat constructor. }
    destruct (NewJob w _) as [j|err].
    2:{ cbn [final_state stdout main_state]. apply Hl; [auto|]. rewrite !List.Forall_app.
        repeat split; try assumption; repeat constructor. }
    destruct (main_scheduled_final w j (task :: tasks) (main_timeout fl) acts
                (effective_timezone w fl)
                (((prologue w fl devices ++
                   [placeholder_entry w INFO
                      ("parsed timeout: " +:+
                       Duration_String w (main_timeout fl))]) ++
                  timezone_entries w fl) ++
                 [log_entry w INFO (registered_job j (task :: tasks)) uuid.Nil
                    "scheduled job"])
                [CallNewScheduler
                   (scheduler_options w (effective_location w fl));
                 CallNewJob
                   (job_definition (effective_timezone w fl)
                      (flags.cron_exp fl) (main_timeout fl))])
      as (s' & E & [J R T C En X (printed & O & F)]).
    cbv zeta in E. rewrite E.
    assert (Hs : final_state
                   (match signal w with
                    | Some _ => Ok tt s'
                    | None => Blocked s'
                    end) = s') by (destruct (signal w); reflexivity).
    rewrite Hs. rewrite O. cbn [stdout main_state jid jobs] in *.
    assert (Hreg : jobs s' !! jid s' = Some (registered_job j (task :: tasks))).
    { rewrite R, J. apply lookup_singleton_eq. }
    rewrite !List.Forall_app. repeat split.
    + apply Hl; [auto | exact Hpro].
    + apply List.Forall_cons; [left; repeat split | constructor].
    + apply Hl; [auto | exact Htz].
    + apply List.Forall_cons; [|constructor]. right.
      exists (registered_job j (task :: tasks)), uuid.Nil.
      split; [exact Hreg|]. split; [rewrite J; reflexivity|].
      split; [left; reflexivity | repeat split].
    + eapply List.Forall_impl; [|exact F]. intros e (x & Hx & He).
      right. exists (registered_job j (task :: tasks)), x.
      split; [exact Hreg|]. split; [rewrite J; reflexivity|]. auto.
  - assert (Hout : Forall (stamped emptyTcpdumpJob uuid.Nil)
                     (prologue w fl devices ++
                      [placeholder_entry w INFO
                         ("parsed timeout: " +:+
                          Duration_String w (main_timeout fl))])).
    { apply Forall_app. split; [exact Hpro | repeat constructor]. }
    destruct (_ && _); cbn [final_state stdout main_state];
      (apply Hl; [auto | exact Hout]).
Qed.

Lemma built_tasks_devices w fl :
  built_tasks w fl =
  match main_devices w with
  | Some devices => Some (devices_tasks w fl devices)
  | None => None
  end.
Proof.
  rewrite built_tasks_alone. unfold main_devices.
  destruct (Regexp.MustCompile _ _); reflexivity.
Qed.

(** The run in which the signal comes goes on from the state in which
    [main] waits as long as it has not come: the entry of the signal
    carries the execution identity current in that state. *)
Lemma main_waiting_then_signaled w fl sched acts sig s0 :
  flags.use_cron fl = true ->
  main (with_signal None w) fl sched acts (initial_state fl) = Blocked s0 ->
  exists job post,
    jobs s0 !! jid s0 = Some job /\
    stdout (final_state
              (main (with_signal (Some sig) w) fl sched acts (initial_state fl)))
    = stdout s0 ++
      log_entry w INFO job (xid s0) ("signaled: " +:+ sig) :: post.
Proof.
  intros Hc H. rewrite main_unfold in *. unfold main_outcome in *.
  rewrite Hc in *.
  change (main_devices (with_signal (Some sig) w)) with (main_devices w).
  change (main_devices (with_signal None w)) with (main_devices w) in H.
  destruct (main_devices w) as [devices|]; [|discriminate].
  change (devices_tasks (with_signal (Some sig) w) fl devices)
    with (devices_tasks w fl devices).
  change (devices_tasks (with_signal None w) fl devices)
    with (devices_tasks w fl devices) in H.
  destruct (devices_tasks w fl devices) as [|task tasks]; [discriminate|].
  change (NewScheduler (with_signal (Some sig) w)) with (NewScheduler w).
  change (NewScheduler (with_signal None w)) with (NewScheduler w) in H.
  change (scheduler_options (with_signal (Some sig) w))
    with (scheduler_options w).
  change (scheduler_options (with_signal None w))
    with (scheduler_options w) in H.
  change (effective_location (with_signal (Some sig) w))
    with (effective_location w).
  change (effective_location (with_signal None w))
    with (effective_location w) in H.
  change (effective_timezone (with_signal (Some sig) w))
    with (effective_timezone w).
  change (effective_timezone (with_signal None w))
    with (effective_timezone w) in H.
  destruct (NewScheduler w _); [discriminate|].
  change (NewJob (with_signal (Some sig) w)) with (NewJob w).
  change (NewJob (with_signal None w)) with (NewJob w) in H.
  destruct (NewJob w _) as [j|err]; [|discriminate].
  change (prologue (with_signal (Some sig) w)) with (prologue w).
  change (prologue (with_signal None w)) with (prologue w) in H.
  change (timezone_entries (with_signal (Some sig) w))
    with (timezone_entries w).
  change (timezone_entries (with_signal None w))
    with (timezone_entries w) in H.
  change (placeholder_entry (with_signal (Some sig) w))
    with (placeholder_entry w).
  change (placeholder_entry (with_signal None w))
    with (placeholder_entry w) in H.
  change (Duration_String (with_signal (Some sig) w))
    with (Duration_String w).
  change (Duration_String (with_signal None w))
    with (Duration_String w) in H.
  change (log_entry (with_signal (Some sig) w)) with (log_entry w).
  change (log_entry (with_signal None w)) with (log_entry w) in H.
  match type of H with
  | main_scheduled _ j ?job ?t acts ?st = _ =>
      destruct (main_scheduled_spec w j j job t acts eq_refl st
                  (main_started_registered w j (task :: tasks) _ _ _))
        as (s2 & P2 & E2 & Hsig)
  end.
  rewrite E2 in H. inversion H; subst s0.
  destruct (Hsig sig) as (s6 & post & E6 & P6 & O6).
  rewrite E6. cbn [final_state].
  exists (registered_job j (task :: tasks)), post. split; [|exact O6].
  rewrite (pr_jobs _ _ _ _ _ P2), (pr_jid _ _ _ _ _ P2).
  apply lookup_singleton_eq.
Qed.

(* ===================================================================== *)
(** * The properties *)
(* ===================================================================== *)

(** C2 (amended). [start] returns exactly when the scope of the execution
    has ended (the scope it was given has ended, or the deadline derived
    for a positive timeout has passed) and every per-task goroutine has
    returned: whatever the scope, the timeout, the tasks and the schedule
    of events, once its own goroutine has gone as far as it can, [start]
    has returned iff both hold. Engines that finish on their own do not
    end the run while the scope lasts, and with timeout 0 the scope ends
    only when the scope given to [start] does. *)
Theorem start_returns_iff_scope_ended_and_engines_returned :
  forall (ctx : Context) (timeout : Z) (tasks : list pcapTask)
         (sched : list label),
    returned (start_settle (start_exec (start_init ctx timeout tasks) sched))
    = scope_ended timeout sched && all_returned (length tasks) sched
    /\ scope_ended 0 sched = existsb is_cancel sched.
Proof.
  intros ctx timeout tasks sched. split.
  - apply StartFacts.start_returned_iff.
  - unfold scope_ended. simpl. apply orb_false_r.
Qed.

(** C2, as stated, fails: with timeout 0 and the scope never cancelled,
    the engine of the only task returns on its own, an hour passes, and
    [start] is still waiting at [<-ctx.Done()]. *)
Lemma start_waits_after_engines_finish :
  let sched := [EngineReturns 0; Main; Elapse 3600000000000; Main] in
  all_returned 1 sched = true /\
  returned (start_settle
    (start_exec (start_init (WithCancel Background) 0 [sample_task]) sched))
  = false /\
  s_pc (start_exec (start_init (WithCancel Background) 0 [sample_task]) sched)
  = AwaitDone.
Proof. repeat split. Qed.

(** C6. Failures are independent per interface: the loop over the
    devices of [devicesA] followed by those of [devicesB] always runs to
    its end, and the tasks it adds for [devicesB] are those that each of
    its interfaces yields on its own, whatever failed on [devicesA]; and
    every failure detected on an interface (it cannot be resolved, an
    engine or a sink cannot be built) is printed as an ERROR entry, in the
    order of detection, the ERROR entries being exactly those. *)
Theorem createTasks_partial_failure_independence :
  forall (w : World) (directory extension filter : string)
         (snaplen interval : Z) (tcpdump jsondump jsonlog ordered : bool)
         (devicesA devicesB : list string) (tasks : list pcapTask)
         (st : State),
    createTasks_loop w directory extension filter snaplen interval
      tcpdump jsondump jsonlog ordered tasks (devicesA ++ devicesB) st =
    Ok (tasks ++
        flat_map (iface_tasks w directory extension filter snaplen interval
                    tcpdump jsondump jsonlog ordered) devicesA ++
        flat_map (iface_tasks w directory extension filter snaplen interval
                    tcpdump jsondump jsonlog ordered) devicesB)
       (set_stdout
          (stdout st ++
           flat_map (iface_entries w directory extension filter snaplen
                       interval tcpdump jsondump jsonlog ordered (xid st))
             devicesA ++
           flat_map (iface_entries w directory extension filter snaplen
                       interval tcpdump jsondump jsonlog ordered (xid st))
             devicesB)
          st)
    /\
    forall (x : uuid.UUID) (iface : string),
      map Message
        (List.filter is_error_entry
           (iface_entries w directory extension filter snaplen interval
              tcpdump jsondump jsonlog ordered x iface)) =
      detected_failures w directory extension filter snaplen interval
        tcpdump jsondump jsonlog ordered iface.
Proof.
  intros. split.
  - rewrite createTasks_loop_alone, !flat_map_app. reflexivity.
  - intros. apply iface_errors_are_failures.
Qed.

(** C9. Every capture configuration that the task factory builds has
    promiscuous mode set and an empty timestamp type: this holds of
    [newPcapConfig] for all its arguments, it is kept when the ordering
    of the decoded format is set, and it holds of the configuration of
    the engine of every task that [createTasks] returns, for every world
    (environment variables included) and every value of the flags. *)
Theorem createTasks_promiscuous :
  forall (w : World) (directory extension filter : string)
         (snaplen interval : Z) (tcpdump jsondump jsonlog ordered : bool)
         (st : State) (iface format output : string),
    let cfg := newPcapConfig iface format output extension filter
                 snaplen interval in
    (pcap.Promisc cfg = true /\ pcap.TsType cfg = EmptyString) /\
    (pcap.Promisc (pcap.set_Ordered cfg ordered) = true /\
     pcap.TsType (pcap.set_Ordered cfg ordered) = EmptyString) /\
    match createTasks w directory extension filter snaplen interval
            tcpdump jsondump jsonlog ordered st with
    | Ok tasks _ => forallb promiscuous_untyped tasks = true
    | _ => True
    end.
Proof.
  intros. repeat split.
  rewrite createTasks_alone.
  destruct (Regexp.MustCompile _ _); [|exact I].
  apply forallb_flat_map. intros a. apply iface_tasks_promiscuous.
Qed.

(** C3, on the code: with the decoded file sink enabled and console
    mirroring disabled, nothing of the decoded capture is set up. On a
    host with the one interface [eth0], where every constructor would
    succeed, [createTasks] returns the raw task alone and prints nothing
    about the decoded capture; with console mirroring enabled as well it
    returns both tasks. *)
Lemma createTasks_jsondump_without_jsonlog :
  let w := sample_world "eth" ["eth0"] [] in
  let run jsonlog :=
    createTasks w "/pcap" "pcap" EmptyString 0 60 true true jsonlog false
      (blank_state uuid.Nil) in
  (exists tasks st,
      run false = Ok tasks st /\
      map is_decoded_task tasks = [false] /\
      map Message (stdout st) =
        ["configuring PCAP for iface: 4/eth0";
         "configured 'tcpdump' for iface: 4/eth0"]) /\
  (exists tasks st,
      run true = Ok tasks st /\
      map is_decoded_task tasks = [false; true]).
Proof.
  split; eexists; eexists; (split; [vm_compute; reflexivity |]);
    repeat split.
Qed.

(** C4, on the code: with a time zone that cannot be loaded, [main] first
    assigns [UTC] to the flag and to the location and only then prints the
    ERROR entry, which for the zone [Mars/Phobos] therefore names [UTC] as
    the zone that could not be loaded. It is the only ERROR entry, and the
    scheduler is created in [UTC]. *)
Lemma main_timezone_fallback_logs_after_substitution :
  let w := sample_world "eth" ["eth0"] [] in
  let fl := sample_flags true "Mars/Phobos" true false false in
  let s := final_state (main w fl [] [] (initial_state fl)) in
  map Message (List.filter is_error_entry (stdout s)) =
    ["could not load timezone 'UTC': unknown time zone Mars/Phobos"] /\
  timezone s = "UTC" /\
  nth_error (calls s) 0 =
    Some (CallNewScheduler (scheduler_options w time.UTC)).
Proof. vm_compute. repeat split. Qed.

(** C5. The exit status of the process, by cause. When the interface
    expression does not compile [main] panics, with no exit status of
    its own. When no task could be built, [main] exits with 1, and the
    ERROR entry saying that no tasks are available is the last thing
    printed, no entry before it saying the same. With tasks and
    scheduling enabled, it exits with 2 when the scheduler cannot be
    created, with 3 when the job cannot be created, and otherwise
    returns (status 0) once the termination signal has come, whatever
    the scheduler does meanwhile. With tasks and no scheduling it
    returns (status 0) when [start] returns, which is when the deadline
    of a positive timeout has passed and all engines have returned. *)
Theorem main_exit_codes :
  forall (w : World) (fl : flags.t) (sched : list label) (acts : activity),
    let r := main w fl sched acts (initial_state fl) in
    match built_tasks w fl with
    | None => exit_code r = None
    | Some [] =>
        exit_code r = Some 1%Z /\
        exists before,
          stdout (final_state r) =
            before ++ [log_entry w ERROR emptyTcpdumpJob uuid.Nil
                         "no PCAP tasks available"] /\
          forallb (fun e => negb (is_no_tasks_entry e)) before = true
    | Some (task :: tasks) =>
        if flags.use_cron fl then
          match NewScheduler w (scheduler_options w (effective_location w fl)) with
          | Some _ => exit_code r = Some 2%Z
          | None =>
              match NewJob w (job_definition (effective_timezone w fl)
                                (flags.cron_exp fl) (main_timeout fl)) with
              | inr _ => exit_code r = Some 3%Z
              | inl _ =>
                  exit_code r =
                  match signal w with Some _ => Some 0%Z | None => None end
              end
          end
        else
          exit_code r =
          if deadline_passed (main_timeout fl) sched &&
             all_returned (length (task :: tasks)) sched
          then Some 0%Z else None
    end.
Proof.
  intros w fl sched acts r. subst r.
  rewrite built_tasks_devices, main_unfold. unfold main_outcome.
  destruct (main_devices w) as [devices|]; [|reflexivity].
  destruct (devices_tasks w fl devices) as [|task tasks] eqn:Et.
  - split; [reflexivity|]. cbn [final_state stdout main_state].
    eexists. split; [reflexivity|].
    unfold prologue, devices_entries.
    cbn [app forallb]. apply andb_true_iff. split; [reflexivity|].
    apply forallb_flat_map. intros iface. apply iface_entries_not_no_tasks.
  - destruct (flags.use_cron fl).
    + destruct (NewScheduler w _); [reflexivity|].
      destruct (NewJob w _) as [j|err]; [|reflexivity].
      match goal with
      | |- context [main_scheduled w j ?job ?t acts
                      (main_state _ _ ?tz ?out ?cs)] =>
          destruct (main_scheduled_final w j (task :: tasks) t acts tz out cs)
            as (s' & E & _)
      end.
      cbv zeta in E. rewrite E. destruct (signal w); reflexivity.
    + destruct (_ && _); reflexivity.
Qed.

(** C7 (amended). For every interface pattern that is valid UTF-8 and
    holds no character with a meaning of its own in a regular expression,
    nor U+FFFD, the device selector returns exactly the host interface
    names of the documented form: an optional [ipvlan-] prefix, the
    pattern itself, then at least one digit, followed by anything. *)
Theorem selectDevices_literal_pattern :
  forall (w : World) (st : State),
    literal_pattern (ifacePattern w) = true ->
    selectDevices w st =
    Ok (List.filter (documented_form (ifacePattern w)) (host_interfaces w)) st.
Proof.
  intros w st Hlit.
  unfold selectDevices.
  rewrite (IfaceRegexp.MustCompile_literal _ _ Hlit).
  unfold ret, FindDevicesByRegex, host_interfaces. f_equal.
  destruct (FindAllDevs w) as [names | err]; [|reflexivity].
  apply filter_ext. intros name.
  apply IfaceRegexp.MatchString_literal. exact Hlit.
Qed.

(** The pattern [eth] on a host with [eth0], [lo] and [ipvlan-eth1]:
    [eth0] and [ipvlan-eth1] are selected, [lo] is not. *)
Lemma selectDevices_literal_pattern_witness :
  let w := sample_world "eth" ["eth0"; "lo"; "ipvlan-eth1"] [] in
  literal_pattern (ifacePattern w) = true /\
  selectDevices w (blank_state uuid.Nil) =
  Ok ["eth0"; "ipvlan-eth1"] (blank_state uuid.Nil).
Proof.
  split; [reflexivity|].
  exact (selectDevices_literal_pattern
           (sample_world "eth" ["eth0"; "lo"; "ipvlan-eth1"] [])
           (blank_state uuid.Nil) eq_refl).
Defined.

(** C7, as stated for every pattern, fails: the pattern is spliced into
    the expression as it is, not as a literal. With the pattern
    [(eth|ens)] the selector returns [eth0] and [ens4], neither of which
    has the documented form for that pattern. With a pattern that is not
    valid UTF-8 (here [eth] followed by the byte FF) the expression does
    not compile and [createTasks] panics, although the host has a name
    of the documented form. With U+FFFD in the pattern (here [eth]
    followed by the bytes EF BF BD) the selector returns the name
    [eth], FF, [0], which does not contain the pattern. *)
Lemma selectDevices_pattern_read_as_expression :
  let w := sample_world "(eth|ens)" ["eth0"; "lo"; "ens4"] [] in
  let invalid := "eth" +:+ String (ascii_of_nat 255) EmptyString in
  let replacement :=
    "eth" +:+ String (ascii_of_nat 239)
                (String (ascii_of_nat 191)
                   (String (ascii_of_nat 189) EmptyString)) in
  (selectDevices w (blank_state uuid.Nil) =
     Ok ["eth0"; "ens4"] (blank_state uuid.Nil) /\
   List.filter (documented_form (ifacePattern w)) (host_interfaces w) = [])
  /\
  (selectDevices (sample_world invalid [invalid +:+ "0"] [])
     (blank_state uuid.Nil) = Panic (blank_state uuid.Nil) /\
   documented_form invalid (invalid +:+ "0") = true)
  /\
  (selectDevices (sample_world replacement [invalid +:+ "0"] [])
     (blank_state uuid.Nil) = Ok [invalid +:+ "0"] (blank_state uuid.Nil) /\
   documented_form replacement (invalid +:+ "0") = false).
Proof. repeat split; vm_compute; reflexivity. Qed.

(** C8. Every entry that [jlog] prints carries the identity, the name and
    the tags of the job it is given, with the execution identity read from
    [xid] when the entry is printed: in the JSON line the job object has
    the execution identity first, then the job identity and name, and the
    tags come at top level. With the placeholder job and no execution the
    job object holds the nil UUID twice. In a run of [main], whatever the
    scheduler does meanwhile, every entry carries either the placeholder
    job and the nil execution identity, or the job that [main] has
    registered (whose identity is the current job identity) and an
    execution identity that is nil or that [beforeTcpdump] has drawn; and
    the entry that reports the signal carries the execution identity that
    is current when the signal comes, the one of the state in which
    [main] was waiting. The listeners print for
    the job registered under the identity they are called with, and
    [tcpdump] prints for the placeholder, each with the execution
    identity current at that time. *)
Theorem jlog_stamps_job_and_execution :
  forall (w : World) (severity : jLogLevel) (job : tcpdumpJob)
         (message : string) (st : State),
    (jlog w severity job message st =
       Ok tt (set_stdout
                (stdout st ++ [log_entry w severity job (xid st) message]) st)
     /\ stamped job (xid st) (log_entry w severity job (xid st) message)
     /\ Marshal (log_entry w severity job (xid st) message) =
        JObject
          ([("severity", JString (jLogLevel_string severity));
            ("message", JString message);
            ("sidecar", JString (sidecar w));
            ("module", JString (module w));
            ("job", JObject (("xid", JString (uuid.String (xid st))) ::
                             omitempty "jid" (Jid job) ++
                             omitempty "name" (Name job)))] ++
           match Tags job with
           | [] => []
           | _ :: _ => [("tags", JArray (map JString (Tags job)))]
           end))
    /\
    field "job" (Marshal (log_entry w severity emptyTcpdumpJob uuid.Nil message))
      = Some (JObject [("xid", JString nil_uuid_string);
                       ("jid", JString nil_uuid_string)])
    /\
    (forall (fl : flags.t) (sched : list label) (acts : activity),
        let s := final_state (main w fl sched acts (initial_state fl)) in
        Forall (fun e =>
                  stamped emptyTcpdumpJob uuid.Nil e \/
                  exists registered x,
                    jobs s !! jid s = Some registered /\
                    Jid registered = uuid.String (jid s) /\
                    identity_drawn w (entropy s) x /\
                    stamped registered x e)
               (stdout s))
    /\
    (forall (fl : flags.t) (sched : list label) (acts : activity)
            (sig : string) (waiting : State),
        flags.use_cron fl = true ->
        main (with_signal None w) fl sched acts (initial_state fl)
          = Blocked waiting ->
        exists registered,
          jobs waiting !! jid waiting = Some registered /\
          In (log_entry w INFO registered (xid waiting)
                ("signaled: " +:+ sig))
             (stdout (final_state
                        (main (with_signal (Some sig) w) fl sched acts
                           (initial_state fl)))))
    /\
    (forall (id : uuid.UUID) (name : string) (sched : list label) (timeout : Z),
        (exists printed,
            stdout (final_state (beforeTcpdump w id name st)) =
              stdout st ++ printed /\
            Forall (fun e => exists registered,
                        jobs st !! id = Some registered /\
                        stamped registered (xid st) e) printed) /\
        (exists printed,
            stdout (final_state (afterTcpdump w id name st)) =
              stdout st ++ printed /\
            Forall (fun e => exists registered,
                        jobs st !! id = Some registered /\
                        stamped registered (xid st) e) printed) /\
        (exists printed,
            stdout (final_state (tcpdump w sched timeout st)) =
              stdout st ++ printed /\
            Forall (stamped emptyTcpdumpJob (xid st)) printed)).
Proof.
  intros w severity job message st. split; [|split; [|split; [|split]]].
  - split; [reflexivity|]. split; [repeat split|].
    unfold Marshal, Marshal_job, log_entry. cbn [Job Xid Jid Name with_Xid
      Severity Message Sidecar LogModule LogTags].
    unfold omitempty at 1. rewrite uuid_String_nonempty. reflexivity.
  - reflexivity.
  - intros fl sched acts. apply main_entries_stamped.
  - intros fl sched acts sig waiting Hc Hw.
    destruct (main_waiting_then_signaled w fl sched acts sig waiting Hc Hw)
      as (registered & post & Hreg & Hout).
    exists registered. split; [exact Hreg|].
    rewrite Hout. apply in_or_app. right. left. reflexivity.
  - intros id name sched timeout. split; [|split].
    + unfold beforeTcpdump. exec.
      destruct (jobs st !! id) as [registered|] eqn:E.
      * destruct (job_j registered); exec.
        -- eexists. split; [reflexivity|]. repeat constructor.
           exists registered. split; [reflexivity | repeat split].
        -- exists []. split; [now rewrite app_nil_r | constructor].
      * exec. exists []. split; [now rewrite app_nil_r | constructor].
    + unfold afterTcpdump. exec.
      destruct (jobs st !! id) as [registered|] eqn:E.
      * exec. destruct (job_j registered); exec.
        -- eexists. split; [rewrite <- app_assoc; reflexivity|].
           repeat constructor;
             (exists registered; split; [reflexivity | repeat split]).
        -- eexists. split; [reflexivity|]. repeat constructor.
           exists registered. split; [reflexivity | repeat split].
      * exec. exists []. split; [now rewrite app_nil_r | constructor].
    + pose proof (tcpdump_outcome w sched timeout st) as H.
      destruct (jobs st !! jid st) as [registered|].
      * rewrite H. exists []. split; [|constructor].
        rewrite app_nil_r. destruct (_ && _); reflexivity.
      * rewrite H. eexists. split; [reflexivity|]. repeat constructor.
Qed.

(** An execution is in flight when the signal comes: the scheduler has
    called [beforeTcpdump] and the task is running. The entry of the
    signal carries the identity drawn for the execution, not the nil
    identity. *)
Lemma jlog_stamps_job_and_execution_witness :
  let w := sample_world "eth" ["eth0"] [] in
  let fl := sample_flags true "UTC" true false false in
  let acts := [[]; [BeforeLogs; BeforeStores; TaskRuns []]] in
  let waiting :=
    final_state (main (with_signal None w) fl [] acts (initial_state fl)) in
  exists registered,
    jobs waiting !! jid waiting = Some registered /\
    xid waiting = uuid_New w 0 /\ xid waiting <> uuid.Nil /\
    In (log_entry w INFO registered (xid waiting) "signaled: terminated")
       (stdout (final_state
                  (main (with_signal (Some "terminated") w) fl [] acts
                     (initial_state fl)))).
Proof.
  cbv zeta.
  assert (Hw : main (with_signal None (sample_world "eth" ["eth0"] []))
                 (sample_flags true "UTC" true false false) []
                 [[]; [BeforeLogs; BeforeStores; TaskRuns []]]
                 (initial_state (sample_flags true "UTC" true false false)) =
               Blocked
                 (final_state
                    (main (with_signal None (sample_world "eth" ["eth0"] []))
                       (sample_flags true "UTC" true false false) []
                       [[]; [BeforeLogs; BeforeStores; TaskRuns []]]
                       (initial_state
                          (sample_flags true "UTC" true false false)))))
    by (vm_compute; reflexivity).
  destruct (proj1 (proj2 (proj2 (proj2
              (jlog_stamps_job_and_execution
                 (sample_world "eth" ["eth0"] []) INFO emptyTcpdumpJob
                 EmptyString (blank_state uuid.Nil)))))
              (sample_flags true "UTC" true false false) []
              [[]; [BeforeLogs; BeforeStores; TaskRuns []]]
              "terminated" _ eq_refl Hw)
    as (registered & Hreg & Hout).
  exists registered.
  split; [exact Hreg|]. split; [vm_compute; reflexivity|].
  split; [vm_compute; discriminate | exact Hout].
Defined.

(** C10. [tcpdump] returns an error if and only if the current job
    identity is not in the registry. In that case it prints one ERROR
    entry, for the placeholder job, and returns at once, without starting
    any task (what happens does not depend on any schedule of the
    engines). Otherwise its result is that of [start], which is [nil] on
    every path on which it returns: [tcpdump] returns [nil] when the
    scope has ended and all engines have returned, and is waiting
    until then. *)
Theorem tcpdump_error_iff_job_absent :
  forall (w : World) (sched : list label) (timeout : Z) (st : State),
    match jobs st !! jid st with
    | None =>
        let message := "job[id:" +:+ uuid.String (jid st) +:+ "] not found" in
        tcpdump w sched timeout st =
        Ok (Some message)
           (set_stdout
              (stdout st ++
               [log_entry w ERROR emptyTcpdumpJob (xid st) message]) st)
    | Some job =>
        tcpdump w sched timeout st =
        if scope_ended timeout sched &&
           all_returned (length (job_tasks job)) sched
        then Ok None st else Blocked st
    end
    /\
    ((exists err st', tcpdump w sched timeout st = Ok (Some err) st') <->
     jobs st !! jid st = None)
    /\
    (forall ctx tasks,
        start sched ctx timeout tasks st = Ok None st \/
        start sched ctx timeout tasks st = Blocked st).
Proof.
  intros w sched timeout st.
  pose proof (tcpdump_outcome w sched timeout st) as H.
  split; [exact H|]. split.
  - destruct (jobs st !! jid st) as [job|].
    + split; [|discriminate]. intros (err & st' & E). rewrite H in E.
      destruct (_ && _); discriminate.
    + split; [reflexivity|]. intros _. eauto.
  - intros ctx tasks. rewrite StartFacts.start_outcome.
    destruct (_ && _); auto.
Qed.

(* ===================================================================== *)
(** * Further properties of the code *)
(* ===================================================================== *)

Lemma start_next_ctx st l : s_ctx (start_next st l) = s_ctx st.
Proof.
  unfold start_next, start_step.
  destruct l as [| d | i |]; cbn.
  - reflexivity.
  - destruct (0 <=? d)%Z; reflexivity.
  - destruct (s_running st !! i) as [[|]|]; reflexivity.
  - destruct (s_pc st);
      [destruct (ctx_done st) | destruct (s_wg st =? 0)%Z |]; reflexivity.
Qed.

Lemma start_exec_ctx sched : forall st, s_ctx (start_exec st sched) = s_ctx st.
Proof.
  unfold start_exec.
  induction sched as [|l sched IH]; intros st; cbn; [reflexivity|].
  rewrite IH. apply start_next_ctx.
Qed.

Lemma count_running_le l : (count_running l <= length l)%nat.
Proof. unfold count_running. apply List.filter_length_le. Qed.

(** X1. Throughout a run of [start], whatever happens and in whatever
    order: the engines keep the scope they were started with (the given
    scope, under a deadline exactly when the timeout is positive); the
    WaitGroup counter is the number of engines that have not returned,
    so it never goes below zero nor above the number of tasks; and
    [start] is past [<-ctx.Done()] only if the scope has ended, and has
    returned only if moreover the counter is zero. *)
Theorem start_keeps_waitgroup_and_scope :
  forall (ctx : Context) (timeout : Z) (tasks : list pcapTask)
         (sched : list label),
    let st := start_exec (start_init ctx timeout tasks) sched in
    s_ctx st = (if (0 <? timeout)%Z then WithTimeout ctx timeout else ctx) /\
    length (s_running st) = length tasks /\
    s_wg st = Z.of_nat (count_running (s_running st)) /\
    (0 <= s_wg st <= Z.of_nat (length tasks))%Z /\
    match s_pc st with
    | AwaitDone => True
    | AwaitWg => ctx_done st = true
    | Returned => ctx_done st = true /\ s_wg st = 0%Z
    end.
Proof.
  intros ctx timeout tasks sched st. subst st.
  destruct (StartFacts.tracks_exec ctx timeout tasks sched)
    as [Ht Hb He Hr Hw Hp].
  assert (Hlen : length
            (s_running (start_exec (start_init ctx timeout tasks) sched)) =
          length tasks).
  { rewrite Hr. rewrite length_map, length_seq. reflexivity. }
  split; [apply start_exec_ctx|]. split; [exact Hlen|].
  split; [exact Hw|]. split; [|exact Hp].
  rewrite Hw.
  pose proof (count_running_le
    (s_running (start_exec (start_init ctx timeout tasks) sched))).
  lia.
Qed.

(** Go through the outcomes of the calls made for one interface. *)
Ltac iface_cases w iface td jd jl :=
  destruct (InterfaceByName w iface) as [?netIface | ?err];
  [ destruct td;
    [destruct (NewTcpdump w _) |];
    (destruct jd, jl; cbn [negb orb andb];
     [destruct (NewPcap w _);
      [| destruct (NewPcapWriter w _ _ _);
         destruct (NewStdoutPcapWriter w _)] | | | ])
  | ].

Lemma iface_tasks_as_written w dir ext flt snap intv td jd jl ord iface :
  forallb (task_as_written td (jd && jl))
    (iface_tasks w dir ext flt snap intv td jd jl ord iface) = true.
Proof.
  unfold iface_tasks, iface_alone, createTasks_iface.
  iface_cases w iface td jd jl; reflexivity.
Qed.

Lemma iface_tasks_kinds w dir ext flt snap intv td jd jl ord iface :
  In (map is_decoded_task
        (iface_tasks w dir ext flt snap intv td jd jl ord iface))
     [[]; [false]; [true]; [false; true]].
Proof.
  unfold iface_tasks, iface_alone, createTasks_iface.
  iface_cases w iface td jd jl; cbn; tauto.
Qed.

Lemma iface_tasks_settings w dir ext flt snap intv td jd jl ord iface :
  Forall (settings_as_given ext flt snap intv ord)
    (iface_tasks w dir ext flt snap intv td jd jl ord iface).
Proof.
  unfold iface_tasks, iface_alone, createTasks_iface.
  iface_cases w iface td jd jl; cbn; repeat constructor.
Qed.

Lemma iface_tasks_expected w dir ext flt snap intv td jd jl ord iface :
  iface_tasks w dir ext flt snap intv td jd jl ord iface =
  expected_tasks w dir ext flt snap intv td jd jl ord iface.
Proof.
  unfold iface_tasks, iface_alone, createTasks_iface, expected_tasks,
    output_template.
  iface_cases w iface td jd jl; reflexivity.
Qed.

(** X2. [createTasks] panics exactly when the interface expression does
    not compile, leaving the state as it was, and otherwise returns; it
    never exits and never blocks. The tasks it returns are, device by
    device in the order of the selection, exactly these: the raw task
    (the tcpdump engine with no sink) when the [tcpdump] flag is set and
    [NewTcpdump] has succeeded; then the decoded task (the JSON engine)
    when [jsondump] and [jsonlog] are both set and [NewPcap] and
    [NewStdoutPcapWriter] have succeeded, with the console sink last and
    the file sink before it when [NewPcapWriter] has succeeded; nothing
    for a device that cannot be resolved. So every task is of one of
    these two kinds and no task holds a nil engine or a nil sink. *)
Theorem createTasks_builds_tasks_as_written :
  forall (w : World) (directory extension filter : string)
         (snaplen interval : Z) (tcpdump jsondump jsonlog ordered : bool)
         (st : State),
    match Regexp.MustCompile (regexp_Compile w)
            (ifaceRegexp_source (ifacePattern w)) with
    | None =>
        createTasks w directory extension filter snaplen interval
          tcpdump jsondump jsonlog ordered st = Panic st
    | Some re =>
        exists st',
          createTasks w directory extension filter snaplen interval
            tcpdump jsondump jsonlog ordered st =
          Ok (flat_map
                (expected_tasks w directory extension filter snaplen interval
                   tcpdump jsondump jsonlog ordered)
                (FindDevicesByRegex w re)) st'
    end /\
    forall iface : string,
      forallb (task_as_written tcpdump (jsondump && jsonlog))
        (expected_tasks w directory extension filter snaplen interval
           tcpdump jsondump jsonlog ordered iface) = true.
Proof.
  intros w directory extension filter snaplen interval tcpdump jsondump
         jsonlog ordered st.
  split.
  - rewrite createTasks_alone.
    destruct (Regexp.MustCompile _ _) as [re|]; [|reflexivity].
    eexists. cbv zeta. f_equal. apply flat_map_ext. intros iface.
    apply iface_tasks_expected.
  - intros iface. rewrite <- iface_tasks_expected.
    apply iface_tasks_as_written.
Qed.

(** X3. The loop over the devices always returns, with at most two tasks
    per device: at most one raw task and at most one decoded task for
    each. *)
Theorem createTasks_loop_two_tasks_per_device :
  forall (w : World) (directory extension filter : string)
         (snaplen interval : Z) (tcpdump jsondump jsonlog ordered : bool)
         (devices : list string) (st : State),
    exists tasks st',
      createTasks_loop w directory extension filter snaplen interval
        tcpdump jsondump jsonlog ordered [] devices st = Ok tasks st' /\
      (length tasks <= 2 * length devices)%nat /\
      (length (List.filter is_decoded_task tasks) <= length devices)%nat /\
      (length (List.filter (fun t => negb (is_decoded_task t)) tasks)
         <= length devices)%nat.
Proof.
  intros w directory extension filter snaplen interval tcpdump jsondump
         jsonlog ordered devices st.
  rewrite createTasks_loop_alone. eexists. eexists.
  split; [reflexivity|]. cbn [app].
  induction devices as [|iface devices IH]; [cbn; lia|].
  cbn [flat_map length]. rewrite !List.filter_app, !List.length_app.
  pose proof (iface_tasks_kinds w directory extension filter snaplen interval
                tcpdump jsondump jsonlog ordered iface) as Hk.
  set (ts := iface_tasks w directory extension filter snaplen interval
               tcpdump jsondump jsonlog ordered iface) in *.
  assert (Hl : (length ts <= 2)%nat /\
               (length (List.filter is_decoded_task ts) <= 1)%nat /\
               (length (List.filter (fun t => negb (is_decoded_task t)) ts)
                  <= 1)%nat).
  { clearbody ts. cbn in Hk.
    destruct ts as [|a [|b [|c ts]]]; cbn in Hk;
      repeat (destruct Hk as [Hk|Hk]; try discriminate; try contradiction);
      cbn; inversion Hk as [H1];
      repeat match goal with
             | H : is_decoded_task _ = _ |- _ => rewrite H
             end; cbn; lia. }
  lia.
Qed.

(** X4. Every task that [createTasks] returns has the settings of the
    command line: its engine has the given filter, snapshot length and
    rotation interval; a raw engine has the format [pcap], the given
    extension and no ordering; a decoded engine has the format and the
    extension [json] and the given ordering; and a file sink writes to
    the output template of its engine, as [json], with the same
    interval. *)
Theorem createTasks_copies_settings :
  forall (w : World) (directory extension filter : string)
         (snaplen interval : Z) (tcpdump jsondump jsonlog ordered : bool)
         (st : State),
    match createTasks w directory extension filter snaplen interval
            tcpdump jsondump jsonlog ordered st with
    | Ok tasks _ =>
        Forall (settings_as_given extension filter snaplen interval ordered)
          tasks
    | _ => True
    end.
Proof.
  intros. rewrite createTasks_alone.
  destruct (Regexp.MustCompile _ _); [|exact I].
  apply Forall_flat_map_intro. intros a. apply iface_tasks_settings.
Qed.

(** X6. [createTasks] only prints: it leaves the job and execution
    identities, the registry, the time zone flag and the calls on the
    scheduler as they were, and what it appends to the output is stamped
    with the placeholder job and the current execution identity. *)
Theorem createTasks_only_prints :
  forall (w : World) (directory extension filter : string)
         (snaplen interval : Z) (tcpdump jsondump jsonlog ordered : bool)
         (st : State),
    let s := final_state
               (createTasks w directory extension filter snaplen interval
                  tcpdump jsondump jsonlog ordered st) in
    jid s = jid st /\ xid s = xid st /\ jobs s = jobs st /\
    timezone s = timezone st /\ calls s = calls st /\
    entropy s = entropy st /\
    exists printed,
      stdout s = stdout st ++ printed /\
      Forall (stamped emptyTcpdumpJob (xid st)) printed.
Proof.
  intros. subst s. rewrite createTasks_alone.
  destruct (Regexp.MustCompile _ _); cbn.
  - repeat split. eexists. split; [reflexivity|].
    apply Forall_flat_map_intro. intros a. apply iface_entries_stamped.
  - repeat split. exists []. split; [now rewrite app_nil_r | constructor].
Qed.

Module OutputFacts.

Lemma list_ascii_of_string_inj s1 s2 :
  list_ascii_of_string s1 = list_ascii_of_string s2 -> s1 = s2.
Proof.
  intros H. rewrite <- (string_of_list_ascii_of_string s1),
              <- (string_of_list_ascii_of_string s2), H. reflexivity.
Qed.

Lemma uint_no_underscore d :
  ~ In underscore (list_ascii_of_string (NilEmpty.string_of_uint d)).
Proof.
  induction d; cbn; intros H; try contradiction;
    (destruct H as [H|H]; [discriminate H | auto]).
Qed.

Lemma fmt_d_no_underscore z :
  ~ In underscore (list_ascii_of_string (fmt_d z)).
Proof.
  unfold fmt_d, NilZero.string_of_int, NilZero.string_of_uint.
  destruct (Z.to_int z) as [d|d].
  - destruct d; try apply (uint_no_underscore (_ d)).
    cbn. intros [H|[]]. discriminate H.
  - cbn. intros [H|H]; [discriminate H|]. revert H.
    destruct d; try apply (uint_no_underscore (_ d)).
    cbn. intros [H|[]]. discriminate H.
Qed.

Lemma fmt_d_inj z1 z2 : fmt_d z1 = fmt_d z2 -> z1 = z2.
Proof.
  unfold fmt_d. intros H. apply DecimalZ.to_int_inj.
  assert (Hn : forall z, Z.to_int z <> Decimal.Pos Decimal.Nil /\
                         Z.to_int z <> Decimal.Neg Decimal.Nil).
  { intros [|p|p]; cbn; split; try discriminate;
      intros E; inversion E as [E'];
      exact (DecimalPos.Unsigned.to_uint_nonnil p E'). }
  assert (E : Some (Z.to_int z1) = Some (Z.to_int z2)).
  { rewrite <- (NilZero.isi (Z.to_int z1)) by apply Hn.
    rewrite <- (NilZero.isi (Z.to_int z2)) by apply Hn.
    now rewrite H. }
  now inversion E.
Qed.

(** Two texts cut at their first underscore. *)
Lemma split_at_underscore a : forall b x y,
  ~ In underscore a -> ~ In underscore b ->
  a ++ underscore :: x = b ++ underscore :: y -> a = b /\ x = y.
Proof.
  induction a as [|c a IH]; intros b x y Ha Hb E.
  - destruct b as [|c' b]; cbn in E.
    + inversion E. auto.
    + inversion E; subst. exfalso. apply Hb. now left.
  - destruct b as [|c' b]; cbn in E.
    + inversion E; subst. exfalso. apply Ha. now left.
    + inversion E; subst.
      destruct (IH b x y) as [-> ->]; auto.
      * intros H. apply Ha. now right.
      * intros H. apply Hb. now right.
Qed.

Lemma output_template_inj dir i1 n1 i2 n2 :
  output_template dir i1 n1 = output_template dir i2 n2 ->
  i1 = i2 /\ n1 = n2.
Proof.
  unfold output_template. intros H.
  apply (f_equal list_ascii_of_string) in H.
  rewrite !IfaceRegexp.list_ascii_of_string_app in H.
  apply app_inv_head in H. apply app_inv_head in H.
  change (list_ascii_of_string "_") with [underscore] in H.
  cbn [app] in H.
  apply split_at_underscore in H; try apply fmt_d_no_underscore.
  destruct H as [Hi Hn].
  apply list_ascii_of_string_inj, fmt_d_inj in Hi.
  apply app_inv_tail, list_ascii_of_string_inj in Hn. auto.
Qed.

End OutputFacts.

Lemma iface_tasks_output w dir ext flt snap intv td jd jl ord iface ni :
  InterfaceByName w iface = inl ni ->
  Forall (fun t => exists cfg,
            pcap.engine_config (engine t) = Some cfg /\
            pcap.Iface cfg = net.Name ni /\
            pcap.Output cfg = output_template dir (net.Index ni) (net.Name ni))
    (iface_tasks w dir ext flt snap intv td jd jl ord iface).
Proof.
  intros Hni. unfold iface_tasks, iface_alone, createTasks_iface.
  rewrite Hni.
  destruct td;
    [destruct (NewTcpdump w _) |];
    (destruct jd, jl; cbn [negb orb andb];
     [destruct (NewPcap w _);
      [| destruct (NewPcapWriter w _ _ _);
         destruct (NewStdoutPcapWriter w _)] | | | ]);
    cbn; repeat constructor; eexists; repeat split.
Qed.

(** X5. The engine of a task captures on the resolved name of its
    interface, and the output template tells interfaces apart: if a task
    built for one resolved interface and a task built for another have
    the same output template, the two interfaces have the same index and
    the same name. *)
Theorem tasks_write_to_the_output_of_their_interface :
  forall (w : World) (directory extension filter : string)
         (snaplen interval : Z) (tcpdump jsondump jsonlog ordered : bool)
         (iface1 iface2 : string) (ni1 ni2 : net.Interface)
         (t1 t2 : pcapTask) (cfg1 cfg2 : pcap.PcapConfig),
    InterfaceByName w iface1 = inl ni1 ->
    InterfaceByName w iface2 = inl ni2 ->
    In t1 (iface_tasks w directory extension filter snaplen interval
             tcpdump jsondump jsonlog ordered iface1) ->
    In t2 (iface_tasks w directory extension filter snaplen interval
             tcpdump jsondump jsonlog ordered iface2) ->
    pcap.engine_config (engine t1) = Some cfg1 ->
    pcap.engine_config (engine t2) = Some cfg2 ->
    pcap.Output cfg1 = pcap.Output cfg2 ->
    net.Index ni1 = net.Index ni2 /\ net.Name ni1 = net.Name ni2 /\
    pcap.Iface cfg1 = pcap.Iface cfg2.
Proof.
  intros w directory extension filter snaplen interval tcpdump jsondump
    jsonlog ordered iface1 iface2 ni1 ni2 t1 t2 cfg1 cfg2
    H1 H2 Hin1 Hin2 Hc1 Hc2 Hout.
  pose proof (iface_tasks_output w directory extension filter snaplen interval
                tcpdump jsondump jsonlog ordered iface1 ni1 H1) as F1.
  pose proof (iface_tasks_output w directory extension filter snaplen interval
                tcpdump jsondump jsonlog ordered iface2 ni2 H2) as F2.
  rewrite List.Forall_forall in F1, F2.
  destruct (F1 _ Hin1) as (c1 & E1 & I1 & O1).
  destruct (F2 _ Hin2) as (c2 & E2 & I2 & O2).
  rewrite Hc1 in E1. rewrite Hc2 in E2.
  inversion E1; inversion E2; subst c1 c2.
  rewrite O1, O2 in Hout.
  apply OutputFacts.output_template_inj in Hout as [Hi Hn].
  rewrite I1, I2. auto.
Qed.




(** The final state of [main] from [s.Start()] on. *)
Ltac scheduled_final w j tasks acts s' E P :=
  match goal with
  | |- context [main_scheduled w j ?job ?t acts
                  (main_state _ _ ?tz ?out ?cs)] =>
      destruct (main_scheduled_final w j tasks t acts tz out cs)
        as (s' & E & P);
      cbv zeta in E; rewrite E
  end.

Lemma final_state_signal {A} (a : A) (sg : option string) s :
  final_state (match sg with Some _ => Ok a s | None => Blocked s end) = s.
Proof. destruct sg; reflexivity. Qed.

(** X8. When the enumeration of the devices fails, or no host interface
    matches, [main] prints the arguments and the error that no tasks are
    available, nothing else, and exits with 1: the error of the
    enumeration itself is not reported. *)
Theorem main_without_devices :
  forall (w : World) (fl : flags.t) (sched : list label) (acts : activity)
         (re : Regexp.Regexp),
    Regexp.MustCompile (regexp_Compile w)
      (ifaceRegexp_source (ifacePattern w)) = Some re ->
    match FindAllDevs w with
    | inl names => List.filter (Regexp.MatchString re) names = []
    | inr _ => True
    end ->
    main w fl sched acts (initial_state fl) =
    Exit 1 (main_state uuid.Nil ∅ (flags.timezone fl)
              [placeholder_entry w INFO (args_message fl (flags.timezone fl));
               placeholder_entry w ERROR "no PCAP tasks available"] []).
Proof.
  intros w fl sched acts re Hre Hdev.
  rewrite main_unfold. unfold main_outcome, main_devices. rewrite Hre.
  assert (E : FindDevicesByRegex w re = []).
  { unfold FindDevicesByRegex. destruct (FindAllDevs w); auto. }
  rewrite E. reflexivity.
Qed.

Lemma main_without_devices_witness :
  let w := with_FindAllDevs (inr "permission denied")
             (sample_world "eth" ["eth0"] []) in
  let fl := sample_flags false "UTC" true false false in
  exit_code (main w fl [] [] (initial_state fl)) = Some 1%Z /\
  length (stdout (final_state (main w fl [] [] (initial_state fl)))) = 2%nat.
Proof.
  cbv zeta.
  rewrite (main_without_devices
             (with_FindAllDevs (inr "permission denied")
                (sample_world "eth" ["eth0"] []))
             (sample_flags false "UTC" true false false) [] []
             (Regexp.Modelled (ifaceRegexp_literal "eth"))
             (IfaceRegexp.MustCompile_literal _ "eth" eq_refl) I).
  split; reflexivity.
Defined.

(** X10. Without [use_cron], [main] makes no call on the scheduler,
    registers no job, leaves the job identity nil and never looks the
    time zone up: the flag keeps the value of the command line, valid or
    not. *)
Theorem main_unscheduled_leaves_scheduler_alone :
  forall (w : World) (fl : flags.t) (sched : list label) (acts : activity),
    flags.use_cron fl = false ->
    let s := final_state (main w fl sched acts (initial_state fl)) in
    calls s = [] /\ jobs s = ∅ /\ jid s = uuid.Nil /\
    timezone s = flags.timezone fl.
Proof.
  intros w fl sched acts Hc. cbv zeta. rewrite main_unfold.
  unfold main_outcome. rewrite Hc.
  destruct (main_devices w) as [devices|]; [|repeat split].
  destruct (devices_tasks w fl devices); [repeat split|].
  destruct (_ && _); repeat split.
Qed.

Lemma main_unscheduled_leaves_scheduler_alone_witness :
  let w := sample_world "eth" ["eth0"] [] in
  let fl := sample_flags false "Mars/Phobos" true false false in
  let s := final_state (main w fl [] [] (initial_state fl)) in
  calls s = [] /\ jobs s = ∅ /\ jid s = uuid.Nil /\
  timezone s = "Mars/Phobos".
Proof.
  exact (main_unscheduled_leaves_scheduler_alone
           (sample_world "eth" ["eth0"] [])
           (sample_flags false "Mars/Phobos" true false false) [] [] eq_refl).
Defined.

(** X13. Whatever the world, the flags and what the scheduler does,
    every scheduler that [main] asks for is limited to one running job
    with overlapping triggers rescheduled, in the location in force (UTC
    when the configured zone cannot be loaded); and every job it asks for
    is named [tcpdump], in singleton mode with rescheduling, on the
    crontab [TZ=zone expression] read with seconds, with the duration of
    the timeout as the parameter of its task. *)
Theorem main_scheduler_configuration :
  forall (w : World) (fl : flags.t) (sched : list label) (acts : activity),
    Forall (configured_as_written w fl)
      (calls (final_state (main w fl sched acts (initial_state fl)))).
Proof.
  intros w fl sched acts. rewrite main_unfold. unfold main_outcome.
  destruct (main_devices w) as [devices|]; [|constructor].
  destruct (devices_tasks w fl devices) as [|task tasks]; [constructor|].
  destruct (flags.use_cron fl).
  - destruct (NewScheduler w _); [repeat constructor|].
    destruct (NewJob w _) as [j|err]; [|repeat constructor].
    scheduled_final w j (task :: tasks) acts s' E P.
    rewrite final_state_signal, (pr_calls _ _ _ _ _ P).
    cbn [calls main_state app].
    destruct (signal w); repeat constructor.
  - destruct (_ && _); constructor.
Qed.

(** X14. [main] releases the scheduler it has created: when the job
    cannot be created it shuts the scheduler down before exiting with 3;
    when it returns from a scheduled run it stops the jobs, removes the
    job registered under the current job identity and shuts down, in
    this order. In every other case (no scheduler created, or still
    waiting for the signal) it makes none of these calls. *)
Theorem main_releases_scheduler :
  forall (w : World) (fl : flags.t) (sched : list label) (acts : activity),
    let r := main w fl sched acts (initial_state fl) in
    List.filter is_release (calls (final_state r)) =
    match r with
    | Exit 3 _ => [CallShutdown]
    | Ok _ s =>
        if flags.use_cron fl
        then [CallStopJobs; CallRemoveJob (jid s); CallShutdown]
        else []
    | _ => []
    end.
Proof.
  intros w fl sched acts. cbv zeta. rewrite main_unfold. unfold main_outcome.
  destruct (main_devices w) as [devices|]; [|reflexivity].
  destruct (devices_tasks w fl devices) as [|task tasks]; [reflexivity|].
  destruct (flags.use_cron fl).
  - destruct (NewScheduler w _); [reflexivity|].
    destruct (NewJob w _) as [j|err]; [|reflexivity].
    scheduled_final w j (task :: tasks) acts s' E P.
    rewrite final_state_signal, (pr_calls _ _ _ _ _ P).
    cbn [calls main_state app].
    destruct (signal w); [|reflexivity].
    rewrite (pr_jid _ _ _ _ _ P). reflexivity.
  - destruct (_ && _); reflexivity.
Qed.

(** X15. While a scheduled [main] waits for the signal, whatever the
    scheduler has done, the registry holds exactly one job, under the
    current job identity, with all the tasks that were built; so
    [tcpdump], run by the scheduler in that state, never fails to find
    its job, and runs these tasks. *)
Theorem main_registers_built_tasks :
  forall (w : World) (fl : flags.t) (sched : list label) (acts : activity)
         (s : State),
    flags.use_cron fl = true ->
    main w fl sched acts (initial_state fl) = Blocked s ->
    exists (j : gocron.Job) (tasks : list pcapTask),
      built_tasks w fl = Some tasks /\
      tasks <> [] /\
      jid s = gocron.ID j /\
      jobs s = {[gocron.ID j := registered_job j tasks]} /\
      forall (sched' : list label) (timeout : Z),
        tcpdump w sched' timeout s =
        if scope_ended timeout sched' && all_returned (length tasks) sched'
        then Ok None s else Blocked s.
Proof.
  intros w fl sched acts s Hc H. rewrite main_unfold in H.
  rewrite built_tasks_devices. unfold main_outcome in H. rewrite Hc in H.
  destruct (main_devices w) as [devices|]; [|discriminate].
  destruct (devices_tasks w fl devices) as [|task tasks] eqn:Et;
    [discriminate|].
  destruct (NewScheduler w _); [discriminate|].
  destruct (NewJob w _) as [j|err]; [|discriminate].
  exists j, (task :: tasks).
  match type of H with
  | main_scheduled w j ?job ?t acts (main_state _ _ ?tz ?out ?cs) = _ =>
      destruct (main_scheduled_final w j (task :: tasks) t acts tz out cs)
        as (s' & E & P)
  end.
  cbv zeta in E. rewrite E in H.
  destruct (signal w); [discriminate|]. inversion H; subst s'.
  pose proof (pr_jid _ _ _ _ _ P) as Hjid.
  pose proof (pr_jobs _ _ _ _ _ P) as Hjobs.
  cbn [jid jobs main_state] in Hjid, Hjobs.
  split; [reflexivity|]. split; [discriminate|].
  split; [exact Hjid|]. split; [exact Hjobs|].
  intros sched' timeout.
  pose proof (tcpdump_outcome w sched' timeout s) as Ht.
  rewrite Hjid, Hjobs, lookup_singleton_eq in Ht. exact Ht.
Qed.

Lemma main_registers_built_tasks_witness :
  let w := with_signal None (sample_world "eth" ["eth0"] []) in
  let fl := sample_flags true "UTC" true false false in
  let acts := [[BeforeLogs; BeforeStores; TaskRuns [Elapse 5]]] in
  let s := final_state (main w fl [] acts (initial_state fl)) in
  exists (j : gocron.Job) (tasks : list pcapTask),
    built_tasks w fl = Some tasks /\
    tasks <> [] /\
    jid s = gocron.ID j /\
    jobs s = {[gocron.ID j := registered_job j tasks]} /\
    forall (sched' : list label) (timeout : Z),
      tcpdump w sched' timeout s =
      if scope_ended timeout sched' && all_returned (length tasks) sched'
      then Ok None s else Blocked s.
Proof.
  cbv zeta.
  apply (main_registers_built_tasks
           (with_signal None (sample_world "eth" ["eth0"] []))
           (sample_flags true "UTC" true false false) []
           [[BeforeLogs; BeforeStores; TaskRuns [Elapse 5]]]
           (final_state
              (main (with_signal None (sample_world "eth" ["eth0"] []))
                 (sample_flags true "UTC" true false false) []
                 [[BeforeLogs; BeforeStores; TaskRuns [Elapse 5]]]
                 (initial_state (sample_flags true "UTC" true false false))))
           eq_refl).
  vm_compute. reflexivity.
Defined.

Lemma wrap64_small z :
  (- 2 ^ 63 <= z < 2 ^ 63)%Z -> time.wrap64 z = z.
Proof.
  intros H. unfold time.wrap64. rewrite Z.mod_small; lia.
Qed.

Lemma wrap64_overflow z :
  (2 ^ 63 <= z < 2 ^ 64)%Z -> time.wrap64 z = (z - 2 ^ 64)%Z.
Proof.
  intros H. unfold time.wrap64.
  replace (z + 2 ^ 63)%Z with ((z - 2 ^ 63) + 1 * 2 ^ 64)%Z by lia.
  rewrite Z.mod_add by lia. rewrite Z.mod_small; lia.
Qed.

Lemma main_unscheduled_exit w fl sched acts tasks :
  flags.use_cron fl = false ->
  built_tasks w fl = Some tasks -> tasks <> [] ->
  exit_code (main w fl sched acts (initial_state fl)) =
  if deadline_passed (main_timeout fl) sched &&
     all_returned (length tasks) sched
  then Some 0%Z else None.
Proof.
  intros Hc Hb Hne. rewrite built_tasks_devices in Hb.
  rewrite main_unfold. unfold main_outcome. rewrite Hc.
  destruct (main_devices w) as [devices|]; [|discriminate].
  inversion Hb as [Ht]. rewrite Ht.
  destruct tasks as [|t ts]; [congruence|].
  destruct (_ && _); reflexivity.
Qed.

(** X11. For a timeout of 0 to 9223372036 seconds the duration handed
    to [start] is that many seconds, without overflow. An unscheduled
    [main] (whose scope nothing cancels: no signal handler is installed
    on that path) then returns (status 0) exactly when the timeout is
    positive, that much time has passed and all engines have returned;
    with timeout 0 it never returns. *)
Theorem main_unscheduled_deadline :
  forall (w : World) (fl : flags.t) (sched : list label) (acts : activity)
         (tasks : list pcapTask),
    flags.use_cron fl = false ->
    built_tasks w fl = Some tasks -> tasks <> [] ->
    (0 <= flags.duration fl <= 9223372036)%Z ->
    main_timeout fl = (flags.duration fl * 1000000000)%Z /\
    exit_code (main w fl sched acts (initial_state fl)) =
    if (0 <? flags.duration fl)%Z &&
       (flags.duration fl * 1000000000 <=? elapsed sched)%Z &&
       all_returned (length tasks) sched
    then Some 0%Z else None.
Proof.
  intros w fl sched acts tasks Hc Hb Hne Hd.
  assert (Ht : main_timeout fl = (flags.duration fl * 1000000000)%Z).
  { unfold main_timeout, time.Second. apply wrap64_small. lia. }
  split; [exact Ht|].
  rewrite (main_unscheduled_exit w fl sched acts tasks Hc Hb Hne).
  unfold deadline_passed. rewrite Ht.
  replace (0 <? flags.duration fl * 1000000000)%Z
    with (0 <? flags.duration fl)%Z; [reflexivity|].
  destruct (Z.ltb_spec 0 (flags.duration fl));
    symmetry; [apply Z.ltb_lt | apply Z.ltb_ge]; lia.
Qed.

Lemma main_unscheduled_deadline_witness :
  let w := sample_world "eth" ["eth0"] [] in
  let fl := with_duration 5 (sample_flags false "UTC" true false false) in
  exit_code (main w fl [EngineReturns 0; Elapse 5000000000] []
               (initial_state fl)) = Some 0%Z /\
  exit_code (main w fl [Cancel; EngineReturns 0; Elapse 4999999999] []
               (initial_state fl)) = None.
Proof.
  cbv zeta. split.
  - refine (proj2 (main_unscheduled_deadline
             (sample_world "eth" ["eth0"] [])
             (with_duration 5 (sample_flags false "UTC" true false false))
             [EngineReturns 0; Elapse 5000000000] [] _
             eq_refl eq_refl _ _)); [discriminate | cbn; lia].
  - refine (proj2 (main_unscheduled_deadline
             (sample_world "eth" ["eth0"] [])
             (with_duration 5 (sample_flags false "UTC" true false false))
             [Cancel; EngineReturns 0; Elapse 4999999999] [] _
             eq_refl eq_refl _ _)); [discriminate | cbn; lia].
Defined.

(** X12. A timeout of 9223372037 to 18446744073 seconds overflows the
    64-bit count of nanoseconds into a negative duration, for which
    [start] derives no deadline: an unscheduled [main] then never
    returns, however long it lasts. *)
Theorem main_unscheduled_timeout_overflow :
  forall (w : World) (fl : flags.t) (sched : list label) (acts : activity)
         (tasks : list pcapTask),
    flags.use_cron fl = false ->
    built_tasks w fl = Some tasks -> tasks <> [] ->
    (9223372037 <= flags.duration fl <= 18446744073)%Z ->
    (main_timeout fl < 0)%Z /\
    exit_code (main w fl sched acts (initial_state fl)) = None.
Proof.
  intros w fl sched acts tasks Hc Hb Hne Hd.
  assert (Ht : (main_timeout fl < 0)%Z).
  { unfold main_timeout, time.Second. rewrite wrap64_overflow; lia. }
  split; [exact Ht|].
  rewrite (main_unscheduled_exit w fl sched acts tasks Hc Hb Hne).
  unfold deadline_passed.
  replace (0 <? main_timeout fl)%Z with false
    by (symmetry; apply Z.ltb_ge; lia).
  reflexivity.
Qed.

Lemma main_unscheduled_timeout_overflow_witness :
  let w := sample_world "eth" ["eth0"] [] in
  let fl := with_duration 9223372037
              (sample_flags false "UTC" true false false) in
  (main_timeout fl < 0)%Z /\
  exit_code (main w fl [EngineReturns 0; Elapse 9223372037000000000] []
               (initial_state fl)) = None.
Proof.
  cbv zeta.
  refine (main_unscheduled_timeout_overflow
            (sample_world "eth" ["eth0"] [])
            (with_duration 9223372037
               (sample_flags false "UTC" true false false))
            [EngineReturns 0; Elapse 9223372037000000000] [] _
            eq_refl eq_refl _ _); [discriminate | cbn; lia].
Defined.

Lemma as_written_nothing (ts : list pcapTask) :
  forallb (task_as_written false false) ts = true -> ts = [].
Proof.
  destruct ts as [|t ts]; [reflexivity|]. cbn.
  destruct t as [[|cfg|cfg] [|[| |] [|[| |] [|? ?]]]]; cbn; discriminate.
Qed.

(** X9. With the raw capture disabled and not both [jsondump] and
    [jsonlog] set, no task can be built, whatever the host: [main] exits
    with 1 whenever the interface expression compiles. *)
Theorem main_with_capture_disabled :
  forall (w : World) (fl : flags.t) (sched : list label) (acts : activity),
    flags.tcp_dump fl = false ->
    flags.json_dump fl && flags.json_log fl = false ->
    main_devices w <> None ->
    exit_code (main w fl sched acts (initial_state fl)) = Some 1%Z.
Proof.
  intros w fl sched acts Hr Hj Hd. rewrite main_unfold. unfold main_outcome.
  destruct (main_devices w) as [devices|]; [|congruence].
  replace (devices_tasks w fl devices) with (@nil pcapTask); [reflexivity|].
  symmetry. apply as_written_nothing. unfold devices_tasks.
  apply forallb_flat_map. intros iface.
  pose proof (iface_tasks_as_written w (flags.directory fl)
                (flags.extension fl) (flags.filter fl) (flags.snaplen fl)
                (flags.interval fl) (flags.tcp_dump fl) (flags.json_dump fl)
                (flags.json_log fl) (flags.ordered fl) iface) as H.
  rewrite Hj in H. rewrite Hr in H at 1. exact H.
Qed.

Lemma main_with_capture_disabled_witness :
  let w := sample_world "eth" ["eth0"; "eth1"] [] in
  let fl := sample_flags false "UTC" false true false in
  exit_code (main w fl [] [] (initial_state fl)) = Some 1%Z.
Proof.
  refine (main_with_capture_disabled
            (sample_world "eth" ["eth0"; "eth1"] [])
            (sample_flags false "UTC" false true false) [] []
            eq_refl eq_refl _).
  unfold main_devices.
  rewrite (IfaceRegexp.MustCompile_literal _ "eth" eq_refl). discriminate.
Defined.

(** X16. [main] exits only with 1, 2 or 3, and the last entry printed
    before any of these exits is an ERROR entry for the placeholder job;
    on every other outcome the first entry printed is the INFO entry
    with the arguments. *)
Theorem main_logs_error_before_exit :
  forall (w : World) (fl : flags.t) (sched : list label) (acts : activity),
    match main w fl sched acts (initial_state fl) with
    | Exit code s =>
        In code [1; 2; 3]%Z /\
        exists before message,
          stdout s = before ++ [placeholder_entry w ERROR message]
    | Ok _ s | Blocked s | Panic s =>
        exists rest,
          stdout s =
          placeholder_entry w INFO (args_message fl (flags.timezone fl)) :: rest
    end.
Proof.
  intros w fl sched acts. rewrite main_unfold. unfold main_outcome.
  destruct (main_devices w) as [devices|]; [|cbn; eauto].
  destruct (devices_tasks w fl devices) as [|task tasks].
  { split; [cbn; auto | eauto]. }
  destruct (flags.use_cron fl).
  - destruct (NewScheduler w _).
    { split; [cbn; auto | eauto]. }
    destruct (NewJob w _) as [j|err].
    + scheduled_final w j (task :: tasks) acts s' E P.
      destruct (pr_stdout _ _ _ _ _ P) as (printed & O & _).
      cbn [stdout main_state] in O. unfold prologue in O. cbn [app] in O.
      destruct (signal w); rewrite O; eauto.
    + split; [cbn; auto | eauto].
  - destruct (_ && _); cbn; unfold prologue; cbn; eauto.
Qed.

Lemma tasks_write_to_the_output_of_their_interface_witness :
  net.Index {| net.Index := 4; net.Name := "eth0" |} = 4%Z /\
  net.Name {| net.Index := 4; net.Name := "eth0" |} = "eth0" /\
  pcap.Iface (newPcapConfig "eth0" "pcap"
                (output_template "/pcap" 4 "eth0") "pcap" EmptyString 0 60) =
  pcap.Iface (newPcapConfig "eth0" "json"
                (output_template "/pcap" 4 "eth0") "json" EmptyString 0 60).
Proof.
  apply (tasks_write_to_the_output_of_their_interface
           (sample_world "eth" ["eth0"] []) "/pcap" "pcap" EmptyString 0 60
           true true true false "eth0" "eth0"
           {| net.Index := 4; net.Name := "eth0" |}
           {| net.Index := 4; net.Name := "eth0" |}
           {| engine := pcap.Tcpdump
                (newPcapConfig "eth0" "pcap"
                   (output_template "/pcap" 4 "eth0") "pcap" EmptyString 0 60);
              writers := [] |}
           {| engine := pcap.Pcap
                (pcap.set_Ordered
                   (newPcapConfig "eth0" "json"
                      (output_template "/pcap" 4 "eth0") "json" EmptyString 0 60)
                   false);
              writers := [pcap.FileWriter (output_template "/pcap" 4 "eth0")
                            "json" 60; pcap.StdoutWriter] |}
           _ _ eq_refl eq_refl);
    [left; reflexivity | right; left; reflexivity
    | reflexivity | reflexivity | reflexivity].
Defined.

(** X17. The two listeners and [tcpdump], run in this order for the
    registered job (whose scheduled job is at hand) with a run of [start]
    that ends: the entry of the start of the execution carries the
    execution identity that was current before, the two entries of its
    end carry the identity that [beforeTcpdump] has drawn, and afterwards
    the execution identity is nil again; nothing else changes but the
    count of identifiers drawn. *)
Theorem execution_entries_carry_minted_identity :
  forall (w : World) (id : uuid.UUID) (name : string) (sched : list label)
         (timeout : Z) (st : State) (job : tcpdumpJob) (j : gocron.Job),
    jobs st !! id = Some job ->
    job_j job = Some j ->
    jid st = id ->
    scope_ended timeout sched &&
      all_returned (length (job_tasks job)) sched = true ->
    let minted := uuid_New w (entropy st) in
    (beforeTcpdump w id name;; tcpdump w sched timeout;;
     afterTcpdump w id name) st =
    Ok tt
      {| jid := jid st; xid := uuid.Nil; jobs := jobs st;
         timezone := timezone st;
         stdout := stdout st ++
           [log_entry w INFO job (xid st)
              ("execution started ( last execution: " +:+ LastRun w j +:+ " )");
            log_entry w INFO job minted "execution complete";
            log_entry w INFO job minted ("next execution: " +:+ NextRun w j)];
         calls := calls st; entropy := S (entropy st) |}.
Proof.
  intros w id name sched timeout st job j Hjob Hj Hid Hrun minted.
  subst minted. unfold beforeTcpdump, afterTcpdump. exec.
  rewrite Hjob. rewrite Hj. exec.
  unfold bind at 1.
  pose proof (tcpdump_outcome w sched timeout
    (set_entropy (S (entropy st))
       (set_xid (uuid_New w (entropy st))
          (set_stdout
             (stdout st ++
              [log_entry w INFO job (xid st)
                 ("execution started ( last execution: " +:+
                  LastRun w j +:+ " )")]) st)))) as Ht.
  cbn [jid jobs set_entropy set_xid set_stdout] in Ht.
  rewrite Hid, Hjob, Hrun in Ht. rewrite Ht. exec.
  rewrite Hjob. exec. rewrite Hj. exec.
  rewrite <- !app_assoc. reflexivity.
Qed.

Lemma execution_entries_carry_minted_identity_witness :
  let w := with_signal None (sample_world "eth" ["eth0"] []) in
  let fl := sample_flags true "UTC" true false false in
  let st := final_state (main w fl [] [] (initial_state fl)) in
  map (fun e => (Message e, Xid (Job e)))
    (stdout (final_state
       ((beforeTcpdump w 77%N "tcpdump";; tcpdump w [Cancel; EngineReturns 0] 0;;
         afterTcpdump w 77%N "tcpdump") st))) =
  map (fun e => (Message e, Xid (Job e))) (stdout st) ++
  [("execution started ( last execution: 0001-01-01 00:00:00 +0000 UTC )",
    nil_uuid_string);
   ("execution complete", "00000000-0000-0000-0000-0000000003e8");
   ("next execution: 2026-01-01 00:01:00 +0000 UTC",
    "00000000-0000-0000-0000-0000000003e8")].
Proof.
  cbv zeta.
  rewrite (execution_entries_carry_minted_identity
             (with_signal None (sample_world "eth" ["eth0"] [])) 77%N "tcpdump"
             [Cancel; EngineReturns 0] 0
             (final_state
                (main (with_signal None (sample_world "eth" ["eth0"] []))
                   (sample_flags true "UTC" true false false) [] []
                   (initial_state (sample_flags true "UTC" true false false))))
             _ _ eq_refl eq_refl eq_refl eq_refl).
  vm_compute. reflexivity.
Defined.

(** X18. Called with an identity that is not in the registry, the
    listeners print nothing: [beforeTcpdump] still draws a new execution
    identity and [afterTcpdump] still resets it to nil. *)
Theorem listeners_without_registered_job :
  forall (w : World) (id : uuid.UUID) (name : string) (st : State),
    jobs st !! id = None ->
    beforeTcpdump w id name st =
      Ok tt (set_entropy (S (entropy st))
               (set_xid (uuid_New w (entropy st)) st)) /\
    afterTcpdump w id name st = Ok tt (set_xid uuid.Nil st).
Proof.
  intros w id name st H. unfold beforeTcpdump, afterTcpdump. exec.
  rewrite H. exec. split; reflexivity.
Qed.

Lemma listeners_without_registered_job_witness :
  let w := sample_world "eth" ["eth0"] [] in
  stdout (final_state (beforeTcpdump w 5%N "tcpdump" (blank_state uuid.Nil)))
    = [] /\
  xid (final_state (beforeTcpdump w 5%N "tcpdump" (blank_state uuid.Nil)))
    = 1000%N /\
  xid (final_state (afterTcpdump w 5%N "tcpdump" (blank_state 1000%N)))
    = uuid.Nil.
Proof.
  cbv zeta.
  rewrite (proj1 (listeners_without_registered_job
                    (sample_world "eth" ["eth0"] []) 5%N "tcpdump"
                    (blank_state uuid.Nil) eq_refl)).
  rewrite (proj2 (listeners_without_registered_job
                    (sample_world "eth" ["eth0"] []) 5%N "tcpdump"
                    (blank_state 1000%N) eq_refl)).
  repeat split.
Defined.
